(** * mpc.pytorch: the box-constrained iLQR solver of [mpc/mpc.py]

    A shallow embedding of the class [MPC] (constructor, [forward],
    [solve_lqr_subproblem], [linearize_dynamics]) and the properties of the
    outer solver that the specification states about it.

    Conventions of the embedding.
    - Tensor entries are exact rationals ([Q]); comparisons are the exact
      ones ([Qle_bool]).  Rounding, NaN and infinities are outside the model.
    - A tensor of rank r is an r-fold nested list, outermost dimension first:
      a trajectory [x] of shape [T, n_batch, n_state] is a
      [list (list (list Q))].  Rectangularity is an obligation of the caller
      and appears as a hypothesis where a proof needs it.
    - Python exceptions are values of [exn]; printing appends to a log.  A
      computation is a pair of the lines it printed and its outcome. *)

From Stdlib Require Import QArith Qabs Qminmax Qround ZArith String List Lia Lqa.
From stdpp Require Import base list.
Import ListNotations.

Open Scope Q_scope.

(** ** Exceptions, output and the computation monad *)

Inductive exn : Type :=
| AssertionError (msg : string)
| IndexError
| TypeError
| ValueError
| RuntimeError
| AttributeError
| UnboundLocalError
| SystemExit (code : Z).

Inductive outcome (A : Type) : Type :=
| Ok (a : A)
| Raise (e : exn).
Arguments Ok {A} a.
Arguments Raise {A} e.

(** What the solver writes to standard output. *)
Inductive event : Type :=
| Print (line : string)
| PrintInitialCost (mean_cost : Q)
| TableLog (iter : nat) (mean_cost full_du_max mean_alphas : Q)
           (total_qp_iters : nat).

Definition M (A : Type) : Type := (list event * outcome A)%type.

Definition printed {A} (m : M A) : list event := fst m.
Definition result {A} (m : M A) : outcome A := snd m.

#[global] Instance M_ret : MRet M := fun A a => ([], Ok a).
#[global] Instance M_bind : MBind M := fun A B k m =>
  match m with
  | (w, Ok a) => let '(w', r) := k a in (w ++ w', r)
  | (w, Raise e) => (w, Raise e)
  end.

Definition raise {A} (e : exn) : M A := ([], Raise e).
Definition print (ev : event) : M unit := ([ev], Ok tt).

(** [assert b, msg] *)
Definition assert_ (b : bool) (msg : string) : M unit :=
  if b then mret tt else raise (AssertionError msg).

(** [l[i]] on a Python list or along the first dimension of a tensor. *)
Definition getitem {A} (l : list A) (i : nat) : M A :=
  match l !! i with
  | Some a => mret a
  | None => raise IndexError
  end.

(** [l[i] = v], in place. *)
Definition setitem {A} (l : list A) (i : nat) (v : A) : M (list A) :=
  if bool_decide (i < length l)%nat then mret (<[i:=v]> l) else raise IndexError.

(** ** Tensors *)

Abbreviation vec := (list Q).
Abbreviation mat := (list (list Q)).            (* rows *)

(** [T, n_batch, n] trajectories and [T-1, n_batch, n, m] Jacobians. *)
Abbreviation traj := (list (list (list Q))).
Abbreviation jacs := (list (list (list (list Q)))).

Definition Qlt_bool (a b : Q) : bool := negb (Qle_bool b a).

(** A returned tensor entry: its value, and the factor with which a
    gradient arriving at it is passed on to the output of the last
    [LQRStep] ([1] attached, [0] detached). *)
Record gvar : Type := mkGvar {
  val : Q;
  grad : Q;
}.

Abbreviation gtraj := (list (list (list gvar))).

(** ** Configuration *)

Inductive GradMethods : Type :=
| AUTO_DIFF
| FINITE_DIFF
| ANALYTIC
| ANALYTIC_CHECK.

(** Box bounds are floats or tensors shaped [T, n_batch, n_ctrl]. *)
Inductive bound : Type :=
| BFloat (b : Q)
| BTensor (b : traj).

(** [u_init] is [T, n_ctrl] or [T, n_batch, n_ctrl]. *)
Inductive u_init_arg : Type :=
| UInit2 (u : list vec)
| UInit3 (u : traj).

(** [prev_ctrl] has rank 1, 2 or 3. *)
Inductive prev_ctrl_arg : Type :=
| Prev1 (u : vec)
| Prev2 (u : list vec)
| Prev3 (u : traj).

(** The keyword arguments of [MPC.__init__]; the constructor stores each of
    them under the same name, so the record is also the solver object. *)
Record MPC : Type := mkMPC {
  n_state : nat;
  n_ctrl : nat;
  T : nat;
  x_init : list vec;                       (* [n_batch, n_state] *)
  u_lower : option bound;
  u_upper : option bound;
  u_zero_I : option (list (list (list bool)));
  u_init : option u_init_arg;
  lqr_iter : nat;
  grad_method : GradMethods;
  delta_u : option Q;
  verbose : Z;
  eps : Q;
  back_eps : Q;
  n_batch : option nat;
  linesearch_decay : Q;
  max_linesearch_iter : Z;
  exit_unconverged : bool;
  detach_unconverged : bool;
  backprop : bool;
  F : option jacs;                         (* [T-1, n_batch, n_state, n_tau] *)
  f : option traj;                         (* [T-1, n_batch, n_state] *)
  slew_rate_penalty : option Q;
  prev_ctrl : option prev_ctrl_arg;
  not_improved_lim : Z;
  best_cost_eps : Q;
}.

Definition is_None {A} (o : option A) : bool :=
  match o with None => true | Some _ => false end.

(** [MPC.__init__]: the four assertions, in source order; everything else
    is a field assignment. *)
Definition __init__ (a : MPC) : M MPC :=
  _ ← assert_ (eqb (is_None (u_lower a)) (is_None (u_upper a))) "";
  _ ← assert_ (0 <? max_linesearch_iter a)%Z "";
  _ ← assert_ (is_None (f a)) "";
  _ ← match slew_rate_penalty a with
      | Some _ => assert_ (is_None (F a) && is_None (f a)) "unimplemented"
      | None => mret tt
      end;
  mret a.

(** Default keyword values of the constructor. *)
Definition default_MPC (n_state n_ctrl T : nat) (x_init : list vec) : MPC :=
  {| n_state := n_state; n_ctrl := n_ctrl; T := T; x_init := x_init;
     u_lower := None; u_upper := None; u_zero_I := None; u_init := None;
     lqr_iter := 10; grad_method := ANALYTIC; delta_u := None;
     verbose := 0; eps := 1 # 10000000; back_eps := 1 # 10000000;
     n_batch := None; linesearch_decay := 2 # 10;
     max_linesearch_iter := 10; exit_unconverged := true;
     detach_unconverged := true; backprop := true; F := None; f := None;
     slew_rate_penalty := None; prev_ctrl := None; not_improved_lim := 5;
     best_cost_eps := 1 # 10000 |}.

(** ** Tensor operations used by the solver *)

(** [x.size(1)] of a trajectory. *)
Definition size1 {A} (x : list (list A)) : nat :=
  match x with
  | [] => 0%nat
  | row :: _ => length row
  end.

(** [x[:,j]]: the batch element [j] at every timestep. *)
Definition select_batch (x : traj) (j : nat) : M (list vec) :=
  if bool_decide (j < size1 x)%nat
  then mret (map (fun row => nth j row []) x)
  else raise IndexError.

(** [s.unsqueeze(1)] on a [T, n] slice gives a [T, 1, n] tensor. *)
Definition unsqueeze1 (s : list vec) : traj := map (fun v => [v]) s.

(** [list(torch.split(x, split_size=1, dim=1))] *)
Definition split_batch (x : traj) : list traj :=
  map (fun j => map (fun row => [nth j row []]) x) (seq 0 (size1 x)).

(** [torch.cat(slices, dim=1)]; an empty sequence is refused. *)
Definition cat_dim1 (slices : list traj) : M traj :=
  match slices with
  | [] => raise RuntimeError
  | s :: rest => mret (fold_left (zip_with app) rest s)
  end.

(** [torch.stack(seq)]; an empty sequence is refused. *)
Definition stack {A} (l : list A) : M (list A) :=
  match l with
  | [] => raise ValueError
  | _ => mret l
  end.

(** [torch.stack(cols, dim=1)] of equally long columns: entry [b][j] of
    the result is entry [b] of column [j]. *)
Definition stack_dim1 {A} (cols : list (list A)) : M (list (list A)) :=
  match cols with
  | [] => raise ValueError
  | c0 :: _ =>
      mret (imap (fun b _ => omap (fun col => col !! b) cols) c0)
  end.

(** [t.view(n, m, ...)]: regroup [n*m] rows into [n] groups of [m]. *)
Fixpoint chunks {A} (n m : nat) (rows : list A) : list (list A) :=
  match n with
  | O => []
  | S n' => take m rows :: chunks n' m (drop m rows)
  end.

(** [t.view(-1, n)] of a tensor of rank 3: its entries, in order,
    regrouped into rows of [n]; refused unless they fill whole rows. *)
Definition view_2d (n : nat) (x : list (list (list Q))) : M (list (list Q)) :=
  let flat := concat (concat x) in
  if (0 <? n)%nat && (length flat mod n =? 0)%nat
  then mret (chunks (length flat / n) n flat)
  else raise RuntimeError.

(** [t.view(a, b, n)] of a tensor of rank 2; refused unless the number of
    entries is [a * b * n]. *)
Definition view_3d (a b n : nat) (rows : list (list Q))
  : M (list (list (list Q))) :=
  let flat := concat rows in
  if (length flat =? a * b * n)%nat
  then mret (chunks a b (chunks (a * b) n flat))
  else raise RuntimeError.

(** [t.view(a, b, n, m)] of a tensor of rank 3. *)
Definition view_4d (a b n m : nat) (mats : list (list (list Q)))
  : M (list (list (list (list Q)))) :=
  let flat := concat (concat mats) in
  if (length flat =? a * b * n * m)%nat
  then mret (chunks a b (chunks (a * b) n (chunks (a * b * n) m flat)))
  else raise RuntimeError.

(** [t.unsqueeze(1).expand(T, n_batch, ...)] on the two leading
    dimensions: a leading dimension of size one is broadcast. *)
Definition expand_batch {A} (T n_batch : nat) (rows : list A)
  : M (list (list A)) :=
  if (length rows =? T)%nat then mret (map (fun r => repeat r n_batch) rows)
  else match rows with
       | [r] => mret (repeat (repeat r n_batch) T)
       | _ => raise RuntimeError
       end.

Definition vsub (a b : vec) : vec := zip_with Qminus a b.
Definition dot (a b : vec) : Q := fold_right Qplus 0 (zip_with Qmult a b).
Definition mv (A : mat) (v : vec) : vec := map (fun row => dot row v) A.

(** Modelled from the spec: [util.bmv] (mpc/util.py is not in src), the
    batched matrix-vector product F_t·x_t of the residual formula. *)
Definition bmv (A : list mat) (v : list vec) : list vec := zip_with mv A v.

(** Python's builtin [max] over the entries of a 1-D tensor. *)
Definition pymax (l : list Q) : M Q :=
  match l with
  | [] => raise ValueError
  | a :: rest => mret (fold_left (fun m b => if Qlt_bool m b then b else m) rest a)
  end.

Definition mean (l : list Q) : Q :=
  fold_right Qplus 0 l / inject_Z (Z.of_nat (length l)).

Fixpoint foldM {A B} (step : A -> B -> M A) (l : list B) (a : A) : M A :=
  match l with
  | [] => mret a
  | b :: l' => a' ← step a b; foldM step l' a'
  end.

(** ** Collaborators *)

(** The user's dynamics: a function of one state and one control, applied
    to every row of a batch, together with its analytic Jacobians
    [grad_input]. *)
Record dynamics : Type := mkDynamics {
  dyn : vec -> vec -> vec;
  grad_input : vec -> vec -> mat * mat;
}.

Definition call_dynamics (d : dynamics) (x u : list vec) : list vec :=
  zip_with (dyn d) x u.

(** The cost arguments [C] and [c] of [forward], by rank. *)
Inductive quad_arg : Type :=
| C_4d (C : jacs)                (* [T, n_batch, n_tau, n_tau] *)
| C_3d (C : list mat)           (* [T, n_tau, n_tau] *)
| C_other (k : nat).            (* any other rank: k, or k+2 from 3 on *)

Inductive lin_arg : Type :=
| c_3d (c : traj)               (* [T, n_batch, n_tau] *)
| c_2d (c : list vec)           (* [T, n_tau] *)
| c_other (k : nat).            (* any other rank: k, or k+2 from 2 on *)

Definition C_ndimension (C : quad_arg) : nat :=
  match C with
  | C_4d _ => 4
  | C_3d _ => 3
  | C_other k => if (k <? 3)%nat then k else (k + 2)%nat
  end.

(** [C.size(1)] *)
Definition C_size1 (C : quad_arg) : nat :=
  match C with
  | C_4d Cm => size1 Cm
  | C_3d Cm => size1 Cm
  | C_other _ => 0%nat
  end.

Definition c_ndimension (c : lin_arg) : nat :=
  match c with
  | c_3d _ => 3
  | c_2d _ => 2
  | c_other k => if (k <? 2)%nat then k else (k + 2)%nat
  end.

(** The keyword arguments of [LQRStep]. *)
Record LQRStep : Type := mkLQRStep {
  lqr_n_state : nat;
  lqr_n_ctrl : nat;
  lqr_T : nat;
  lqr_u_lower : option bound;
  lqr_u_upper : option bound;
  lqr_u_zero_I : option (list (list (list bool)));
  true_dynamics : option dynamics;
  lqr_delta_u : option Q;
  lqr_linesearch_decay : Q;
  lqr_max_linesearch_iter : Z;
  delta_space : bool;
  current_x : traj;
  current_u : traj;
  lqr_back_eps : Q;
  no_op_forward : bool;
}.

Record for_out_t : Type := mkForOut {
  costs : list Q;
  full_du_norm : list Q;
  mean_alphas : Q;
}.

Record back_out_t : Type := mkBackOut {
  n_total_qp_iter : nat;
}.

(** What calling an [LQRStep] yields: the new trajectory, and the
    [for_out] and [back_out] attributes the call leaves on the object. *)
Record lqr_result : Type := mkLqrResult {
  lqr_x : traj;
  lqr_u : traj;
  for_out : for_out_t;
  back_out : back_out_t;
}.

(** Code of the package that [mpc.py] imports and that is not part of the
    embedded file, and the differentiation primitive of the array library. *)
Class Collaborators : Type := {
  (** [LQRStep(...)(x_init, C, c, F, f)]; [None] for [f] is the empty
      tensor the caller passes when there is no residual. *)
  LQRStep_call : LQRStep -> list vec -> quad_arg -> lin_arg ->
                 option jacs -> option traj -> lqr_result;
  (** [util.get_traj(T, u, x_init=, dynamics= | F=, f=)] *)
  get_traj : nat -> traj -> list vec -> option dynamics ->
             option jacs -> option traj -> traj;
  (** [util.get_cost(T, C, c, u, dynamics=, x_init=, F=, f=)] *)
  get_cost : nat -> quad_arg -> lin_arg -> traj -> option dynamics ->
             list vec -> option jacs -> option traj -> list Q;
  (** [util.jacobian(fn, x, eps)] *)
  jacobian : (vec -> vec) -> vec -> Q -> mat;
  (** [torch.autograd.grad(new_x[:,j].sum(), [xt, ut])] restricted to one
      batch row: the gradients of output [j] of the dynamics. *)
  autograd_grad : dynamics -> vec -> vec -> nat -> vec * vec;
  (** [CtrlPassthroughDynamics(dynamics)] *)
  CtrlPassthroughDynamics : dynamics -> dynamics;
}.

(** ** [MPC.solve_lqr_subproblem] *)

Section Solver.
Context `{Collaborators}.

(** Entry [(i, j)] of the blocks written into [_C]: [half_gamI] on the two
    diagonal corner blocks, [-half_gamI] on the two off-diagonal ones; the
    last [n_ctrl] rows and columns start at [hi]. *)
Definition slew_block (gam : Q) (n_ctrl hi i j : nat) : Q :=
  if (i <? n_ctrl)%nat then
    if (j <? n_ctrl)%nat then (if (i =? j)%nat then gam else 0)
    else if (hi <=? j)%nat then (if (i =? j - hi)%nat then - gam else 0)
    else 0
  else if (hi <=? i)%nat then
    if (j <? n_ctrl)%nat then (if (i - hi =? j)%nat then - gam else 0)
    else if (hi <=? j)%nat then (if (i =? j)%nat then gam else 0)
    else 0
  else 0.

(** Entry [(i, j)] of [ZeroPad2d((n_ctrl, 0, n_ctrl, 0))(C)[t, b]]. *)
Definition padded_C (n_ctrl : nat) (C : jacs) (t b i j : nat) : Q :=
  if (i <? n_ctrl)%nat || (j <? n_ctrl)%nat then 0
  else nth (j - n_ctrl) (nth (i - n_ctrl) (nth b (nth t C []) []) []) 0.

Definition slew_C (gam : Q) (n_ctrl _nsc T n_batch : nat) (C : jacs) : jacs :=
  map (fun t => map (fun b => map (fun i => map (fun j =>
    slew_block gam n_ctrl (_nsc - n_ctrl) i j + padded_C n_ctrl C t b i j)
    (seq 0 _nsc)) (seq 0 _nsc)) (seq 0 n_batch)) (seq 0 T).

Definition zeros (n : nat) : vec := repeat 0 n.

(** Row [i] of [torch.eye(n)]. *)
Definition eye_row (n i : nat) : vec :=
  map (fun j => if (i =? j)%nat then 1 else 0) (seq 0 n).

(** One [T-1, n_batch] entry of [_F]: the rows of [_F0] (zeros, then the
    identity on the control columns) above the rows of [_F1] (the rows of
    [F] behind [n_ctrl] zero columns). *)
Definition slew_F (n_state n_ctrl : nat) (Ftb : mat) : mat :=
  map (fun i => zeros (n_state + n_ctrl) ++ eye_row n_ctrl i) (seq 0 n_ctrl)
  ++ map (fun row => zeros n_ctrl ++ row) Ftb.

Definition solve_lqr_subproblem (self : MPC) (x_init : list vec)
    (C : quad_arg) (c : lin_arg) (F : option jacs) (f : option traj)
    (dynamics : option dynamics) (x u : traj) (no_op_forward : bool)
  : M lqr_result :=
  match slew_rate_penalty self with
  | None =>
      let _lqr := {|
        lqr_n_state := n_state self;
        lqr_n_ctrl := n_ctrl self;
        lqr_T := T self;
        lqr_u_lower := u_lower self;
        lqr_u_upper := u_upper self;
        lqr_u_zero_I := u_zero_I self;
        true_dynamics := dynamics;
        lqr_delta_u := delta_u self;
        lqr_linesearch_decay := linesearch_decay self;
        lqr_max_linesearch_iter := max_linesearch_iter self;
        delta_space := true;
        current_x := x;
        current_u := u;
        lqr_back_eps := back_eps self;
        no_op_forward := no_op_forward |} in
      mret (LQRStep_call _lqr x_init C c F f)
  | Some gam =>
      let nsc := (n_state self + n_ctrl self)%nat in
      let _n_state := nsc in
      let _nsc := (_n_state + n_ctrl self)%nat in
      (* The shapes built below are those of a rank-4 [C] and a rank-3
         [c]; any other rank is reported as a shape error. *)
      Cm ← match C with C_4d Cm => mret Cm | _ => raise RuntimeError end;
      let n_batch := size1 Cm in
      let _C := slew_C gam (n_ctrl self) _nsc (T self) n_batch Cm in
      cm ← match c with c_3d cm => mret cm | _ => raise RuntimeError end;
      let _c := map (map (fun v => zeros (n_ctrl self) ++ v)) cm in
      Fm ← match F with Some Fm => mret Fm | None => raise AttributeError end;
      let _F := map (map (slew_F (n_state self) (n_ctrl self))) Fm in
      let _f := match f with
                | Some fm => Some (map (map (fun v => zeros (n_ctrl self) ++ v)) fm)
                | None => None
                end in
      let u_data := u in
      let prev_u :=
        match prev_ctrl self with
        | Some (Prev1 p) => [[p]]
        | Some (Prev2 p) => [p]
        | Some (Prev3 p) => p
        | None => [repeat (zeros (n_ctrl self)) n_batch]
        end in
      let utm1s := prev_u ++ removelast u_data in
      let _x := zip_with (zip_with app) utm1s x in
      p0 ← getitem prev_u 0;
      let _x_init := zip_with app p0 x_init in
      _dynamics ← match dynamics with
                  | Some d => mret (CtrlPassthroughDynamics d)
                  | None => raise UnboundLocalError
                  end;
      let _lqr := {|
        lqr_n_state := _n_state;
        lqr_n_ctrl := n_ctrl self;
        lqr_T := T self;
        lqr_u_lower := u_lower self;
        lqr_u_upper := u_upper self;
        lqr_u_zero_I := u_zero_I self;
        true_dynamics := Some _dynamics;
        lqr_delta_u := delta_u self;
        lqr_linesearch_decay := linesearch_decay self;
        lqr_max_linesearch_iter := max_linesearch_iter self;
        delta_space := true;
        current_x := _x;
        current_u := u;
        lqr_back_eps := back_eps self;
        no_op_forward := no_op_forward |} in
      let r := LQRStep_call _lqr _x_init (C_4d _C) (c_3d _c) (Some _F) _f in
      mret {| lqr_x := map (map (drop (n_ctrl self))) (lqr_x r);
              lqr_u := lqr_u r;
              for_out := for_out r;
              back_out := back_out r |}
  end.

(** ** [MPC.linearize_dynamics] *)

(** [torch.cat((R, S), dim=-1)] on one pair of Jacobian blocks. *)
Definition cat_RS (R S : mat) : mat := zip_with app R S.

(** [new_x - util.bmv(R, x) - util.bmv(S, u)] on a batch. *)
Definition residual (new_x : list vec) (R S : list mat) (x u : list vec)
  : list vec :=
  zip_with vsub (zip_with vsub new_x (bmv R x)) (bmv S u).

(** [torch.max(torch.abs(A - B))] over a batch of matrices. *)
Definition max_abs_diff (A B : list mat) : Q :=
  fold_right Qmax 0
    (concat (concat (zip_with (zip_with (zip_with
       (fun a b => Qabs (a - b)))) A B))).

(** The [grad_method == ANALYTIC] branch, lines 393-422: the first [T-1]
    timesteps are flattened into one batch of rows of [n_state] and
    [n_ctrl] entries, and the results are viewed back as [T-1, n_batch]
    tensors. *)
Definition linearize_analytic (self : MPC) (x u : traj) (d : dynamics)
  : M (jacs * traj) :=
  x0 ← getitem x 0;
  let n_batch := length x0 in
  _u ← view_2d (n_ctrl self) (removelast u);
  _x ← view_2d (n_state self) (removelast x);
  let _new_x := call_dynamics d _x _u in
  let RS := zip_with (grad_input d) _x _u in
  let R := RS.*1 in
  let S := RS.*2 in
  let f := residual _new_x R S _x _u in
  f ← view_3d (T self - 1) n_batch (n_state self) f;
  R ← view_4d (T self - 1) n_batch (n_state self) (n_state self) R;
  S ← view_4d (T self - 1) n_batch (n_state self) (n_ctrl self) S;
  mret (zip_with (zip_with cat_RS) R S, f).

(** The Jacobian blocks [Rt, St] of one timestep in the other branch. *)
Definition timestep_jacobians (self : MPC) (d : dynamics) (n_batch : nat)
    (xt ut : list vec) : M (list mat * list mat) :=
  match grad_method self with
  | AUTO_DIFF | ANALYTIC_CHECK =>
      let Rcols := map (fun j =>
        zip_with (fun x u => fst (autograd_grad d x u j)) xt ut)
        (seq 0 (n_state self)) in
      let Scols := map (fun j =>
        zip_with (fun x u => snd (autograd_grad d x u j)) xt ut)
        (seq 0 (n_state self)) in
      Rt ← stack_dim1 Rcols;
      St ← stack_dim1 Scols;
      match grad_method self with
      | ANALYTIC_CHECK =>
          _ ← assert_ false "";                  (* Not updated *)
          let Rt_autograd := Rt in
          let St_autograd := St in
          let RS := zip_with (grad_input d) xt ut in
          let Rt := RS.*1 in
          let St := RS.*2 in
          let eps := 1 # 100000000 in
          _ ← (if Qlt_bool eps (max_abs_diff Rt Rt_autograd)
                  || Qlt_bool eps (max_abs_diff St St_autograd)
               then print (Print "nmpc.ANALYTIC_CHECK error: The analytic derivative of the dynamics function may be off.")
               else print (Print "nmpc.ANALYTIC_CHECK: The analytic derivative of the dynamics function seems correct. Re-run with GradMethods.ANALYTIC to continue."));
          raise (SystemExit 0)
      | _ => mret (Rt, St)
      end
  | FINITE_DIFF =>
      RS ← foldM (fun acc i =>
              xi ← getitem xt i;
              ui ← getitem ut i;
              let Ri := jacobian (fun s => dyn d s ui) xi (1 # 10000) in
              let Si := jacobian (fun a => dyn d xi a) ui (1 # 10000) in
              mret (acc ++ [(Ri, Si)]))
            (seq 0 n_batch) [];
      Rt ← stack (RS.*1);
      St ← stack (RS.*2);
      mret (Rt, St)
  | ANALYTIC => _ ← assert_ false ""; mret ([], [])
  end.

(** One pass of [for t in range(self.T)]: the running list [x] of states
    and the lists [F], [f] collected so far. *)
Definition linearize_timestep (self : MPC) (u : traj) (d : dynamics)
    (n_batch : nat) (acc : list (list vec) * jacs * traj) (t : nat)
  : M (list (list vec) * jacs * traj) :=
  let '(x, F, f) := acc in
  if (t <? T self - 1)%nat then
    xt ← getitem x t;
    ut ← getitem u t;
    let new_x := call_dynamics d xt ut in
    '(Rt, St) ← timestep_jacobians self d n_batch xt ut;
    let Ft := zip_with cat_RS Rt St in
    let ft := residual new_x Rt St xt ut in
    mret (x ++ [new_x], F ++ [Ft], f ++ [ft])
  else mret acc.

Definition linearize_dynamics (self : MPC) (x u : traj) (d : dynamics)
    (diff : bool) : M (jacs * traj) :=
  x0 ← getitem x 0;
  let n_batch := length x0 in
  match grad_method self with
  | ANALYTIC => linearize_analytic self x u d
  | _ =>
      let x_init := x0 in
      '(_, F, f) ← foldM (linearize_timestep self u d n_batch)
                     (seq 0 (T self)) ([x_init], [], []);
      F ← stack F;
      f ← stack f;
      mret (F, f)
  end.

(** ** [MPC.forward] *)

(** The dictionary [best]: per batch element the slices of the best
    trajectory, its cost and its full control-step norm. *)
Record best_t : Type := mkBest {
  best_x : list traj;
  best_u : list traj;
  best_costs : list Q;
  best_full_du_norm : list Q;
}.

(** The output of the last [LQRStep] call, attached to the graph. *)
Definition attach (x : traj) : gtraj :=
  map (map (map (fun q => {| val := q; grad := 1 |}))) x.

(** [x*Ix + x.clone().detach()*(1.-Ix)] on one entry, [m] the entry of
    the mask as a float. *)
Definition mask_entry (m : Q) (g : gvar) : gvar :=
  {| val := val g * m + val g * (1 - m);
     grad := grad g * m + 0 |}.

Definition float_of_bool (b : bool) : Q := if b then 1 else 0.

(** [I.unsqueeze(0).unsqueeze(2).expand_as(x)]: the mask of batch element
    [b] at every timestep and coordinate; a mask of length one is
    broadcast. *)
Definition expand_as (I : list bool) (x : gtraj) : M (list bool) :=
  if (length I =? size1 x)%nat then mret I
  else match I with
       | [i] => mret (repeat i (size1 x))
       | _ => raise RuntimeError
       end.

Definition apply_mask (I : list bool) (x : gtraj) : gtraj :=
  map (fun row => zip_with (fun i v => map (mask_entry (float_of_bool i)) v) I row) x.

(** What one pass of the outer loop leaves behind; kept as a history of
    the run, the program itself only holds the latest values. *)
Record iter_info : Type := mkIter {
  it_for_out : for_out_t;
  it_n_not_improved : Z;
  it_best : best_t;
}.

(** The variables the loop [for i in range(self.lqr_iter)] carries. *)
Record loop_state : Type := mkLoop {
  ls_u : traj;
  ls_F : option jacs;
  ls_f : option traj;
  ls_best : option best_t;
  ls_n_not_improved : Z;
  ls_for_out : option for_out_t;
  ls_history : list iter_info;
}.

(** Lines 159-164. *)
Definition infer_n_batch (self : MPC) (C : quad_arg) : M nat :=
  if (C_ndimension C =? 4)%nat then mret (C_size1 C)
  else match n_batch self with
       | Some n => mret n
       | None => raise (AssertionError "Could not infer batch size, pass in as n_batch")
       end.

(** [expand] along a dimension that is not the leading one. *)
Definition expand_dim {A} (n : nat) (rows : list A) : M (list A) :=
  if (length rows =? n)%nat then mret rows
  else match rows with
       | [r] => mret (repeat r n)
       | _ => raise RuntimeError
       end.

Fixpoint mapM {A B} (fn : A -> M B) (l : list A) : M (list B) :=
  match l with
  | [] => mret []
  | a :: l' => b ← fn a; bs ← mapM fn l'; mret (b :: bs)
  end.

(** The body of [for j in range(n_batch)], lines 224-229. *)
Definition track_best_element (self : MPC) (x u : traj) (fo : for_out_t)
    (acc : best_t * Z) (j : nat) : M (best_t * Z) :=
  let '(best, n_not_improved) := acc in
  cj ← getitem (costs fo) j;
  bj ← getitem (best_costs best) j;
  if Qle_bool cj (bj - best_cost_eps self) then
    let n_not_improved := 0%Z in
    xj ← select_batch x j;
    bx ← setitem (best_x best) j (unsqueeze1 xj);
    uj ← select_batch u j;
    bu ← setitem (best_u best) j (unsqueeze1 uj);
    cj ← getitem (costs fo) j;
    bc ← setitem (best_costs best) j cj;
    nj ← getitem (full_du_norm fo) j;
    bn ← setitem (best_full_du_norm best) j nj;
    mret ({| best_x := bx; best_u := bu; best_costs := bc;
             best_full_du_norm := bn |}, n_not_improved)
  else mret acc.

(** Lines 215-229. *)
Definition track_best (self : MPC) (n_batch : nat) (x u : traj)
    (fo : for_out_t) (best : option best_t) (n_not_improved : Z)
  : M (best_t * Z) :=
  match best with
  | None =>
      mret ({| best_x := split_batch x; best_u := split_batch u;
               best_costs := costs fo;
               best_full_du_norm := full_du_norm fo |}, n_not_improved)
  | Some best =>
      foldM (track_best_element self x u fo) (seq 0 n_batch)
            (best, n_not_improved)
  end.

(** The test of lines 243-244. *)
Definition stop_test (self : MPC) (fo : for_out_t) (n_not_improved : Z)
  : M bool :=
  m ← pymax (full_du_norm fo);
  mret (Qlt_bool m (eps self) || (not_improved_lim self <? n_not_improved)%Z).

(** One pass of the loop body, lines 194-245; the boolean tells whether
    the pass ends in [break]. *)
Definition loop_body (self : MPC) (C : quad_arg) (c : lin_arg)
    (dynamics : option dynamics) (n_batch : nat) (st : loop_state)
  : M (loop_state * bool) :=
  let x_init := x_init self in
  let u := ls_u st in
  '(x, F, f) ← match dynamics with
     | Some d =>
         (* [get_traj] followed by [torch.stack(x, 0)] *)
         let x := get_traj (T self) u x_init (Some d) None None in
         '(F, f) ← linearize_dynamics self x u d false;
         mret (x, Some F, Some f)
     | None =>
         mret (get_traj (T self) u x_init None (ls_F st) (ls_f st),
               ls_F st, ls_f st)
     end;
  _lqr ← solve_lqr_subproblem self x_init C c F f dynamics x u false;
  let x := lqr_x _lqr in
  let u := lqr_u _lqr in
  let n_not_improved := (ls_n_not_improved st + 1)%Z in
  '(best, n_not_improved) ←
     track_best self n_batch x u (for_out _lqr) (ls_best st) n_not_improved;
  _ ← (if (0 <? verbose self)%Z then
         m ← pymax (full_du_norm (for_out _lqr));
         print (TableLog (length (ls_history st)) (mean (best_costs best)) m
                  (mean_alphas (for_out _lqr))
                  (n_total_qp_iter (back_out _lqr)))
       else mret tt);
  brk ← stop_test self (for_out _lqr) n_not_improved;
  mret ({| ls_u := u; ls_F := F; ls_f := f; ls_best := Some best;
           ls_n_not_improved := n_not_improved;
           ls_for_out := Some (for_out _lqr);
           ls_history := ls_history st ++
             [{| it_for_out := for_out _lqr;
                 it_n_not_improved := n_not_improved;
                 it_best := best |}] |}, brk).

(** [for i in range(n): ...] with [break]. *)
Fixpoint outer_loop (self : MPC) (C : quad_arg) (c : lin_arg)
    (dynamics : option dynamics) (n_batch : nat) (n : nat) (st : loop_state)
  : M loop_state :=
  match n with
  | O => mret st
  | S n' =>
      '(st', brk) ← loop_body self C c dynamics n_batch st;
      if brk : bool then mret st'
      else outer_loop self C c dynamics n_batch n' st'
  end.

(** Lines 257-270. *)
Definition detach_stage (self : MPC) (best : best_t)
    (last_for_out : option for_out_t) (x u : gtraj) : M (gtraj * gtraj) :=
  if detach_unconverged self then
    m ← pymax (best_full_du_norm best);
    if Qlt_bool (eps self) m then
      _ ← (if exit_unconverged self then assert_ false "" else mret tt);
      _ ← (if (0 <=? verbose self)%Z then
             _ ← print (Print "LQR Warning: All examples did not converge to a fixed point.");
             print (Print "Detaching and *not* backpropping through the bad examples.")
           else mret tt);
      fo ← match last_for_out with
           | Some fo => mret fo
           | None => raise UnboundLocalError
           end;
      let I := map (fun n => Qlt_bool n (eps self)) (full_du_norm fo) in
      Ix ← expand_as I x;
      Iu ← expand_as I u;
      mret (apply_mask Ix x, apply_mask Iu u)
    else mret (x, u)
  else mret (x, u).

(** Lines 247-273. *)
Definition finish (self : MPC) (C : quad_arg) (c : lin_arg)
    (dynamics : option dynamics) (st : loop_state)
  : M (gtraj * gtraj * list Q) :=
  best ← match ls_best st with
         | Some b => mret b
         | None => raise TypeError
         end;
  x ← cat_dim1 (best_x best);
  u ← cat_dim1 (best_u best);
  '(F, f) ← match dynamics with
     | Some d =>
         '(F, f) ← linearize_dynamics self x u d true;
         mret (Some F, Some f)
     | None => mret (ls_F st, ls_f st)
     end;
  _lqr ← solve_lqr_subproblem self (x_init self) C c F f dynamics x u true;
  '(x, u) ← detach_stage self best (ls_for_out st)
              (attach (lqr_x _lqr)) (attach (lqr_u _lqr));
  let costs := best_costs best in
  mret (x, u, costs).

(** The loop variables at line 193, before the first pass. *)
Definition initial_state (self : MPC) (u : traj) : loop_state :=
  {| ls_u := u; ls_F := F self; ls_f := f self; ls_best := None;
     ls_n_not_improved := 0; ls_for_out := None; ls_history := [] |}.

(** Lines 166-273: the solve once the batch size is known. *)
Definition solve_with_batch (self : MPC) (C : quad_arg) (c : lin_arg)
    (dynamics : option dynamics) (n_batch : nat)
  : M (gtraj * gtraj * list Q) :=
  C ← match C with
      | C_3d Cm =>
          Cm ← mapM (expand_dim (n_state self + n_ctrl self)) Cm;
          Cm ← expand_batch (T self) n_batch Cm;
          mret (C_4d Cm)
      | _ => mret C
      end;
  c ← match c with
      | c_2d cm => cm ← expand_batch (T self) n_batch cm; mret (c_3d cm)
      | _ => mret c
      end;
  _ ← assert_ (length (x_init self) =? n_batch)%nat "";
  u ← match u_init self with
      | None => mret (repeat (repeat (zeros (n_ctrl self)) n_batch) (T self))
      | Some (UInit3 u) => mret u
      | Some (UInit2 u) => expand_batch (T self) n_batch u
      end;
  _ ← (if (0 <? verbose self)%Z then
         print (PrintInitialCost (mean
           (get_cost (T self) C c u dynamics (x_init self) (F self) (f self))))
       else mret tt);
  st ← outer_loop self C c dynamics n_batch (lqr_iter self)
         (initial_state self u);
  finish self C c dynamics st.

Definition forward (self : MPC) (C : quad_arg) (c : lin_arg)
    (dynamics : option dynamics) : M (gtraj * gtraj * list Q) :=
  n_batch ← infer_n_batch self C;
  solve_with_batch self C c dynamics n_batch.

End Solver.

(** ** The forward phase of the LQR step *)

(** Entry [(t, b, d)] of a box bound; the statements read a tensor bound
    only at the indices of the control sequence, which it has to cover
    ([bound_covers]). *)
Definition bound_at (bd : bound) (t b d : nat) : Q :=
  match bd with
  | BFloat q => q
  | BTensor tb => nth d (nth b (nth t tb []) []) 0
  end.

(** Modelled from the spec: clipping a control into the box (the LQR step,
    mpc/lqr_step.py, is not in src). *)
Definition clip (lo hi v : Q) : Q := Qmin (Qmax v lo) hi.

(** The gain sequence of the backward recursion: feedback gains [K_t]
    and feedforward terms [k_t], per timestep and batch element. *)
Record gains_t : Type := mkGains {
  K_gain : jacs;
  k_gain : traj;
}.

(** Modelled from the spec: the box of the forward clip at one entry.
    With a "per-iteration max control change" ([delta_u], in the words of
    mpc.py "the amount each component of the controls is allowed to change
    in each LQR iteration") the box is narrowed to the controls within
    [delta_u] of the nominal control [ut]. *)
Definition narrowed (delta_u : option Q) (ut lo hi : Q) : Q * Q :=
  match delta_u with
  | Some du => (Qmax (ut - du) lo, Qmin (ut + du) hi)
  | None => (lo, hi)
  end.

(** Modelled from the spec: whether the configured "always-zero" index
    set holds entry [(t, b, d)]. *)
Definition zeroed (cfg : LQRStep) (t b d : nat) : bool :=
  match lqr_u_zero_I cfg with
  | Some zero_I => nth d (nth b (nth t zero_I []) []) false
  | None => false
  end.

(** Modelled from the spec: the control update of the forward phase at
    timestep [t] for batch element [b], "using the feedback gain and
    feedforward term scaled by a line-search step size alpha, clipped into
    the box", around the nominal point [current_x], [current_u]; the
    always-zero dimensions are held at zero before the clip. *)
Definition control_update (cfg : LQRStep) (g : gains_t) (alpha : Q)
    (t b : nat) (new_xt : vec) : vec :=
  let xt := nth b (nth t (current_x cfg) []) [] in
  let ut := nth b (nth t (current_u cfg) []) [] in
  let dxt := vsub new_xt xt in
  let Kt := nth b (nth t (K_gain g) []) [] in
  let kt := nth b (nth t (k_gain g) []) [] in
  map (fun d =>
         let new_ut := nth d (mv Kt dxt) 0 + nth d ut 0 + alpha * nth d kt 0 in
         let new_ut := if zeroed cfg t b d then 0 else new_ut in
         match lqr_u_lower cfg, lqr_u_upper cfg with
         | Some lo, Some hi =>
             let box := narrowed (lqr_delta_u cfg) (nth d ut 0)
                                 (bound_at lo t b d) (bound_at hi t b d) in
             clip (fst box) (snd box) new_ut
         | _, _ => new_ut
         end)
      (seq 0 (lqr_n_ctrl cfg)).

(** Modelled from the spec: "roll the dynamics (true nonlinear dynamics if
    available, else the affine approximation) forward". *)
Definition next_state (cfg : LQRStep) (F : option jacs) (f : option traj)
    (t b : nat) (x u : vec) : vec :=
  match true_dynamics cfg with
  | Some d => dyn d x u
  | None =>
      let Ft := nth b (nth t (default [] F) []) [] in
      let ft := nth b (nth t (default [] f) []) (zeros (length x)) in
      zip_with Qplus (mv Ft (x ++ u)) ft
  end.

(** Modelled from the spec: the forward rollout from [x_0] over [steps]
    timesteps starting at timestep [t]; [alphas] holds the step size of
    every batch element. *)
Fixpoint rollout (cfg : LQRStep) (F : option jacs) (f : option traj)
    (g : gains_t) (alphas : list Q) (steps t : nat) (xt : list vec)
  : traj * traj :=
  match steps with
  | O => ([], [])
  | S steps' =>
      let ut := imap (fun b xb => control_update cfg g (nth b alphas 1) t b xb) xt in
      let xn := imap (fun b xb => next_state cfg F f t b xb (nth b ut [])) xt in
      let '(xs, us) := rollout cfg F f g alphas steps' (S t) xn in
      (xt :: xs, ut :: us)
  end.

(** Modelled from the spec: the parts of the LQR step that the rollout
    takes as given, whatever they compute: the backward recursion, the
    line search that settles the step sizes, and the costs and step norms
    reported for the rolled-out trajectory. *)
Record lqr_phases : Type := mkPhases {
  backward_pass : LQRStep -> list vec -> quad_arg -> lin_arg ->
                  option jacs -> option traj -> gains_t * back_out_t;
  line_search : LQRStep -> list vec -> quad_arg -> lin_arg ->
                option jacs -> option traj -> gains_t -> list Q;
  forward_stats : LQRStep -> quad_arg -> lin_arg -> gains_t -> list Q ->
                  traj * traj -> for_out_t;
}.

(** Modelled from the spec: one call of the LQR step, "Backward (Riccati
    recursion ...) then Forward (rollout with line search ...)"; in the
    "no-op forward" mode of the final differentiable pass the forward
    phase is skipped and the step returns the nominal trajectory it was
    given. *)
Definition LQRStep_spec (ph : lqr_phases) (cfg : LQRStep) (x_init : list vec)
    (C : quad_arg) (c : lin_arg) (F : option jacs) (f : option traj)
  : lqr_result :=
  let '(g, bo) := backward_pass ph cfg x_init C c F f in
  let alphas := line_search ph cfg x_init C c F f g in
  let xu := if no_op_forward cfg then (current_x cfg, current_u cfg)
            else rollout cfg F f g alphas (lqr_T cfg) 0 x_init in
  {| lqr_x := fst xu; lqr_u := snd xu;
     for_out := forward_stats ph cfg C c g alphas xu;
     back_out := bo |}.

(** Entry [(t, b, d)] of a returned tensor. *)
Definition entry {A} (x : list (list (list A))) (t b d : nat) : option A :=
  row ← x !! t; v ← row !! b; v !! d.

(** ** A small instance

    One state, one control: the integrator [x' = x + u], an LQR step
    that replays a table of reported costs and step norms (the position
    in the table is read off the nominal control, which every call
    advances by one), and the matching trivial collaborators. *)

Definition integrator : dynamics :=
  {| dyn := fun x u => zip_with Qplus x u;
     grad_input := fun x u => ([[1]], [[1]]) |}.

(** The affine map [x' = 2 x + 3 u + 1] on one state and one control. *)
Definition affine_dynamics : dynamics :=
  {| dyn := fun x u => [2 * nth 0 x 0 + 3 * nth 0 u 0 + 1];
     grad_input := fun x u => ([[2]], [[3]]) |}.

Definition table_lqr (table : list for_out_t) (cfg : LQRStep)
    (x_init : list vec) (C : quad_arg) (c : lin_arg) (F : option jacs)
    (f : option traj) : lqr_result :=
  let k := Z.to_nat (Qfloor (nth 0 (nth 0 (nth 0 (current_u cfg) []) []) 0)) in
  {| lqr_x := current_x cfg;
     lqr_u := map (map (map (fun q => q + 1))) (current_u cfg);
     for_out := nth k table (mkForOut [] [] 0);
     back_out := mkBackOut k |}.

(** Forward differences with step [h]. *)
Definition forward_difference (fn : vec -> vec) (x : vec) (h : Q) : mat :=
  map (fun i => map (fun k =>
         (nth i (fn (<[k := nth k x 0 + h]> x)) 0 - nth i (fn x) 0) / h)
       (seq 0 (length x)))
      (seq 0 (length (fn x))).

Definition table_collaborators (table : list for_out_t) : Collaborators :=
  {| LQRStep_call := table_lqr table;
     get_traj := fun T u x_init _ _ _ => repeat x_init T;
     get_cost := fun _ _ _ _ _ x_init _ _ => map (fun _ => 0) x_init;
     jacobian := forward_difference;
     autograd_grad := fun d x u j => (eye_row (length x) j, eye_row (length u) j);
     CtrlPassthroughDynamics := fun d => d |}.

(** A solver for one state and one control over a horizon of two steps
    and a batch of [B] problems starting at zero; the options that the
    examples vary are arguments, the others keep the constructor defaults. *)
Definition small_MPC (B : nat) (bounds : option (bound * bound))
    (lqr_iter : nat) (grad_method : GradMethods) (verbose : Z) (eps : Q)
    (n_batch : option nat) (exit_unconverged detach_unconverged : bool)
    (not_improved_lim : Z) (best_cost_eps : Q) : MPC :=
  {| n_state := 1; n_ctrl := 1; T := 2; x_init := repeat [0] B;
     u_lower := fst <$> bounds; u_upper := snd <$> bounds;
     u_zero_I := None; u_init := None;
     lqr_iter := lqr_iter; grad_method := grad_method; delta_u := None;
     verbose := verbose; eps := eps; back_eps := 1 # 10000000;
     n_batch := n_batch; linesearch_decay := 2 # 10;
     max_linesearch_iter := 10; exit_unconverged := exit_unconverged;
     detach_unconverged := detach_unconverged; backprop := true;
     F := None; f := None; slew_rate_penalty := None; prev_ctrl := None;
     not_improved_lim := not_improved_lim; best_cost_eps := best_cost_eps |}.

(** Four passes: no element improves in the second pass on the second
    element, the third pass improves the second element only, the fourth
    brings every step norm to zero. *)
Definition four_passes : list for_out_t :=
  [mkForOut [5; 5] [1; 1] 1; mkForOut [4; 6] [1; 1] 1;
   mkForOut [4; 2] [1; 0] 1; mkForOut [1; 1] [0; 0] 1].

Definition zero_u : traj := [[[0]; [0]]; [[0]; [0]]].

Definition unit_C : jacs := [[[[1; 0]; [0; 1]]; [[1; 0]; [0; 1]]];
                             [[[1; 0]; [0; 1]]; [[1; 0]; [0; 1]]]].
Definition unit_C1 : jacs := [[[[1; 0]; [0; 1]]]; [[[1; 0]; [0; 1]]]].
Definition zero_c : list vec := [[0; 0]; [0; 0]].

(** Phases for the rollout: no feedback, a feedforward term that pushes
    the first element up by 5 and the second down by 7 at every timestep,
    unit step sizes, and a step norm of zero. *)
Definition pushing_phases : lqr_phases :=
  {| backward_pass := fun _ _ _ _ _ _ =>
       (mkGains [] [[[5]; [-7]]; [[5]; [-7]]], mkBackOut 0);
     line_search := fun _ _ _ _ _ _ _ => [1; 1];
     forward_stats := fun _ _ _ _ _ _ => mkForOut [1; 1] [0; 0] 1 |}.

(** Collaborators whose LQR step is the modelled one. *)
Definition rollout_collaborators (ph : lqr_phases) : Collaborators :=
  {| LQRStep_call := LQRStep_spec ph;
     get_traj := fun T u x_init _ _ _ => repeat x_init T;
     get_cost := fun _ _ _ _ _ x_init _ _ => map (fun _ => 0) x_init;
     jacobian := forward_difference;
     autograd_grad := fun d x u j => (eye_row (length x) j, eye_row (length u) j);
     CtrlPassthroughDynamics := fun d => d |}.

(** The linearization [F] of the integrator for a horizon of two steps
    and a batch of two, and the solver of [small_MPC] for that batch with
    [F] supplied, box bounds, a limit [delta_u] on the change per
    iteration, and unconverged elements tolerated. *)
Definition integrator_F : jacs := [[[[1; 1]]; [[1; 1]]]].

Definition boxed_MPC (lo hi : bound) (delta_u : option Q) (lqr_iter : nat)
  : MPC :=
  {| n_state := 1; n_ctrl := 1; T := 2; x_init := [[0]; [0]];
     u_lower := Some lo; u_upper := Some hi;
     u_zero_I := None; u_init := None;
     lqr_iter := lqr_iter; grad_method := ANALYTIC; delta_u := delta_u;
     verbose := 0; eps := 1 # 10; back_eps := 1 # 10000000;
     n_batch := None; linesearch_decay := 2 # 10;
     max_linesearch_iter := 10; exit_unconverged := false;
     detach_unconverged := true; backprop := true;
     F := Some integrator_F; f := None; slew_rate_penalty := None;
     prev_ctrl := None; not_improved_lim := 5; best_cost_eps := 1 # 10 |}.

(** The solver of [small_MPC] for a batch of two that starts at state 1,
    with [F] supplied; and the reports of two passes in which only the
    second element improves by the margin while every step norm falls
    below [eps = 1/10]. *)
Definition linear_MPC (lqr_iter : nat)
    (exit_unconverged detach_unconverged : bool) : MPC :=
  {| n_state := 1; n_ctrl := 1; T := 2; x_init := [[1]; [1]];
     u_lower := None; u_upper := None; u_zero_I := None; u_init := None;
     lqr_iter := lqr_iter; grad_method := ANALYTIC; delta_u := None;
     verbose := 0; eps := 1 # 10; back_eps := 1 # 10000000;
     n_batch := None; linesearch_decay := 2 # 10;
     max_linesearch_iter := 10; exit_unconverged := exit_unconverged;
     detach_unconverged := detach_unconverged; backprop := true;
     F := Some integrator_F; f := None; slew_rate_penalty := None;
     prev_ctrl := None; not_improved_lim := 5; best_cost_eps := 1 # 10 |}.

Definition settling_passes : list for_out_t :=
  [mkForOut [5; 5] [1; 1] 1; mkForOut [99 # 20; 2] [1 # 100; 1 # 100] 1].

(** Phases for the rollout that raise every control by one in each pass
    and report the entries of a table, pass by pass (the position in the
    table is read off the nominal control). *)
Definition reporting_phases (table : list for_out_t) : lqr_phases :=
  {| backward_pass := fun _ _ _ _ _ _ =>
       (mkGains [] [[[1]; [1]]; [[1]; [1]]], mkBackOut 0);
     line_search := fun _ _ _ _ _ _ _ => [1; 1];
     forward_stats := fun cfg _ _ _ _ _ =>
       nth (Z.to_nat (Qfloor (nth 0 (nth 0 (nth 0 (current_u cfg) []) []) 0)))
           table (mkForOut [] [] 0) |}.

(** ** Vocabulary of the statements *)

(** [f(x, u) - R·x - S·u] for one batch element. *)
Definition point_residual (d : dynamics) (RS : mat * mat) (x u : vec) : vec :=
  vsub (vsub (dyn d x u) (mv (fst RS) x)) (mv (snd RS) u).

Section Vocabulary.
Context `{Collaborators}.

(** The Jacobian blocks [(R, S)] of the dynamics at one state and one
    control, as the configured strategy computes them. *)
Definition strategy_jacobian (self : MPC) (d : dynamics) (x u : vec)
  : mat * mat :=
  match grad_method self with
  | ANALYTIC => grad_input d x u
  | FINITE_DIFF =>
      (jacobian (fun s => dyn d s u) x (1 # 10000),
       jacobian (fun a => dyn d x a) u (1 # 10000))
  | AUTO_DIFF | ANALYTIC_CHECK =>
      (map (fun j => fst (autograd_grad d x u j)) (seq 0 (n_state self)),
       map (fun j => snd (autograd_grad d x u j)) (seq 0 (n_state self)))
  end.

(** The two strategies' common result: entry [(t, b)] of [F] and [f]
    computed from entry [(t, b)] of the first [T-1] states and controls. *)
Definition linearized (self : MPC) (d : dynamics) (x u : traj) : jacs * traj :=
  (zip_with (zip_with (fun xb ub =>
      cat_RS (fst (strategy_jacobian self d xb ub))
             (snd (strategy_jacobian self d xb ub)))) x u,
   zip_with (zip_with (fun xb ub =>
      point_residual d (strategy_jacobian self d xb ub) xb ub)) x u).

End Vocabulary.

(** A box bound given as a tensor has an entry at every index of a
    [T, B, n] control sequence. *)
Definition bound_covers (bd : bound) (T B n : nat) : Prop :=
  match bd with
  | BFloat _ => True
  | BTensor tb =>
      forall t b d, (t < T)%nat -> (b < B)%nat -> (d < n)%nat ->
        is_Some (entry tb t b d)
  end.

(** The control sequence the first pass starts from, lines 174-180. *)
Definition initial_controls (self : MPC) (n_batch : nat) : M traj :=
  match u_init self with
  | None => mret (repeat (repeat (zeros (n_ctrl self)) n_batch) (T self))
  | Some (UInit3 u) => mret u
  | Some (UInit2 u) => expand_batch (T self) n_batch u
  end.

(** Every control [v] of a sequence, that of batch element [j] at
    timestep [t], satisfies [P t j v], in rows of exactly [m] controls. *)
Definition boxed (P : nat -> nat -> vec -> Prop) (m : nat) (u : traj) : Prop :=
  forall t row, u !! t = Some row ->
    length row = m /\ forall j v, row !! j = Some v -> P t j v.

(** The same for the per-element slices of the best record: slice [j]
    holds at every timestep the one control of batch element [j]. *)
Definition slices_boxed (P : nat -> nat -> vec -> Prop) (slices : list traj)
  : Prop :=
  forall j s t row, slices !! j = Some s -> s !! t = Some row ->
    exists v, row = [v] /\ P t j v.

(** A control of [n] entries within the box bounds at [(t, j)]. *)
Definition control_in_box (n : nat) (lo hi : bound) (t j : nat) (v : vec)
  : Prop :=
  length v = n /\
  forall d e, v !! d = Some e -> bound_at lo t j d <= e <= bound_at hi t j d.

(** With a limit [delta_u] on the change per iteration: the limit is not
    negative and every entry of the [T, B, n] control sequence [u] is
    within the limit of the box. *)
Definition within_reach (delta_u : option Q) (T B n : nat) (lo hi : bound)
    (u : traj) : Prop :=
  forall du, delta_u = Some du ->
    0 <= du /\
    forall t b d, (t < T)%nat -> (b < B)%nat -> (d < n)%nat ->
      exists v, entry u t b d = Some v /\
                bound_at lo t b d - du <= v <= bound_at hi t b d + du.

(** The full control-step norms in the best record that a run of the
    loop leaves behind. *)
Definition recorded_norms (run : M loop_state) : option (list Q) :=
  match run with
  | (_, Ok st) => best_full_du_norm <$> ls_best st
  | (_, Raise _) => None
  end.

(** The sum [g 0 + ... + g (n - 1)]. *)
Fixpoint sum_upto (g : nat -> Q) (n : nat) : Q :=
  match n with
  | O => 0
  | S n' => sum_upto g n' + g n'
  end.

(** The residual of the linearization written out, coordinate by
    coordinate: [f(x, u)_i - sum_k R_ik x_k - sum_k S_ik u_k], the blocks
    [R] and [S] being the first [length x] and the next [length u]
    columns of [F_tb]. *)
Definition taylor_remainder (fxu : vec) (Ftb : mat) (x u : vec) (i : nat) : Q :=
  nth i fxu 0
  - sum_upto (fun k => nth k (nth i Ftb []) 0 * nth k x 0) (length x)
  - sum_upto (fun k => nth (length x + k) (nth i Ftb []) 0 * nth k u 0)
             (length u).

(** [Ftb] is the [n] by [n + m] matrix that holds [R] in its first [n]
    columns and [S] in the [m] columns after them. *)
Definition side_by_side (n m : nat) (R S Ftb : mat) : Prop :=
  length Ftb = n /\
  forall i, (i < n)%nat ->
    length (nth i Ftb []) = (n + m)%nat /\
    (forall k, (k < n)%nat ->
       nth k (nth i Ftb []) 0 = nth k (nth i R []) 0) /\
    (forall k, (k < m)%nat ->
       nth (n + k) (nth i Ftb []) 0 = nth k (nth i S []) 0).

(** Jacobian blocks of the shapes [n, n] and [n, m]. *)
Definition jacobian_shaped (n m : nat) (RS : mat * mat) : Prop :=
  length (fst RS) = n /\ Forall (fun r => length r = n) (fst RS) /\
  length (snd RS) = n /\ Forall (fun r => length r = m) (snd RS).

(** A [T, B, ...] tensor. *)
Definition well_shaped {A} (T B : nat) (x : list (list A)) : Prop :=
  length x = T /\ Forall (fun row => length row = B) x.

(** [x] is the trajectory of the dynamics under the controls [u]. *)
Definition is_rollout (d : dynamics) (x u : traj) : Prop :=
  forall t xt ut, x !! t = Some xt -> u !! t = Some ut ->
    (S t < length x)%nat -> x !! S t = Some (call_dynamics d xt ut).

(** Entry [(t, b)] of a [T, B, ...] tensor. *)
Definition at_tb {A} (x : list (list A)) (t b : nat) : option A :=
  row ← x !! t; row !! b.

(** The test of line 224 for batch element [j]. *)
Definition improves (self : MPC) (fo : for_out_t) (best : best_t) (j : nat)
  : bool :=
  match costs fo !! j, best_costs best !! j with
  | Some cj, Some bj => Qle_bool cj (bj - best_cost_eps self)
  | _, _ => false
  end.

(** What [best] holds for batch element [j]. *)
Definition best_at (best : best_t) (j : nat)
  : option traj * option traj * option Q * option Q :=
  (best_x best !! j, best_u best !! j, best_costs best !! j,
   best_full_du_norm best !! j).

(** What the iterate [(x, u)] with outputs [fo] holds for element [j]. *)
Definition iterate_at (x u : traj) (fo : for_out_t) (j : nat)
  : option traj * option traj * option Q * option Q :=
  (Some (unsqueeze1 (map (fun row => nth j row []) x)),
   Some (unsqueeze1 (map (fun row => nth j row []) u)),
   costs fo !! j, full_du_norm fo !! j).


(** One pass never raises the recorded best cost of an element: it keeps
    the entry, or overwrites it with the cost of the iterate, lower by at
    least [best_cost_eps]. *)
Definition cost_step (self : MPC) (before : best_t) (after : iter_info)
  : Prop :=
  length (best_costs (it_best after)) = length (best_costs before) /\
  forall j cj cj',
    best_costs before !! j = Some cj ->
    best_costs (it_best after) !! j = Some cj' ->
    cj' = cj \/
    (cj' <= cj - best_cost_eps self /\
     costs (it_for_out after) !! j = Some cj').

(** [x'] is [x] with every entry of batch element [b] multiplied by the
    mask of [b], computed from the step norms [norms] against [eps]: the
    values agree, and a gradient passes only where the norm is below
    [eps]. *)
Definition masked_by (eps : Q) (norms : list Q) (x x' : gtraj) : Prop :=
  forall t b d g, entry x t b d = Some g ->
    exists nb g',
      norms !! b = Some nb /\ entry x' t b d = Some g' /\
      val g' == val g /\
      grad g' == (if Qlt_bool nb eps then grad g else 0).

(** The two lines of the warning of lines 263-264. *)
Definition unconverged_warning : list event :=
  [Print "LQR Warning: All examples did not converge to a fixed point.";
   Print "Detaching and *not* backpropping through the bad examples."].

(** ** Vocabulary of the further properties *)

(** The trajectory of the dynamics from the batch of states [x0] under
    the controls [us]: one state more than there are controls. *)
Fixpoint dynamics_trajectory (d : dynamics) (x0 : list vec) (us : traj)
  : list (list vec) :=
  match us with
  | [] => [x0]
  | ut :: us' => x0 :: dynamics_trajectory d (call_dynamics d x0 ut) us'
  end.

(** Two vectors with equal entries (as rationals). *)
Definition vec_eq (a b : vec) : Prop := Forall2 Qeq a b.

(** A square matrix that equals its transpose, entry by entry. *)
Definition symmetric (n : nat) (A : mat) : Prop :=
  forall i j, (i < n)%nat -> (j < n)%nat ->
    nth j (nth i A []) 0 == nth i (nth j A []) 0.

(** A computation that writes nothing to standard output. *)
Definition silent {A} (m : M A) : Prop := printed m = [].

(** ** Two more small instances

    The solver of [small_MPC] for a batch of two with a slew-rate penalty
    of one half, and a finite-difference solver over a horizon of a single
    step. *)
Definition slew_MPC : MPC :=
  {| n_state := 1; n_ctrl := 1; T := 2; x_init := [[0]; [0]];
     u_lower := None; u_upper := None; u_zero_I := None; u_init := None;
     lqr_iter := 10; grad_method := ANALYTIC; delta_u := None;
     verbose := 0; eps := 1 # 10; back_eps := 1 # 10000000;
     n_batch := None; linesearch_decay := 2 # 10;
     max_linesearch_iter := 10; exit_unconverged := true;
     detach_unconverged := true; backprop := true;
     F := None; f := None; slew_rate_penalty := Some (1 # 2);
     prev_ctrl := None; not_improved_lim := 5; best_cost_eps := 1 # 10 |}.

Definition single_step_MPC : MPC :=
  {| n_state := 1; n_ctrl := 1; T := 1; x_init := [[0]; [0]];
     u_lower := None; u_upper := None; u_zero_I := None; u_init := None;
     lqr_iter := 10; grad_method := FINITE_DIFF; delta_u := None;
     verbose := 0; eps := 1 # 10; back_eps := 1 # 10000000;
     n_batch := None; linesearch_decay := 2 # 10;
     max_linesearch_iter := 10; exit_unconverged := true;
     detach_unconverged := true; backprop := true;
     F := None; f := None; slew_rate_penalty := None;
     prev_ctrl := None; not_improved_lim := 5; best_cost_eps := 1 # 10 |}.

Definition zero_c3 : traj := [[[0; 0]; [0; 0]]; [[0; 0]; [0; 0]]].

(** * Properties *)

(** ** The computation monad *)

Lemma bind_ok_inv {A B} (m : M A) (k : A -> M B) w b :
  m ≫= k = (w, Ok b) ->
  exists w1 a w2, m = (w1, Ok a) /\ k a = (w2, Ok b) /\ w = w1 ++ w2.
Proof.
  unfold mbind, M_bind. destruct m as [w1 [a | e]]; [| discriminate].
  destruct (k a) as [w2 r] eqn:E. intros [= <- ->]. eauto 6.
Qed.

Lemma bind_ok {A B} (m : M A) (k : A -> M B) w a :
  m = (w, Ok a) -> m ≫= k = (w ++ fst (k a), snd (k a)).
Proof. intros ->. unfold mbind, M_bind. by destruct (k a). Qed.

Lemma bind_pure {A B} (a : A) (k : A -> M B) : mret a ≫= k = k a.
Proof. unfold mbind, mret, M_bind, M_ret. by destruct (k a). Qed.

Lemma getitem_ok {A} (l : list A) i a : l !! i = Some a -> getitem l i = mret a.
Proof. unfold getitem. by intros ->. Qed.

Lemma getitem_ok_inv {A} (l : list A) i w a :
  getitem l i = (w, Ok a) -> l !! i = Some a /\ w = [].
Proof. unfold getitem. destruct (l !! i); [intros [= <- <-] | intros [=]]; done. Qed.

Lemma setitem_ok {A} (l : list A) i v :
  (i < length l)%nat -> setitem l i v = mret (<[i:=v]> l).
Proof. intros Hi. unfold setitem. by rewrite bool_decide_eq_true_2. Qed.

Lemma Qlt_bool_iff (a b : Q) : Qlt_bool a b = true <-> a < b.
Proof.
  unfold Qlt_bool. rewrite negb_true_iff.
  destruct (Qle_bool b a) eqn:E.
  - apply Qle_bool_iff in E. split; [discriminate | lra].
  - split; [intros _ | reflexivity].
    apply Qnot_le_lt. intros Hle. apply Qle_bool_iff in Hle. congruence.
Qed.

(** ** Lists and loops *)

Lemma foldM_app {A B} (step : A -> B -> M A) (l1 l2 : list B) (a : A) :
  foldM step (l1 ++ l2) a = foldM step l1 a ≫= foldM step l2.
Proof.
  revert a. induction l1 as [| b l1 IH]; intros a; cbn [foldM app].
  - by rewrite bind_pure.
  - destruct (step a b) as [w [a' | e]] eqn:E; [| done].
    rewrite (bind_ok _ _ _ _ eq_refl), (bind_ok _ _ _ _ eq_refl), IH.
    destruct (foldM step l1 a') as [w1 [a'' | e]]; simpl.
    + destruct (foldM step l2 a'') as [w2 r]. simpl. by rewrite app_assoc.
    + done.
Qed.

(** A loop over [range(n)] whose passes all succeed silently, with an
    invariant [P i] after [i] passes. *)
Lemma foldM_range_inv {A} (step : A -> nat -> M A) (P : nat -> A -> Prop)
    (n : nat) (a0 : A) :
  P 0%nat a0 ->
  (forall i a, (i < n)%nat -> P i a -> exists a', step a i = mret a' /\ P (S i) a') ->
  exists a', foldM step (seq 0 n) a0 = mret a' /\ P n a'.
Proof.
  induction n as [| n IH]; intros H0 Hstep.
  - exists a0. by split.
  - destruct IH as (a & Ha & HP); [done | intros; apply Hstep; [lia | done] |].
    destruct (Hstep n a) as (a' & Ha' & HP'); [lia | done |].
    exists a'. split; [| done].
    rewrite seq_S, foldM_app, Ha, bind_pure. cbn [foldM plus].
    by rewrite Ha', bind_pure.
Qed.

Lemma removelast_take {A} (l : list A) : removelast l = take (length l - 1) l.
Proof.
  rewrite removelast_firstn_len. f_equal. lia.
Qed.

Lemma chunks_concat {A} (B : nat) (rows : list (list A)) :
  Forall (fun r => length r = B) rows ->
  chunks (length rows) B (concat rows) = rows.
Proof.
  induction 1 as [| r rows Hr _ IH]; simpl; [done |].
  rewrite take_app_length', drop_app_length' by done. by rewrite IH.
Qed.

Lemma length_concat_rows {A} (B : nat) (rows : list (list A)) :
  Forall (fun r => length r = B) rows ->
  length (concat rows) = (length rows * B)%nat.
Proof.
  induction 1 as [| r rows Hr _ IH]; simpl; [done |].
  rewrite length_app, IH, Hr. lia.
Qed.

Lemma zip_with_concat {A B C} (g : A -> B -> C) (xs : list (list A))
    (us : list (list B)) :
  Forall2 (fun r s => length r = length s) xs us ->
  zip_with g (concat xs) (concat us) = concat (zip_with (zip_with g) xs us).
Proof.
  induction 1 as [| r s xs us Hrs _ IH]; simpl; [done |].
  by rewrite zip_with_app, IH.
Qed.

(** ** The constructor *)

Lemma init_accepts (a : MPC) :
  is_None (u_lower a) = is_None (u_upper a) ->
  (0 < max_linesearch_iter a)%Z -> f a = None ->
  slew_rate_penalty a = None \/ F a = None ->
  __init__ a = ([], Ok a).
Proof.
  intros Hb Hls Hf Hslew. apply Z.ltb_lt in Hls. unfold __init__.
  rewrite Hb, eqb_reflx, Hls, Hf.
  destruct Hslew as [-> | ->]; [done |].
  by destruct (slew_rate_penalty a).
Qed.

Lemma init_rejects_unpaired (a : MPC) :
  is_None (u_lower a) <> is_None (u_upper a) ->
  __init__ a = ([], Raise (AssertionError "")).
Proof.
  intros Hne. unfold __init__.
  destruct (u_lower a), (u_upper a); simpl in *; congruence.
Qed.

(** C9: exactly one of [u_lower], [u_upper] present makes the constructor
    fail its first assertion; with both or neither present the
    constructor accepts the arguments (the other assertions permitting). *)
Theorem init_box_bounds_pairing (a : MPC) :
  (is_None (u_lower a) <> is_None (u_upper a) ->
   __init__ a = ([], Raise (AssertionError ""))) /\
  (is_None (u_lower a) = is_None (u_upper a) ->
   (0 < max_linesearch_iter a)%Z -> f a = None ->
   slew_rate_penalty a = None \/ F a = None ->
   __init__ a = ([], Ok a)).
Proof. split; [apply init_rejects_unpaired | apply init_accepts]. Qed.

Lemma init_box_bounds_pairing_witness :
  __init__ (mkMPC 1 1 2 [[0]] (Some (BFloat (-1))) None None None 10 ANALYTIC
              None 0 (1 # 10) (1 # 10) None (1 # 5) 10 true true true None
              None None None 5 (1 # 10000))
    = ([], Raise (AssertionError "")) /\
  __init__ (mkMPC 1 1 2 [[0]] (Some (BFloat (-1))) (Some (BFloat 1)) None None
              10 ANALYTIC None 0 (1 # 10) (1 # 10) None (1 # 5) 10 true true
              true None None None None 5 (1 # 10000))
    = ([], Ok (mkMPC 1 1 2 [[0]] (Some (BFloat (-1))) (Some (BFloat 1)) None
              None 10 ANALYTIC None 0 (1 # 10) (1 # 10) None (1 # 5) 10 true
              true true None None None None 5 (1 # 10000))).
Proof.
  split.
  - apply (proj1 (init_box_bounds_pairing _)). simpl. discriminate.
  - apply (proj2 (init_box_bounds_pairing _)); simpl; auto. lia.
Defined.

(** C10: a residual [f] other than [None] always ends the constructor in
    an assertion failure, slew-rate penalty or not; a constructed solver
    has no residual, and affine dynamics given by [F] alone are accepted. *)
Theorem init_rejects_residual (a : MPC) :
  (f a <> None -> exists msg, __init__ a = ([], Raise (AssertionError msg))) /\
  (forall w a', __init__ a = (w, Ok a') -> f a = None) /\
  (is_None (u_lower a) = is_None (u_upper a) ->
   (0 < max_linesearch_iter a)%Z -> f a = None ->
   slew_rate_penalty a = None -> __init__ a = ([], Ok a)).
Proof.
  assert (Hrej : f a <> None ->
                 exists msg, __init__ a = ([], Raise (AssertionError msg))).
  { intros Hf. unfold __init__.
    destruct (eqb _ _); [| by eexists].
    destruct (0 <? _)%Z; [| by eexists].
    destruct (f a); [by eexists | done]. }
  split; [exact Hrej |]. split.
  - intros w a' Hok. destruct (f a) eqn:Hf; [| done].
    destruct Hrej as [msg Hmsg]; [done |]. congruence.
  - intros Hb Hls Hf Hs. apply init_accepts; auto.
Qed.

Lemma init_rejects_residual_witness :
  (exists msg,
     __init__ (mkMPC 1 1 2 [[0]] None None None None 10 ANALYTIC None 0
                 (1 # 10) (1 # 10) None (1 # 5) 10 true true true
                 (Some [[[[1; 1]]]]) (Some [[[0]]]) None None 5 (1 # 10000))
     = ([], Raise (AssertionError msg))) /\
  __init__ (mkMPC 1 1 2 [[0]] None None None None 10 ANALYTIC None 0
              (1 # 10) (1 # 10) None (1 # 5) 10 true true true
              (Some [[[[1; 1]]]]) None None None 5 (1 # 10000))
    = ([], Ok (mkMPC 1 1 2 [[0]] None None None None 10 ANALYTIC None 0
              (1 # 10) (1 # 10) None (1 # 5) 10 true true true
              (Some [[[[1; 1]]]]) None None None 5 (1 # 10000))).
Proof.
  split.
  - apply (proj1 (init_rejects_residual _)). simpl. discriminate.
  - apply (proj2 (proj2 (init_rejects_residual _))); simpl; auto. lia.
Defined.

(** ** The outer solver *)

Section SolverProperties.
Context `{Collaborators}.

(** C8: at entry [forward] takes the batch size from the second dimension
    of a four-dimensional [C], otherwise from the configured [n_batch];
    with neither it fails at once with the assertion
    "Could not infer batch size". *)
Theorem forward_batch_size (self : MPC) (C : quad_arg) (c : lin_arg)
    (dynamics : option dynamics) :
  (C_ndimension C = 4%nat ->
   forward self C c dynamics
   = solve_with_batch self C c dynamics (C_size1 C)) /\
  (C_ndimension C <> 4%nat -> forall n, n_batch self = Some n ->
   forward self C c dynamics = solve_with_batch self C c dynamics n) /\
  (C_ndimension C <> 4%nat -> n_batch self = None ->
   forward self C c dynamics
   = ([], Raise (AssertionError
                   "Could not infer batch size, pass in as n_batch"))).
Proof.
  unfold forward, infer_n_batch. repeat split.
  - intros ->. simpl. apply bind_pure.
  - intros Hnd n ->. apply Nat.eqb_neq in Hnd. rewrite Hnd. apply bind_pure.
  - intros Hnd ->. apply Nat.eqb_neq in Hnd. by rewrite Hnd.
Qed.

Lemma linearize_timestep_eq (self : MPC) (u : traj) (d : dynamics) (B : nat)
    (x : list (list vec)) (F : jacs) (f : traj) (t : nat) :
  linearize_timestep self u d B (x, F, f) t =
  if (t <? T self - 1)%nat then
    xt ← getitem x t;
    ut ← getitem u t;
    '(Rt, St) ← timestep_jacobians self d B xt ut;
    mret (x ++ [call_dynamics d xt ut], F ++ [zip_with cat_RS Rt St],
          f ++ [residual (call_dynamics d xt ut) Rt St xt ut])
  else mret (x, F, f).
Proof. reflexivity. Qed.

Lemma timestep_jacobians_check (self : MPC) (d : dynamics) (B : nat)
    (xt ut : list vec) :
  grad_method self = ANALYTIC_CHECK ->
  exists e, timestep_jacobians self d B xt ut = ([], Raise e) /\
            (forall code, e <> SystemExit code) /\
            ((1 <= n_state self)%nat -> e = AssertionError "").
Proof.
  intros Hgm. unfold timestep_jacobians. rewrite Hgm.
  destruct (n_state self) as [| n].
  - exists ValueError. split; [reflexivity |]. split; [done | lia].
  - exists (AssertionError ""). cbn [seq map stack_dim1].
    rewrite !bind_pure. split; [reflexivity | done].
Qed.

(** C6 (as the code has it): with [ANALYTIC_CHECK] selected,
    [linearize_dynamics] never returns, prints nothing and never exits the
    process; on a nominal trajectory of at least two steps with a
    non-empty state it stops at the assertion that guards the
    cross-check, once the automatic-differentiation Jacobian of the first
    timestep is assembled. *)
Theorem analytic_check_stops_at_assertion (self : MPC) (x u : traj)
    (d : dynamics) (diff : bool) :
  grad_method self = ANALYTIC_CHECK ->
  printed (linearize_dynamics self x u d diff) = [] /\
  (exists e, result (linearize_dynamics self x u d diff) = Raise e /\
             forall code, e <> SystemExit code) /\
  (x <> [] -> u <> [] -> (2 <= T self)%nat -> (1 <= n_state self)%nat ->
   result (linearize_dynamics self x u d diff) = Raise (AssertionError "")).
Proof.
  intros Hgm. unfold linearize_dynamics.
  destruct x as [| x0 x]; [by split; [| split; [eexists |]] |].
  rewrite (getitem_ok (x0 :: x) 0 x0 eq_refl), bind_pure, Hgm.
  destruct (T self) as [| [| n]] eqn:HT.
  - split; [reflexivity |].
    split; [eexists; split; [reflexivity | done] | lia].
  - cbn [seq foldM]. rewrite linearize_timestep_eq, HT.
    split; [reflexivity |].
    split; [eexists; split; [reflexivity | done] | lia].
  - cbn [seq foldM]. rewrite linearize_timestep_eq, HT.
    replace (0 <? S (S n) - 1)%nat with true by (symmetry; apply Nat.ltb_lt; lia).
    rewrite (getitem_ok [x0] 0 x0 eq_refl), bind_pure.
    destruct u as [| u0 u]; [by split; [| split; [eexists |]] |].
    rewrite (getitem_ok (u0 :: u) 0 u0 eq_refl), bind_pure.
    destruct (timestep_jacobians_check self d (length x0) x0 u0 Hgm)
      as (e & He & Hexit & Hassert).
    rewrite He. split; [done |]. split; [by eexists |].
    intros _ _ _ Hn. cbn. by rewrite Hassert.
Qed.

(** *** Linearization *)

Lemma fmap_fst_zip_with {A B C D} (g : A -> B -> C * D) xs us :
  (zip_with g xs us).*1 = zip_with (fun x u => fst (g x u)) xs us.
Proof. revert us. induction xs; intros [| ? ?]; simpl; f_equal; auto. Qed.

Lemma fmap_snd_zip_with {A B C D} (g : A -> B -> C * D) xs us :
  (zip_with g xs us).*2 = zip_with (fun x u => snd (g x u)) xs us.
Proof. revert us. induction xs; intros [| ? ?]; simpl; f_equal; auto. Qed.

Lemma zip_with_zip_with {A B C D E} (h : C -> D -> E) (g1 : A -> B -> C)
    (g2 : A -> B -> D) xs us :
  zip_with h (zip_with g1 xs us) (zip_with g2 xs us)
  = zip_with (fun x u => h (g1 x u) (g2 x u)) xs us.
Proof. revert us. induction xs; intros [| ? ?]; simpl; f_equal; auto. Qed.

Lemma residual_pointwise (d : dynamics) (jac : vec -> vec -> mat * mat)
    (xs us : list vec) :
  residual (call_dynamics d xs us)
           (zip_with (fun x u => fst (jac x u)) xs us)
           (zip_with (fun x u => snd (jac x u)) xs us) xs us
  = zip_with (fun x u => point_residual d (jac x u) x u) xs us.
Proof.
  unfold residual, call_dynamics, bmv, point_residual.
  revert us. induction xs; intros [| ? ?]; simpl; f_equal; auto.
Qed.

Lemma zip_rows_shape {A B C} (g : A -> B -> C) (n : nat) X U :
  Forall (fun r => length r = n) X -> Forall (fun r => length r = n) U ->
  Forall (fun r => length r = n) (zip_with (zip_with g) X U).
Proof.
  intros HX. revert U. induction HX as [| r X Hr _ IH]; intros U HU; simpl.
  - constructor.
  - destruct HU as [| s U Hs HU]; constructor; [| by apply IH].
    rewrite length_zip_with. lia.
Qed.

Lemma rows_same_length {A B} (n : nat) (X : list (list A)) (U : list (list B)) :
  length X = length U ->
  Forall (fun r => length r = n) X -> Forall (fun r => length r = n) U ->
  Forall2 (fun r s => length r = length s) X U.
Proof.
  intros Hlen HX. revert U Hlen.
  induction HX as [| r X Hr _ IH]; intros [| s U] Hlen HU; simplify_eq/=;
    constructor.
  - inversion HU; subst. congruence.
  - apply IH; [done | by inversion HU].
Qed.

Lemma chunks_concat_length {A} (k B : nat) (rows : list (list A)) :
  length rows = k -> Forall (fun r => length r = B) rows ->
  chunks k B (concat rows) = rows.
Proof. intros <-. apply chunks_concat. Qed.

Lemma view_2d_concat (n : nat) (X : traj) :
  (1 <= n)%nat -> Forall (Forall (fun v => length v = n)) X ->
  view_2d n X = mret (concat X).
Proof.
  intros Hn HX. unfold view_2d.
  assert (Hrows : Forall (fun v => length v = n) (concat X))
    by by apply Forall_concat.
  rewrite (length_concat_rows n) by done.
  rewrite Nat.Div0.mod_mul, Nat.div_mul by lia.
  replace (0 <? n)%nat with true by (symmetry; apply Nat.ltb_lt; lia).
  cbn [andb Nat.eqb]. by rewrite chunks_concat.
Qed.

Lemma view_3d_concat (a b n : nat) (rows : traj) :
  well_shaped a b rows -> Forall (Forall (fun v => length v = n)) rows ->
  view_3d a b n (concat rows) = mret rows.
Proof.
  intros [Ha Hb] Hn. unfold view_3d.
  assert (Hrows : Forall (fun v => length v = n) (concat rows))
    by by apply Forall_concat.
  assert (Hlen : length (concat rows) = (a * b)%nat)
    by (rewrite (length_concat_rows b), Ha; done).
  rewrite (length_concat_rows n), Hlen, Nat.eqb_refl by done.
  rewrite (chunks_concat_length (a * b) n) by done.
  by rewrite (chunks_concat_length a b).
Qed.

Lemma view_4d_concat (a b n m : nat) (mats : jacs) :
  well_shaped a b mats ->
  Forall (Forall (fun M => length M = n /\ Forall (fun r => length r = m) M))
         mats ->
  view_4d a b n m (concat mats) = mret mats.
Proof.
  intros [Ha Hb] Hm. unfold view_4d.
  assert (Hmats : Forall (fun M => length M = n /\
                                   Forall (fun r => length r = m) M)
                         (concat mats)) by by apply Forall_concat.
  assert (Hn : Forall (fun M : mat => length M = n) (concat mats))
    by (eapply Forall_impl; [exact Hmats | by intros ? []]).
  assert (Hr : Forall (fun r : vec => length r = m) (concat (concat mats))).
  { apply Forall_concat. eapply Forall_impl; [exact Hmats | by intros ? []]. }
  assert (Hlen : length (concat mats) = (a * b)%nat)
    by (rewrite (length_concat_rows b), Ha; done).
  assert (Hlen2 : length (concat (concat mats)) = (a * b * n)%nat)
    by (rewrite (length_concat_rows n), Hlen; done).
  rewrite (length_concat_rows m), Hlen2, Nat.eqb_refl by done.
  rewrite (chunks_concat_length (a * b * n) m) by done.
  rewrite (chunks_concat_length (a * b) n) by done.
  by rewrite (chunks_concat_length a b).
Qed.

Lemma at_tb_take {A} (k : nat) (x : list (list A)) t b a :
  at_tb (take k x) t b = Some a -> (t < k)%nat /\ at_tb x t b = Some a.
Proof.
  unfold at_tb. intros Ha. apply bind_Some in Ha as (row & Hrow & Ha).
  apply lookup_take_Some in Hrow as [Hrow Ht].
  split; [done |]. by rewrite Hrow.
Qed.

Lemma Forall_zip_rows {A B C} (P : C -> Prop) (g : A -> B -> C)
    (X : list (list A)) (U : list (list B)) :
  (forall t b x u, at_tb X t b = Some x -> at_tb U t b = Some u -> P (g x u)) ->
  Forall (Forall P) (zip_with (zip_with g) X U).
Proof.
  intros Hg. apply Forall_lookup. intros t row Hrow.
  rewrite lookup_zip_with in Hrow.
  apply bind_Some in Hrow as (xr & Hxr & Hrow).
  apply bind_Some in Hrow as (ur & Hur & [= <-]).
  apply Forall_lookup. intros b c Hc. rewrite lookup_zip_with in Hc.
  apply bind_Some in Hc as (xb & Hxb & Hc).
  apply bind_Some in Hc as (ub & Hub & [= <-]).
  apply (Hg t b); unfold at_tb; [by rewrite Hxr | by rewrite Hur].
Qed.

Lemma length_point_residual (d : dynamics) (n m : nat) (RS : mat * mat)
    (x u : vec) :
  length (dyn d x u) = n -> jacobian_shaped n m RS ->
  length (point_residual d RS x u) = n.
Proof.
  intros Hd (HR & _ & HS & _). unfold point_residual, vsub, mv.
  rewrite !length_zip_with, !length_map. lia.
Qed.

Lemma cat_RS_shaped (n m : nat) (RS : mat * mat) :
  jacobian_shaped n m RS ->
  length (cat_RS (fst RS) (snd RS)) = n /\
  Forall (fun r => length r = (n + m)%nat) (cat_RS (fst RS) (snd RS)).
Proof.
  intros (HR & HRr & HS & HSr). unfold cat_RS. split.
  - rewrite length_zip_with. lia.
  - apply Forall_lookup. intros i row Hrow. rewrite lookup_zip_with in Hrow.
    apply bind_Some in Hrow as (r & Hr & Hrow).
    apply bind_Some in Hrow as (s' & Hs & [= <-]).
    rewrite length_app.
    rewrite (proj1 (Forall_lookup _ _) HRr _ _ Hr).
    by rewrite (proj1 (Forall_lookup _ _) HSr _ _ Hs).
Qed.

Lemma linearize_analytic_eq (self : MPC) (x u : traj) (d : dynamics) (B : nat) :
  grad_method self = ANALYTIC -> (1 <= T self)%nat ->
  (1 <= n_state self)%nat -> (1 <= n_ctrl self)%nat ->
  well_shaped (T self) B x -> well_shaped (T self) B u ->
  Forall (Forall (fun v => length v = n_state self)) x ->
  Forall (Forall (fun v => length v = n_ctrl self)) u ->
  (forall t b xt ut, (t < T self - 1)%nat ->
     at_tb x t b = Some xt -> at_tb u t b = Some ut ->
     length (dyn d xt ut) = n_state self /\
     jacobian_shaped (n_state self) (n_ctrl self)
                     (strategy_jacobian self d xt ut)) ->
  linearize_analytic self x u d
  = mret (linearized self d (take (T self - 1) x) (take (T self - 1) u)).
Proof.
  intros Hgm HT Hn Hm [Hlx Hx] [Hlu Hu] Hxn Hum Hpt.
  unfold linearize_analytic.
  destruct x as [| x0 x']; [simpl in Hlx; lia |].
  rewrite (getitem_ok (x0 :: x') 0 x0 eq_refl), bind_pure.
  assert (HB : length x0 = B) by (by inversion Hx).
  rewrite HB, !removelast_take, Hlx, Hlu.
  set (X := take (T self - 1) (x0 :: x')). set (U := take (T self - 1) u).
  assert (HX : Forall (fun r => length r = B) X) by by apply Forall_take.
  assert (HU : Forall (fun r => length r = B) U) by by apply Forall_take.
  assert (HlX : length X = (T self - 1)%nat)
    by (unfold X; rewrite length_take; lia).
  assert (HlU : length U = (T self - 1)%nat)
    by (unfold U; rewrite length_take; lia).
  assert (HXU : Forall2 (fun r s => length r = length s) X U)
    by (eapply rows_same_length; [congruence | done | done]).
  assert (Hpt' : forall t b xt ut,
            at_tb X t b = Some xt -> at_tb U t b = Some ut ->
            length (dyn d xt ut) = n_state self /\
            jacobian_shaped (n_state self) (n_ctrl self) (grad_input d xt ut)).
  { intros t b xt ut Hxt Hut.
    apply at_tb_take in Hxt as [Ht Hxt]. apply at_tb_take in Hut as [_ Hut].
    specialize (Hpt t b xt ut Ht Hxt Hut).
    unfold strategy_jacobian in Hpt. by rewrite Hgm in Hpt. }
  rewrite (view_2d_concat (n_ctrl self) U), bind_pure
    by (done || by apply Forall_take).
  rewrite (view_2d_concat (n_state self) X), bind_pure
    by (done || by apply Forall_take).
  rewrite fmap_fst_zip_with, fmap_snd_zip_with.
  rewrite (residual_pointwise d (grad_input d)).
  rewrite !zip_with_concat by done.
  rewrite view_3d_concat, bind_pure.
  2: { split; [rewrite length_zip_with; lia | by apply zip_rows_shape]. }
  2: { apply Forall_zip_rows. intros t b xt ut Hxt Hut.
       destruct (Hpt' t b xt ut Hxt Hut).
       by apply (length_point_residual d _ (n_ctrl self)). }
  rewrite (view_4d_concat _ _ _ (n_state self)), bind_pure.
  2: { split; [rewrite length_zip_with; lia | by apply zip_rows_shape]. }
  2: { apply Forall_zip_rows. intros t b xt ut Hxt Hut.
       destruct (Hpt' t b xt ut Hxt Hut) as [_ (HR & HRr & _)]. done. }
  rewrite (view_4d_concat _ _ _ (n_ctrl self)), bind_pure.
  2: { split; [rewrite length_zip_with; lia | by apply zip_rows_shape]. }
  2: { apply Forall_zip_rows. intros t b xt ut Hxt Hut.
       destruct (Hpt' t b xt ut Hxt Hut) as [_ (_ & _ & HS & HSr)]. done. }
  unfold linearized, strategy_jacobian. rewrite Hgm.
  rewrite zip_with_zip_with. do 2 f_equal.
  apply zip_with_ext; [| done | done].
  intros r s. apply zip_with_zip_with.
Qed.

Lemma omap_lookup_columns {A B C} (g : A -> B -> nat -> C) xs us b x u js :
  xs !! b = Some x -> us !! b = Some u ->
  omap (fun col : list C => col !! b)
       (map (fun j => zip_with (fun x u => g x u j) xs us) js)
  = map (g x u) js.
Proof.
  intros Hx Hu. induction js as [| j js IH]; [done |].
  cbn [map omap list_omap]. rewrite lookup_zip_with, Hx, Hu. cbn [mbind option_bind]. by rewrite <- IH.
Qed.

Lemma stack_dim1_zip {A B C} (g : A -> B -> nat -> C) xs us n :
  (1 <= n)%nat ->
  stack_dim1 (map (fun j => zip_with (fun x u => g x u j) xs us) (seq 0 n))
  = mret (zip_with (fun x u => map (g x u) (seq 0 n)) xs us).
Proof.
  intros Hn. destruct n as [| n]; [lia |].
  set (cols := map _ (seq 0 (S n))).
  change (stack_dim1 cols) with
    (mret (M := M) (imap (fun b (_ : C) => omap (fun col : list C => col !! b) cols)
             (zip_with (fun x u => g x u 0%nat) xs us))).
  f_equal. apply list_eq. intros b.
  rewrite list_lookup_imap, !lookup_zip_with.
  destruct (xs !! b) as [x |] eqn:Hx; [| done].
  destruct (us !! b) as [u |] eqn:Hu; [| done].
  change (Some (omap (fun col : list C => col !! b) cols)
          = Some (map (g x u) (seq 0 (S n)))).
  f_equal. by apply omap_lookup_columns.
Qed.

Lemma timestep_jacobians_eq (self : MPC) (d : dynamics) (B : nat)
    (xt ut : list vec) :
  grad_method self = AUTO_DIFF \/ grad_method self = FINITE_DIFF ->
  length xt = B -> length ut = B -> (1 <= B)%nat -> (1 <= n_state self)%nat ->
  timestep_jacobians self d B xt ut
  = mret (zip_with (fun x u => fst (strategy_jacobian self d x u)) xt ut,
          zip_with (fun x u => snd (strategy_jacobian self d x u)) xt ut).
Proof.
  intros Hgm Hx Hu HB Hn. unfold timestep_jacobians, strategy_jacobian.
  destruct Hgm as [-> | ->].
  - rewrite (stack_dim1_zip (fun x u j => fst (autograd_grad d x u j))) by done.
    rewrite bind_pure.
    rewrite (stack_dim1_zip (fun x u j => snd (autograd_grad d x u j))) by done.
    by rewrite bind_pure.
  - set (fd := fun x u : vec =>
                 (jacobian (fun s => dyn d s u) x (1 # 10000),
                  jacobian (fun a => dyn d x a) u (1 # 10000))).
    destruct (foldM_range_inv
                (fun acc i =>
                   xi ← getitem xt i; ui ← getitem ut i;
                   mret (acc ++ [(jacobian (fun s => dyn d s ui) xi (1 # 10000),
                                  jacobian (fun a => dyn d xi a) ui (1 # 10000))]))
                (fun i acc => acc = take i (zip_with fd xt ut)) B [])
      as (RS & HRS & ->); [done | |].
    { intros i acc Hi ->.
      destruct (lookup_lt_is_Some_2 xt i) as [xi Hxi]; [lia |].
      destruct (lookup_lt_is_Some_2 ut i) as [ui Hui]; [lia |].
      eexists. rewrite (getitem_ok _ _ _ Hxi), bind_pure.
      rewrite (getitem_ok _ _ _ Hui), bind_pure. split; [done |].
      symmetry. apply take_S_r. by rewrite lookup_zip_with, Hxi, Hui. }
    rewrite HRS, bind_pure.
    rewrite take_ge by (rewrite length_zip_with; lia).
    rewrite fmap_fst_zip_with, fmap_snd_zip_with.
    destruct xt as [| x0 xt]; [simpl in Hx; lia |].
    destruct ut as [| u0 ut]; [simpl in Hu; lia |].
    cbn [zip_with stack]. by rewrite !bind_pure.
Qed.

Lemma linearize_loop_eq (self : MPC) (x u : traj) (d : dynamics) (B : nat)
    (x0 : list vec) :
  grad_method self = AUTO_DIFF \/ grad_method self = FINITE_DIFF ->
  (1 <= T self)%nat -> (1 <= B)%nat -> (1 <= n_state self)%nat ->
  well_shaped (T self) B x -> well_shaped (T self) B u ->
  is_rollout d x u -> x !! 0%nat = Some x0 ->
  foldM (linearize_timestep self u d B) (seq 0 (T self)) ([x0], [], [])
  = mret (take (T self) x,
          fst (linearized self d (take (T self - 1) x) (take (T self - 1) u)),
          snd (linearized self d (take (T self - 1) x) (take (T self - 1) u))).
Proof.
  intros Hgm HT HB Hn [Hlx Hx] [Hlu Hu] Hroll Hx0.
  destruct (foldM_range_inv (linearize_timestep self u d B)
              (fun t acc =>
                 let k := Nat.min t (T self - 1) in
                 acc = (take (S k) x,
                        fst (linearized self d (take k x) (take k u)),
                        snd (linearized self d (take k x) (take k u))))
              (T self) ([x0], [], [])) as (acc & Hacc & ->).
  - simpl. destruct x; by simplify_eq/=.
  - intros t acc Ht ->. cbv zeta. rewrite linearize_timestep_eq.
    destruct (t <? T self - 1)%nat eqn:Hlt.
    + apply Nat.ltb_lt in Hlt.
      rewrite (Nat.min_l t) by lia. rewrite (Nat.min_l (S t)) by lia.
      destruct (lookup_lt_is_Some_2 x t) as [xt Hxt]; [lia |].
      destruct (lookup_lt_is_Some_2 u t) as [ut Hut]; [lia |].
      assert (Hxt' : take (S t) x !! t = Some xt)
        by (rewrite lookup_take_lt by lia; done).
      rewrite (getitem_ok _ _ _ Hxt'), bind_pure.
      rewrite (getitem_ok _ _ _ Hut), bind_pure.
      rewrite (timestep_jacobians_eq self d B xt ut); try done.
      2: { by eapply (proj1 (Forall_lookup _ _) Hx). }
      2: { by eapply (proj1 (Forall_lookup _ _) Hu). }
      rewrite bind_pure. eexists. split; [reflexivity |].
      rewrite (residual_pointwise d (strategy_jacobian self d)).
      rewrite zip_with_zip_with.
      rewrite (take_S_r x (S t) (call_dynamics d xt ut))
        by (apply Hroll; [done | done | lia]).
      rewrite (take_S_r x t xt), (take_S_r u t ut) by done.
      unfold linearized. cbn [fst snd].
      rewrite !zip_with_app by (rewrite !length_take; lia).
      done.
    + apply Nat.ltb_ge in Hlt.
      rewrite (Nat.min_r t) by lia. rewrite (Nat.min_r (S t)) by lia.
      eexists. split; reflexivity.
  - rewrite Hacc. rewrite Nat.min_r by lia.
    replace (S (T self - 1)) with (T self) by lia. done.
Qed.

Lemma linearize_dynamics_eq (self : MPC) (x u : traj) (d : dynamics)
    (diff : bool) (B : nat) :
  grad_method self <> ANALYTIC_CHECK ->
  (2 <= T self)%nat -> (1 <= B)%nat ->
  (1 <= n_state self)%nat -> (1 <= n_ctrl self)%nat ->
  well_shaped (T self) B x -> well_shaped (T self) B u ->
  Forall (Forall (fun v => length v = n_state self)) x ->
  Forall (Forall (fun v => length v = n_ctrl self)) u ->
  (forall t b xt ut, (t < T self - 1)%nat ->
     at_tb x t b = Some xt -> at_tb u t b = Some ut ->
     length (dyn d xt ut) = n_state self /\
     jacobian_shaped (n_state self) (n_ctrl self)
                     (strategy_jacobian self d xt ut)) ->
  grad_method self = ANALYTIC \/ is_rollout d x u ->
  linearize_dynamics self x u d diff
  = mret (linearized self d (take (T self - 1) x) (take (T self - 1) u)).
Proof.
  intros Hgm HT HB Hn Hm Hx Hu Hxn Hum Hpt Hroll. unfold linearize_dynamics.
  destruct (lookup_lt_is_Some_2 x 0) as [x0 Hx0]; [destruct Hx; lia |].
  rewrite (getitem_ok _ _ _ Hx0), bind_pure.
  assert (HB0 : length x0 = B)
    by (eapply (proj1 (Forall_lookup _ _) (proj2 Hx)); done).
  destruct (grad_method self) eqn:Hg; [| | | done].
  3: { rewrite <- (linearize_analytic_eq self x u d B); try done. lia. }
  all: destruct Hroll as [? | Hroll]; [done |].
  all: rewrite HB0, (linearize_loop_eq self x u d B x0); auto; try lia.
  all: rewrite bind_pure.
  all: destruct (linearized self d (take (T self - 1) x) (take (T self - 1) u))
         as [Fs fs] eqn:Hlin.
  all: assert (HlF : length Fs = (T self - 1)%nat)
         by (apply (f_equal fst) in Hlin; simpl in Hlin; subst Fs;
             destruct Hx, Hu; rewrite length_zip_with, !length_take; lia).
  all: assert (Hlf : length fs = (T self - 1)%nat)
         by (apply (f_equal snd) in Hlin; simpl in Hlin; subst fs;
             destruct Hx, Hu; rewrite length_zip_with, !length_take; lia).
  all: cbn [fst snd].
  all: destruct Fs; [simpl in HlF; lia |].
  all: destruct fs; [simpl in Hlf; lia |].
  all: cbn [stack]; by rewrite !bind_pure.
Qed.

(** *** The residual, coordinate by coordinate *)

Lemma nth_vsub (a b : vec) (i : nat) :
  (i < length a)%nat -> (i < length b)%nat ->
  nth i (vsub a b) 0 = nth i a 0 - nth i b 0.
Proof.
  intros Ha Hb.
  destruct (lookup_lt_is_Some_2 a i Ha) as [ai Hai].
  destruct (lookup_lt_is_Some_2 b i Hb) as [bi Hbi].
  unfold vsub. rewrite (nth_lookup_Some _ _ _ (ai - bi)).
  - by rewrite (nth_lookup_Some _ _ _ _ Hai), (nth_lookup_Some _ _ _ _ Hbi).
  - by rewrite lookup_zip_with, Hai, Hbi.
Qed.

Lemma nth_mv (A : mat) (v : vec) (i : nat) :
  (i < length A)%nat -> nth i (mv A v) 0 = dot (nth i A []) v.
Proof.
  intros Hi. destruct (lookup_lt_is_Some_2 A i Hi) as [row Hrow].
  unfold mv. rewrite (nth_lookup_Some _ _ _ (dot row v)).
  - by rewrite (nth_lookup_Some _ _ _ _ Hrow).
  - by rewrite list_lookup_fmap, Hrow.
Qed.

Lemma sum_upto_shift (g : nat -> Q) (n : nat) :
  sum_upto g (S n) == g 0%nat + sum_upto (fun k => g (S k)) n.
Proof.
  induction n as [| n IH].
  - cbn. ring.
  - change (sum_upto g (S (S n))) with (sum_upto g (S n) + g (S n)).
    change (sum_upto (fun k => g (S k)) (S n))
      with (sum_upto (fun k => g (S k)) n + g (S n)).
    rewrite IH. ring.
Qed.

Lemma sum_upto_ext (g h : nat -> Q) (n : nat) :
  (forall k, (k < n)%nat -> g k == h k) -> sum_upto g n == sum_upto h n.
Proof.
  induction n as [| n IH]; intros Hgh; cbn [sum_upto]; [reflexivity |].
  rewrite IH by (intros k Hk; apply Hgh; lia).
  rewrite (Hgh n) by lia. reflexivity.
Qed.

Lemma dot_sum (r v : vec) :
  (length v <= length r)%nat ->
  dot r v == sum_upto (fun k => nth k r 0 * nth k v 0) (length v).
Proof.
  revert r. induction v as [| b v IH]; intros r Hr.
  - destruct r; reflexivity.
  - destruct r as [| a r]; [simpl in Hr; lia |].
    cbn [length]. rewrite sum_upto_shift. cbn [nth].
    rewrite <- IH by (simpl in Hr; lia). reflexivity.
Qed.

Lemma cat_RS_side_by_side (n m : nat) (RS : mat * mat) :
  jacobian_shaped n m RS ->
  side_by_side n m (fst RS) (snd RS) (cat_RS (fst RS) (snd RS)).
Proof.
  intros (HR & HRr & HS & HSr). unfold side_by_side, cat_RS.
  split; [rewrite length_zip_with; lia |].
  intros i Hi.
  destruct (lookup_lt_is_Some_2 (fst RS) i) as [r Hr]; [lia |].
  destruct (lookup_lt_is_Some_2 (snd RS) i) as [s Hs]; [lia |].
  assert (Hlr : length r = n) by (eapply (proj1 (Forall_lookup _ _) HRr); done).
  assert (Hls : length s = m) by (eapply (proj1 (Forall_lookup _ _) HSr); done).
  rewrite (nth_lookup_Some _ _ _ (r ++ s))
    by (by rewrite lookup_zip_with, Hr, Hs).
  rewrite (nth_lookup_Some _ _ _ _ Hr), (nth_lookup_Some _ _ _ _ Hs).
  split; [rewrite length_app; lia |]. split.
  - intros k Hk. apply app_nth1. lia.
  - intros k Hk. rewrite app_nth2 by lia. f_equal. lia.
Qed.

Lemma point_residual_entry (d : dynamics) (n m : nat) (RS : mat * mat)
    (x u : vec) (i : nat) :
  length x = n -> length u = m -> length (dyn d x u) = n ->
  jacobian_shaped n m RS -> (i < n)%nat ->
  nth i (point_residual d RS x u) 0
  == taylor_remainder (dyn d x u) (cat_RS (fst RS) (snd RS)) x u i.
Proof.
  intros Hx Hu Hd Hsh Hi.
  destruct (cat_RS_side_by_side n m RS Hsh) as [_ Hcat].
  destruct (Hcat i Hi) as (_ & HcR & HcS).
  destruct Hsh as (HR & HRr & HS & HSr).
  unfold point_residual, taylor_remainder.
  assert (HlmR : length (mv (fst RS) x) = n)
    by (unfold mv; by rewrite length_map).
  assert (HlmS : length (mv (snd RS) u) = n)
    by (unfold mv; by rewrite length_map).
  assert (Hlv : length (vsub (dyn d x u) (mv (fst RS) x)) = n)
    by (unfold vsub; rewrite length_zip_with; lia).
  rewrite nth_vsub by lia. rewrite nth_vsub by lia.
  rewrite !nth_mv by lia.
  assert (HlR : length (nth i (fst RS) []) = n).
  { destruct (lookup_lt_is_Some_2 (fst RS) i) as [r Hr]; [lia |].
    rewrite (nth_lookup_Some _ _ _ _ Hr).
    eapply (proj1 (Forall_lookup _ _) HRr); done. }
  assert (HlS : length (nth i (snd RS) []) = m).
  { destruct (lookup_lt_is_Some_2 (snd RS) i) as [r Hr]; [lia |].
    rewrite (nth_lookup_Some _ _ _ _ Hr).
    eapply (proj1 (Forall_lookup _ _) HSr); done. }
  rewrite !dot_sum by lia.
  rewrite (sum_upto_ext
             (fun k => nth k (nth i (cat_RS (fst RS) (snd RS)) []) 0 * nth k x 0)
             (fun k => nth k (nth i (fst RS) []) 0 * nth k x 0))
    by (intros k Hk; rewrite HcR by lia; reflexivity).
  rewrite (sum_upto_ext
             (fun k => nth (length x + k)
                           (nth i (cat_RS (fst RS) (snd RS)) []) 0 * nth k u 0)
             (fun k => nth k (nth i (snd RS) []) 0 * nth k u 0))
    by (intros k Hk; rewrite Hx, HcS by lia; reflexivity).
  reflexivity.
Qed.

(** C5: for the analytic, automatic-differentiation and
    finite-difference strategies alike, on a nominal trajectory of [T]
    steps of [n_state] states and [n_ctrl] controls, [linearize_dynamics]
    returns for every timestep [t = 0 .. T-2] and every batch element the
    block [F_tb], which holds the strategy's Jacobians [R] and [S] side by
    side, and the residual whose coordinate [i] is
    [f(x_t, u_t)_i - sum_k R_ik x_k - sum_k S_ik u_k] ([x] being the
    rollout of the dynamics under [u] where the strategy re-derives the
    states). *)
Theorem linearize_dynamics_residual (self : MPC) (x u : traj) (d : dynamics)
    (diff : bool) (B : nat) :
  grad_method self <> ANALYTIC_CHECK ->
  (2 <= T self)%nat -> (1 <= B)%nat ->
  (1 <= n_state self)%nat -> (1 <= n_ctrl self)%nat ->
  well_shaped (T self) B x -> well_shaped (T self) B u ->
  Forall (Forall (fun v => length v = n_state self)) x ->
  Forall (Forall (fun v => length v = n_ctrl self)) u ->
  (forall t b xt ut, (t < T self - 1)%nat ->
     at_tb x t b = Some xt -> at_tb u t b = Some ut ->
     length (dyn d xt ut) = n_state self /\
     jacobian_shaped (n_state self) (n_ctrl self)
                     (strategy_jacobian self d xt ut)) ->
  grad_method self = ANALYTIC \/ is_rollout d x u ->
  exists F f,
    linearize_dynamics self x u d diff = ([], Ok (F, f)) /\
    length F = (T self - 1)%nat /\ length f = (T self - 1)%nat /\
    forall t b xt ut, (t < T self - 1)%nat ->
      at_tb x t b = Some xt -> at_tb u t b = Some ut ->
      exists Ftb ftb,
        at_tb F t b = Some Ftb /\ at_tb f t b = Some ftb /\
        side_by_side (n_state self) (n_ctrl self)
                     (fst (strategy_jacobian self d xt ut))
                     (snd (strategy_jacobian self d xt ut)) Ftb /\
        length ftb = n_state self /\
        forall i, (i < n_state self)%nat ->
          nth i ftb 0 == taylor_remainder (dyn d xt ut) Ftb xt ut i.
Proof.
  intros Hgm HT HB Hn Hm Hx Hu Hxn Hum Hpt Hroll.
  rewrite (linearize_dynamics_eq self x u d diff B) by done.
  unfold linearized. do 2 eexists. split; [reflexivity |].
  destruct Hx as [Hlx Hx], Hu as [Hlu Hu].
  split; [rewrite length_zip_with, !length_take; lia |].
  split; [rewrite length_zip_with, !length_take; lia |].
  intros t b xt ut Ht Hxt Hut.
  destruct (Hpt t b xt ut Ht Hxt Hut) as [Hd Hsh].
  assert (Hlxt : length xt = n_state self).
  { unfold at_tb in Hxt. apply bind_Some in Hxt as (xr & Hxr & Hxt).
    pose proof (proj1 (Forall_lookup _ _) Hxn _ _ Hxr) as Hrow.
    exact (proj1 (Forall_lookup _ _) Hrow _ _ Hxt). }
  assert (Hlut : length ut = n_ctrl self).
  { unfold at_tb in Hut. apply bind_Some in Hut as (ur & Hur & Hut).
    pose proof (proj1 (Forall_lookup _ _) Hum _ _ Hur) as Hrow.
    exact (proj1 (Forall_lookup _ _) Hrow _ _ Hut). }
  exists (cat_RS (fst (strategy_jacobian self d xt ut))
                 (snd (strategy_jacobian self d xt ut))),
         (point_residual d (strategy_jacobian self d xt ut) xt ut).
  split; [| split].
  - unfold at_tb in *. rewrite !lookup_zip_with, !lookup_take_lt by done.
    apply bind_Some in Hxt as (xr & Hxr & Hxt).
    apply bind_Some in Hut as (ur & Hur & Hut).
    rewrite Hxr, Hur. cbn. by rewrite !lookup_zip_with, Hxt, Hut.
  - unfold at_tb in *. rewrite !lookup_zip_with, !lookup_take_lt by done.
    apply bind_Some in Hxt as (xr & Hxr & Hxt).
    apply bind_Some in Hut as (ur & Hur & Hut).
    rewrite Hxr, Hur. cbn. by rewrite !lookup_zip_with, Hxt, Hut.
  - split; [by apply cat_RS_side_by_side |].
    split; [by apply (length_point_residual d _ (n_ctrl self)) |].
    intros i Hi. by apply (point_residual_entry d (n_state self) (n_ctrl self)).
Qed.

(** *** Tracking the best trajectory *)

Lemma select_batch_ok (x : traj) (j : nat) :
  (j < size1 x)%nat ->
  select_batch x j = mret (map (fun row => nth j row []) x).
Proof. intros Hj. unfold select_batch. by rewrite bool_decide_eq_true_2. Qed.

Lemma track_best_element_eq (self : MPC) (x u : traj) (fo : for_out_t)
    (best : best_t) (n : Z) (j : nat) :
  track_best_element self x u fo (best, n) j =
  cj ← getitem (costs fo) j;
  bj ← getitem (best_costs best) j;
  if Qle_bool cj (bj - best_cost_eps self) then
    xj ← select_batch x j;
    bx ← setitem (best_x best) j (unsqueeze1 xj);
    uj ← select_batch u j;
    bu ← setitem (best_u best) j (unsqueeze1 uj);
    cj ← getitem (costs fo) j;
    bc ← setitem (best_costs best) j cj;
    nj ← getitem (full_du_norm fo) j;
    bn ← setitem (best_full_du_norm best) j nj;
    mret ({| best_x := bx; best_u := bu; best_costs := bc;
             best_full_du_norm := bn |}, 0%Z)
  else mret (best, n).
Proof. reflexivity. Qed.

Lemma existsb_range_S (p : nat -> bool) (i : nat) :
  existsb p (seq 0 (S i)) = existsb p (seq 0 i) || p i.
Proof. rewrite seq_S, existsb_app. simpl. by rewrite orb_false_r. Qed.

(** C2 (as the code has it): in a pass after the first, each batch
    element whose new cost is lower than its recorded best by at least
    [best_cost_eps] gets the iterate's trajectory, cost and step norm as
    its new best, and every other element keeps its record; the one
    counter shared by all elements, incremented once at the start of the
    pass, is reset to zero as soon as some element improves.  In the first
    pass the whole iterate is recorded and the counter stays incremented. *)
Theorem track_best_per_element (self : MPC) (n_batch : nat) (x u : traj)
    (fo : for_out_t) (best : best_t) (n : Z) :
  size1 x = n_batch -> size1 u = n_batch ->
  length (costs fo) = n_batch -> length (full_du_norm fo) = n_batch ->
  length (best_x best) = n_batch -> length (best_u best) = n_batch ->
  length (best_costs best) = n_batch ->
  length (best_full_du_norm best) = n_batch ->
  (exists best' n',
     track_best self n_batch x u fo (Some best) (n + 1) = ([], Ok (best', n')) /\
     (forall j, (j < n_batch)%nat ->
        best_at best' j
        = if improves self fo best j then iterate_at x u fo j
          else best_at best j) /\
     n' = if existsb (improves self fo best) (seq 0 n_batch) then 0%Z
          else (n + 1)%Z) /\
  track_best self n_batch x u fo None (n + 1)
  = ([], Ok ({| best_x := split_batch x; best_u := split_batch u;
                best_costs := costs fo;
                best_full_du_norm := full_du_norm fo |}, (n + 1)%Z)).
Proof.
  intros Hx Hu Hc Hn Hbx Hbu Hbc Hbn. split; [| reflexivity].
  unfold track_best.
  destruct (foldM_range_inv (track_best_element self x u fo)
    (fun i acc =>
       (length (best_x acc.1) = n_batch /\ length (best_u acc.1) = n_batch /\
        length (best_costs acc.1) = n_batch /\
        length (best_full_du_norm acc.1) = n_batch) /\
       (forall j, best_at acc.1 j
                  = if (j <? i)%nat && improves self fo best j
                    then iterate_at x u fo j else best_at best j) /\
       acc.2 = if existsb (improves self fo best) (seq 0 i) then 0%Z
               else (n + 1)%Z)
    n_batch (best, (n + 1)%Z)) as ([best' n'] & Hrun & Hlen & Hat & Hcnt).
  - done.
  - intros i [b k] Hi ((Hlx & Hlu & Hlc & Hln) & Hat & Hk).
    cbn [fst snd] in *. rewrite track_best_element_eq.
    destruct (lookup_lt_is_Some_2 (costs fo) i) as [ci Hci]; [lia |].
    destruct (lookup_lt_is_Some_2 (full_du_norm fo) i) as [ni Hni]; [lia |].
    destruct (lookup_lt_is_Some_2 (best_costs best) i) as [bi Hbi]; [lia |].
    assert (Hbi' : best_costs b !! i = Some bi).
    { specialize (Hat i). rewrite Nat.ltb_irrefl in Hat. cbn [andb] in Hat.
      unfold best_at in Hat. injection Hat as _ _ Hc' _. congruence. }
    rewrite (getitem_ok _ _ _ Hci), bind_pure.
    rewrite (getitem_ok _ _ _ Hbi'), bind_pure.
    assert (Himp : improves self fo best i = Qle_bool ci (bi - best_cost_eps self))
      by (unfold improves; by rewrite Hci, Hbi).
    rewrite existsb_range_S, Himp.
    destruct (Qle_bool ci (bi - best_cost_eps self)) eqn:Hle.
    + rewrite (select_batch_ok x), (select_batch_ok u) by lia.
      rewrite (getitem_ok _ _ _ Hni).
      repeat (rewrite bind_pure || rewrite setitem_ok by lia).
      eexists. split; [reflexivity |]. cbn [fst snd best_x best_u best_costs
        best_full_du_norm]. rewrite !length_insert, orb_true_r.
      split; [done |]. split; [| done].
      intros j. unfold best_at. cbn [best_x best_u best_costs best_full_du_norm].
      destruct (decide (j = i)) as [-> | Hne].
      * rewrite !list_lookup_insert_eq by lia.
        replace (i <? S i)%nat with true by (symmetry; apply Nat.ltb_lt; lia).
        rewrite Himp. cbn. unfold iterate_at. by rewrite Hci, Hni.
      * rewrite !list_lookup_insert_ne by done.
        specialize (Hat j). unfold best_at in Hat. rewrite Hat.
        replace (j <? S i)%nat with (j <? i)%nat; [done |].
        destruct (j <? i)%nat eqn:E1, (j <? S i)%nat eqn:E2; try done;
          [apply Nat.ltb_lt in E1; apply Nat.ltb_ge in E2
          | apply Nat.ltb_ge in E1; apply Nat.ltb_lt in E2]; lia.
    + eexists. split; [reflexivity |]. cbn [fst snd]. rewrite orb_false_r.
      split; [done |]. split; [| done].
      intros j. rewrite Hat.
      destruct (decide (j = i)) as [-> | Hne].
      * rewrite Nat.ltb_irrefl, Himp, !andb_false_r. reflexivity.
      * replace (j <? S i)%nat with (j <? i)%nat; [done |].
        destruct (j <? i)%nat eqn:E1, (j <? S i)%nat eqn:E2; try done;
          [apply Nat.ltb_lt in E1; apply Nat.ltb_ge in E2
          | apply Nat.ltb_ge in E1; apply Nat.ltb_lt in E2]; lia.
  - exists best', n'. split; [done |]. cbn [fst snd] in *. split; [| done].
    intros j Hj. rewrite Hat.
    by replace (j <? n_batch)%nat with true by (symmetry; apply Nat.ltb_lt; lia).
Qed.

(** *** The outer loop *)

Lemma fold_max_in (rest : list Q) (a : Q) :
  fold_left (fun m b => if Qlt_bool m b then b else m) rest a ∈ a :: rest.
Proof.
  revert a. induction rest as [| b rest IH]; intros a; cbn [fold_left].
  - by left.
  - destruct (Qlt_bool a b).
    + right. apply IH.
    + specialize (IH a). apply elem_of_cons in IH as [-> | ?];
        [by left | by do 2 right].
Qed.

Lemma fold_max_upper (rest : list Q) (a : Q) :
  Forall (fun y => y <= fold_left (fun m b => if Qlt_bool m b then b else m) rest a)
         (a :: rest).
Proof.
  revert a. induction rest as [| b rest IH]; intros a; cbn [fold_left].
  - constructor; [lra | constructor].
  - specialize (IH (if Qlt_bool a b then b else a)).
    inversion IH as [| ? ? Hhd Htl]; subst.
    destruct (Qlt_bool a b) eqn:E.
    + apply Qlt_bool_iff in E. repeat constructor; [lra | done | done].
    + constructor; [done |]. constructor; [| done].
      destruct (Qlt_le_dec a b) as [Hlt | ?]; [| lra].
      apply Qlt_bool_iff in Hlt. congruence.
Qed.


Lemma pymax_above (e : Q) (l : list Q) w m :
  pymax l = (w, Ok m) -> (e < m <-> Exists (fun y => e < y) l).
Proof.
  destruct l as [| a rest]; [discriminate |]. intros [= _ <-].
  rewrite Exists_exists. split.
  - intros Hlt. eexists. split; [apply fold_max_in | done].
  - intros (y & Hy & Hlt).
    pose proof (fold_max_upper rest a) as Hall.
    rewrite Forall_forall in Hall. apply Hall in Hy. lra.
Qed.


Lemma loop_body_ok_inv (self : MPC) (C : quad_arg) (c : lin_arg)
    (dynamics : option dynamics) (n_batch : nat) (st st' : loop_state)
    (brk : bool) w :
  loop_body self C c dynamics n_batch st = (w, Ok (st', brk)) ->
  exists r best' n' w1 w2,
    track_best self n_batch (lqr_x r) (lqr_u r) (for_out r) (ls_best st)
               (ls_n_not_improved st + 1) = (w1, Ok (best', n')) /\
    stop_test self (for_out r) n' = (w2, Ok brk) /\
    ls_history st' = ls_history st ++
      [{| it_for_out := for_out r; it_n_not_improved := n'; it_best := best' |}] /\
    ls_best st' = Some best' /\ ls_n_not_improved st' = n' /\
    ls_for_out st' = Some (for_out r) /\ ls_u st' = lqr_u r.
Proof.
  unfold loop_body. intros Hrun.
  apply bind_ok_inv in Hrun as (w1 & [[x F] f] & w2 & _ & Hrun & _).
  apply bind_ok_inv in Hrun as (w3 & r & w4 & _ & Hrun & _).
  apply bind_ok_inv in Hrun as (w5 & [best' n'] & w6 & Htrack & Hrun & _).
  apply bind_ok_inv in Hrun as (w7 & [] & w8 & _ & Hrun & _).
  apply bind_ok_inv in Hrun as (w9 & brk' & w10 & Hstop & Hrun & _).
  injection Hrun as _ <- <-. exists r, best', n', w5, w9. by repeat split.
Qed.



Lemma setitem_ok_inv {A} (l : list A) i v w l' :
  setitem l i v = (w, Ok l') -> (i < length l)%nat /\ l' = <[i:=v]> l.
Proof.
  unfold setitem. case_bool_decide; [| discriminate].
  by intros [= _ <-].
Qed.

Lemma foldM_ok_inv {A B} (step : A -> B -> M A) (P : A -> Prop)
    (l : list B) (a0 : A) w a' :
  P a0 ->
  (forall a b w a', P a -> step a b = (w, Ok a') -> P a') ->
  foldM step l a0 = (w, Ok a') -> P a'.
Proof.
  intros H0 Hstep. revert a0 w H0.
  induction l as [| b l IH]; intros a0 w H0 Hrun; cbn [foldM] in Hrun.
  - by injection Hrun as _ <-.
  - apply bind_ok_inv in Hrun as (w1 & a1 & w2 & H1 & Hrun & _).
    eapply IH; [| done]. by eapply Hstep.
Qed.

Lemma track_best_cost_step (self : MPC) (n_batch : nat) (x u : traj)
    (fo : for_out_t) (b b' : best_t) (n n' : Z) w :
  0 <= best_cost_eps self ->
  track_best self n_batch x u fo (Some b) n = (w, Ok (b', n')) ->
  cost_step self b {| it_for_out := fo; it_n_not_improved := n'; it_best := b' |}.
Proof.
  intros Heps Hrun. unfold track_best in Hrun. unfold cost_step. cbn [it_best it_for_out].
  apply (foldM_ok_inv _ (fun acc =>
    length (best_costs acc.1) = length (best_costs b) /\
    forall j cj cj', best_costs b !! j = Some cj ->
      best_costs acc.1 !! j = Some cj' ->
      cj' = cj \/ (cj' <= cj - best_cost_eps self /\ costs fo !! j = Some cj')))
    in Hrun; [done | | ].
  - cbn [fst]. split; [done |]. intros j cj cj' H1 H2. left. congruence.
  - clear -Heps. intros [b1 k] j w [b2 k'] [Hlen Hinv] Hstep. cbn [fst] in *.
    rewrite track_best_element_eq in Hstep.
    apply bind_ok_inv in Hstep as (? & c0 & ? & Hc0 & Hstep & _).
    apply getitem_ok_inv in Hc0 as [Hc0 _].
    apply bind_ok_inv in Hstep as (? & b0 & ? & Hb0 & Hstep & _).
    apply getitem_ok_inv in Hb0 as [Hb0 _].
    destruct (Qle_bool c0 (b0 - best_cost_eps self)) eqn:Hle.
    2: { injection Hstep as _ <- _. by split. }
    apply Qle_bool_iff in Hle.
    apply bind_ok_inv in Hstep as (? & xj & ? & _ & Hstep & _).
    apply bind_ok_inv in Hstep as (? & bx & ? & _ & Hstep & _).
    apply bind_ok_inv in Hstep as (? & uj & ? & _ & Hstep & _).
    apply bind_ok_inv in Hstep as (? & bu & ? & _ & Hstep & _).
    apply bind_ok_inv in Hstep as (? & c1 & ? & Hc1 & Hstep & _).
    apply getitem_ok_inv in Hc1 as [Hc1 _].
    apply bind_ok_inv in Hstep as (? & bc & ? & Hbc & Hstep & _).
    apply setitem_ok_inv in Hbc as [Hj ->].
    apply bind_ok_inv in Hstep as (? & nj & ? & _ & Hstep & _).
    apply bind_ok_inv in Hstep as (? & bn & ? & _ & Hstep & _).
    injection Hstep as _ <- _. cbn [best_costs].
    rewrite length_insert. split; [done |].
    intros j' cj cj' Horig Hnew.
    destruct (decide (j' = j)) as [-> | Hne].
    + rewrite list_lookup_insert_eq in Hnew by done.
      injection Hnew as <-. assert (c1 = c0) as -> by congruence.
      right. split; [| done].
      destruct (Hinv j cj b0 Horig Hb0) as [-> | [Hlow _]]; lra.
    + rewrite list_lookup_insert_ne in Hnew by done. by eapply Hinv.
Qed.

Lemma outer_loop_cost_steps (self : MPC) (C : quad_arg) (c : lin_arg)
    (dynamics : option dynamics) (n_batch n : nat) (st st' : loop_state) w :
  0 <= best_cost_eps self ->
  outer_loop self C c dynamics n_batch n st = (w, Ok st') ->
  (forall k i i', ls_history st !! k = Some i ->
     ls_history st !! S k = Some i' -> cost_step self (it_best i) i') ->
  ls_best st = it_best <$> last (ls_history st) ->
  (forall k i i', ls_history st' !! k = Some i ->
     ls_history st' !! S k = Some i' -> cost_step self (it_best i) i') /\
  ls_best st' = it_best <$> last (ls_history st').
Proof.
  intros Heps. revert st w.
  induction n as [| n IH]; intros st w Hrun Hsteps Hbest; cbn [outer_loop] in Hrun.
  - injection Hrun as _ <-. by split.
  - apply bind_ok_inv in Hrun as (w1 & [st1 brk] & w2 & Hbody & Hrun & _).
    apply loop_body_ok_inv in Hbody
      as (r & best' & n' & w3 & w4 & Htrack & _ & Hh & Hb & _).
    set (info := {| it_for_out := for_out r; it_n_not_improved := n';
                    it_best := best' |}) in *.
    assert (Hsteps1 : forall k i i', ls_history st1 !! k = Some i ->
              ls_history st1 !! S k = Some i' -> cost_step self (it_best i) i').
    { intros k i i' Hi Hi'. rewrite Hh in Hi, Hi'.
      apply lookup_lt_Some in Hi' as Hlt. rewrite length_app in Hlt.
      simpl in Hlt.
      destruct (decide (S k < length (ls_history st))%nat) as [Hin | Hout].
      - rewrite lookup_app_l in Hi, Hi' by lia. by eapply Hsteps.
      - assert (S k = length (ls_history st)) as Hk by lia.
        rewrite lookup_app_l in Hi by lia.
        rewrite lookup_app_r in Hi' by lia.
        rewrite Hk, Nat.sub_diag in Hi'. injection Hi' as <-.
        rewrite last_lookup, <- Hk in Hbest. simpl in Hbest.
        rewrite Hi in Hbest. simpl in Hbest. rewrite Hbest in Htrack.
        by eapply track_best_cost_step. }
    assert (Hbest1 : ls_best st1 = it_best <$> last (ls_history st1))
      by (by rewrite Hh, last_snoc, Hb).
    destruct brk.
    + injection Hrun as _ <-. by split.
    + by eapply IH.
Qed.

Lemma cost_steps_chain (self : MPC) (h : list iter_info) :
  0 <= best_cost_eps self ->
  (forall k i i', h !! k = Some i -> h !! S k = Some i' ->
     cost_step self (it_best i) i') ->
  forall d k i i' j cj,
    h !! k = Some i -> h !! (k + d)%nat = Some i' ->
    best_costs (it_best i) !! j = Some cj ->
    exists cj', best_costs (it_best i') !! j = Some cj' /\ cj' <= cj.
Proof.
  intros Heps Hsteps. induction d as [| d IH]; intros k i i' j cj Hi Hi' Hj.
  - rewrite Nat.add_0_r in Hi'. assert (i' = i) as -> by congruence.
    exists cj. split; [done | lra].
  - destruct (lookup_lt_is_Some_2 h (k + d)) as [i1 Hi1].
    { apply lookup_lt_Some in Hi'. lia. }
    destruct (IH k i i1 j cj Hi Hi1 Hj) as (c1 & Hc1 & Hle).
    replace (k + S d)%nat with (S (k + d)) in Hi' by lia.
    destruct (Hsteps _ _ _ Hi1 Hi') as [Hlen Hstep].
    destruct (lookup_lt_is_Some_2 (best_costs (it_best i')) j) as [c' Hc'].
    { rewrite Hlen. by eapply lookup_lt_Some. }
    exists c'. split; [done |].
    destruct (Hstep j c1 c' Hc1 Hc') as [-> | [Hlow _]]; lra.
Qed.

(** C4: in every run of the outer loop, the best cost recorded for a
    batch element after a later pass is never above the one recorded
    after an earlier pass, and from one pass to the next an entry is
    either kept or overwritten by the cost of the new iterate, strictly
    lower, by at least [best_cost_eps]. *)
Theorem best_cost_non_increasing (self : MPC) (C : quad_arg) (c : lin_arg)
    (dynamics : option dynamics) (n_batch : nat) (st0 st' : loop_state) w :
  0 < best_cost_eps self ->
  ls_history st0 = [] -> ls_best st0 = None ->
  outer_loop self C c dynamics n_batch (lqr_iter self) st0 = (w, Ok st') ->
  forall k k' i i' j cj, (k <= k')%nat ->
    ls_history st' !! k = Some i -> ls_history st' !! k' = Some i' ->
    best_costs (it_best i) !! j = Some cj ->
    exists cj',
      best_costs (it_best i') !! j = Some cj' /\ cj' <= cj /\
      (k' = S k ->
       cj' = cj \/
       (cj' < cj /\ cj' <= cj - best_cost_eps self /\
        costs (it_for_out i') !! j = Some cj')).
Proof.
  intros Heps H0 Hb0 Hrun k k' i i' j cj Hk Hi Hi' Hj.
  apply outer_loop_cost_steps in Hrun as [Hsteps _];
    [| lra | by rewrite H0 | by rewrite H0, Hb0].
  replace k' with (k + (k' - k))%nat in Hi' by lia.
  destruct (cost_steps_chain self _ ltac:(lra) Hsteps _ _ _ _ _ _ Hi Hi' Hj)
    as (cj' & Hcj' & Hle).
  exists cj'. split; [done |]. split; [done |].
  intros ->. replace (k + (S k - k))%nat with (S k) in Hi' by lia.
  destruct (Hsteps _ _ _ Hi Hi') as [_ Hstep].
  destruct (Hstep j cj cj' Hj Hcj') as [-> | [Hlow Hc]]; [by left |].
  right. split; [lra | by split].
Qed.

(** *** After the loop *)

Lemma mask_entry_val (i : bool) (g : gvar) :
  val (mask_entry (float_of_bool i) g) == val g.
Proof. destruct i; simpl; ring. Qed.

Lemma mask_entry_grad (i : bool) (g : gvar) :
  grad (mask_entry (float_of_bool i) g) == (if i then grad g else 0).
Proof. destruct i; simpl; ring. Qed.

Lemma apply_mask_entry (I : list bool) (x : gtraj) t b d :
  entry (apply_mask I x) t b d
  = i ← I !! b; g ← entry x t b d; Some (mask_entry (float_of_bool i) g).
Proof.
  unfold entry, apply_mask. rewrite list_lookup_fmap.
  destruct (x !! t) as [row |]; cbn; [| by destruct (I !! b)].
  rewrite lookup_zip_with.
  destruct (I !! b) as [i |]; cbn; [| done].
  destruct (row !! b) as [v |]; cbn; [| done].
  by rewrite list_lookup_fmap.
Qed.

Lemma size1_shape {A} (n : nat) (x : list (list A)) :
  x <> [] -> Forall (fun row => length row = n) x -> size1 x = n.
Proof. destruct x; [done |]. intros _ Hx. by inversion Hx. Qed.

Lemma apply_mask_masked (eps : Q) (norms : list Q) (x : gtraj) :
  Forall (fun row => length row = length norms) x ->
  masked_by eps norms x (apply_mask (map (fun n => Qlt_bool n eps) norms) x).
Proof.
  intros Hx t b d g Hg. rewrite apply_mask_entry, list_lookup_fmap, Hg.
  assert (Hb : (b < length norms)%nat).
  { unfold entry in Hg. apply bind_Some in Hg as (row & Hrow & Hg).
    apply bind_Some in Hg as (v & Hv & _).
    rewrite Forall_lookup in Hx. rewrite <- (Hx _ _ Hrow).
    by eapply lookup_lt_Some. }
  destruct (lookup_lt_is_Some_2 norms b Hb) as [nb Hnb].
  rewrite Hnb. cbn. exists nb. eexists. split; [done |]. split; [done |].
  split; [apply mask_entry_val | apply mask_entry_grad].
Qed.

Lemma pymax_nonempty (l : list Q) :
  l <> [] -> exists m, pymax l = mret m.
Proof. destruct l; [done |]. by eexists. Qed.

(** The stage after the loop, as the code has it: the check is made
    only with [detach_unconverged] on.  Then, if the recorded full
    control-step norm of some batch element exceeds [eps]: with
    [exit_unconverged] the solve fails on an assertion; without it the
    warning is printed when [verbose >= 0] and the solve returns the
    trajectory of every element with its values unchanged, entries of the
    elements outside the mask computed from the step norms [fo] detached.
    In every other case the outputs are returned as they are, with no
    check. *)
Theorem detach_stage_behaviour (self : MPC) (best : best_t) (fo : for_out_t)
    (x u : gtraj) :
  best_full_du_norm best <> [] -> x <> [] -> u <> [] ->
  Forall (fun row => length row = length (full_du_norm fo)) x ->
  Forall (fun row => length row = length (full_du_norm fo)) u ->
  (detach_unconverged self = true ->
   Exists (fun y => eps self < y) (best_full_du_norm best) ->
   (exit_unconverged self = true ->
    detach_stage self best (Some fo) x u = ([], Raise (AssertionError ""))) /\
   (exit_unconverged self = false ->
    exists x' u',
      detach_stage self best (Some fo) x u
      = (if (0 <=? verbose self)%Z then unconverged_warning else [],
         Ok (x', u')) /\
      masked_by (eps self) (full_du_norm fo) x x' /\
      masked_by (eps self) (full_du_norm fo) u u')) /\
  (detach_unconverged self = false \/
   ~ Exists (fun y => eps self < y) (best_full_du_norm best) ->
   detach_stage self best (Some fo) x u = ([], Ok (x, u))).
Proof.
  intros Hbn Hxne Hune Hx Hu. unfold detach_stage.
  destruct (pymax_nonempty _ Hbn) as [m Hm].
  pose proof (pymax_above (eps self) _ [] m Hm) as Hex.
  split.
  - intros -> Hun. rewrite Hm, !bind_pure. cbv beta.
    apply Hex, Qlt_bool_iff in Hun. rewrite Hun.
    split; [by intros -> |]. intros ->. rewrite bind_pure.
    exists (apply_mask (map (fun n => Qlt_bool n (eps self)) (full_du_norm fo)) x),
           (apply_mask (map (fun n => Qlt_bool n (eps self)) (full_du_norm fo)) u).
    split; [| split; by apply apply_mask_masked].
    unfold expand_as. rewrite length_map.
    rewrite (size1_shape _ x Hxne Hx), (size1_shape _ u Hune Hu), Nat.eqb_refl.
    by destruct (0 <=? verbose self)%Z.
  - intros [-> | Hnot]; [done |].
    destruct (detach_unconverged self); [| done].
    rewrite Hm, bind_pure.
    destruct (Qlt_bool (eps self) m) eqn:E; [| done].
    apply Qlt_bool_iff, Hex in E. done.
Qed.

(** *** Attached outputs *)

Lemma attach_entry (u : traj) t b d g :
  entry (attach u) t b d = Some g -> entry u t b d = Some (val g).
Proof.
  unfold entry, attach. rewrite list_lookup_fmap.
  destruct (u !! t) as [row |]; cbn; [| done].
  rewrite list_lookup_fmap.
  destruct (row !! b) as [v |]; cbn; [| done].
  rewrite list_lookup_fmap.
  destruct (v !! d) as [q |]; cbn; [| done]. by intros [= <-].
Qed.

End SolverProperties.

Lemma forward_batch_size_witness :
  let _ := table_collaborators [] in
  let self := small_MPC 2 None 10 ANALYTIC 0 (1 # 10) None true true 5 (1 # 10) in
  let self3 := small_MPC 3 None 10 ANALYTIC 0 (1 # 10) (Some 3%nat) true true 5 (1 # 10) in
  forward self (C_4d unit_C) (c_2d zero_c) None
  = solve_with_batch self (C_4d unit_C) (c_2d zero_c) None 2 /\
  forward self3 (C_3d [[[1; 0]; [0; 1]]]) (c_2d zero_c) None
  = solve_with_batch self3 (C_3d [[[1; 0]; [0; 1]]]) (c_2d zero_c) None 3 /\
  forward self (C_3d [[[1; 0]; [0; 1]]]) (c_2d zero_c) None
  = ([], Raise (AssertionError
                  "Could not infer batch size, pass in as n_batch")).
Proof.
  intros ? self self3. split; [| split].
  - apply (proj1 (forward_batch_size self (C_4d unit_C) _ _)). reflexivity.
  - apply (proj1 (proj2 (forward_batch_size self3 (C_3d _) _ _))).
    + simpl. lia.
    + reflexivity.
  - apply (proj2 (proj2 (forward_batch_size self (C_3d _) _ _))).
    + simpl. lia.
    + reflexivity.
Defined.

Lemma analytic_check_stops_at_assertion_witness :
  let _ := table_collaborators [] in
  let self := small_MPC 2 None 10 ANALYTIC_CHECK 0 (1 # 10) None true true 5 (1 # 10) in
  result (linearize_dynamics self [[[1]; [2]]; [[4]; [6]]]
            [[[3]; [4]]; [[0]; [0]]] integrator false)
  = Raise (AssertionError "").
Proof.
  intros ? self.
  apply (proj2 (proj2 (analytic_check_stops_at_assertion self _ _ _ _ eq_refl)));
    [discriminate | discriminate | simpl; lia | simpl; lia].
Defined.

(** C6 as stated fails: on an integrator whose analytic and automatic
    Jacobians agree, the call neither prints a message nor exits. *)
Lemma analytic_check_no_cross_validation :
  let _ := table_collaborators [] in
  let self := small_MPC 2 None 10 ANALYTIC_CHECK 0 (1 # 10) None true true 5 (1 # 10) in
  let r := linearize_dynamics self [[[1]; [2]]; [[4]; [6]]]
             [[[3]; [4]]; [[0]; [0]]] integrator false in
  ~ (exists msg code, printed r = [Print msg] /\ result r = Raise (SystemExit code)).
Proof.
  intros ? self r [msg [code [Hp _]]]. vm_compute in Hp. discriminate.
Qed.

Lemma linearize_dynamics_residual_witness :
  let _ := table_collaborators [] in
  let analytic := small_MPC 2 None 10 ANALYTIC 0 (1 # 10) None true true 5 (1 # 10) in
  let finite := small_MPC 2 None 10 FINITE_DIFF 0 (1 # 10) None true true 5 (1 # 10) in
  let x := [[[5]; [0]]; [[32]; [7]]] in
  let u := [[[7]; [2]]; [[0]; [0]]] in
  linearize_dynamics analytic x u affine_dynamics false
  = ([], Ok ([[[[2; 3]]; [[2; 3]]]], [[[1]; [1]]])) /\
  forall self, self = analytic \/ self = finite ->
  exists F f,
    linearize_dynamics self x u affine_dynamics false = ([], Ok (F, f)) /\
    length F = 1%nat /\ length f = 1%nat /\
    forall t b xt ut, (t < 1)%nat ->
      at_tb x t b = Some xt -> at_tb u t b = Some ut ->
      exists Ftb ftb,
        at_tb F t b = Some Ftb /\ at_tb f t b = Some ftb /\
        side_by_side 1 1 (fst (strategy_jacobian self affine_dynamics xt ut))
                     (snd (strategy_jacobian self affine_dynamics xt ut)) Ftb /\
        length ftb = 1%nat /\
        forall i, (i < 1)%nat ->
          nth i ftb 0 == taylor_remainder (dyn affine_dynamics xt ut) Ftb xt ut i.
Proof.
  intros collab analytic finite x u. split; [vm_compute; reflexivity |].
  assert (Hx : well_shaped 2 2 x) by (split; [reflexivity | repeat constructor]).
  assert (Hu : well_shaped 2 2 u) by (split; [reflexivity | repeat constructor]).
  assert (Hxn : Forall (Forall (fun v : vec => length v = 1%nat)) x)
    by repeat constructor.
  assert (Hun : Forall (Forall (fun v : vec => length v = 1%nat)) u)
    by repeat constructor.
  intros self [-> | ->].
  - apply (linearize_dynamics_residual analytic x u affine_dynamics false 2);
      [discriminate | simpl; lia | lia | simpl; lia | simpl; lia
      | exact Hx | exact Hu | exact Hxn | exact Hun | | by left].
    intros t b xt ut Ht Hxt Hut.
    destruct t as [| t]; [| simpl in Ht; lia].
    destruct b as [| [| b]]; [| | discriminate];
      injection Hxt as <-; injection Hut as <-;
      (split; [reflexivity | repeat split; repeat constructor]).
  - apply (linearize_dynamics_residual finite x u affine_dynamics false 2);
      [discriminate | simpl; lia | lia | simpl; lia | simpl; lia
      | exact Hx | exact Hu | exact Hxn | exact Hun | |].
    + intros t b xt ut Ht Hxt Hut.
      destruct t as [| t]; [| simpl in Ht; lia].
      destruct b as [| [| b]]; [| | discriminate];
        injection Hxt as <-; injection Hut as <-;
        (split; [reflexivity | repeat split; repeat constructor]).
    + right. intros t xt ut Hxt Hut Hlt.
      destruct t as [| [| t']]; simpl in *; [by simplify_eq | lia | lia].
Defined.

Lemma track_best_per_element_witness :
  let collab := table_collaborators [] in
  let self := small_MPC 2 None 10 ANALYTIC 0 (1 # 10) None true true 5 (1 # 10) in
  let x := [[[1]; [2]]; [[3]; [4]]] in
  let u := [[[5]; [6]]; [[7]; [8]]] in
  let fo := mkForOut [1; 5] [0; 1] 1 in
  let best := mkBest (split_batch zero_u) (split_batch zero_u) [5; 5] [1; 1] in
  (exists best' n',
     track_best self 2 x u fo (Some best) (3 + 1) = ([], Ok (best', n')) /\
     (forall j, (j < 2)%nat ->
        best_at best' j
        = if improves self fo best j then iterate_at x u fo j
          else best_at best j) /\
     n' = if existsb (improves self fo best) (seq 0 2) then 0%Z
          else (3 + 1)%Z) /\
  track_best self 2 x u fo None (3 + 1)
  = ([], Ok ({| best_x := split_batch x; best_u := split_batch u;
                best_costs := costs fo;
                best_full_du_norm := full_du_norm fo |}, (3 + 1)%Z)).
Proof.
  intros collab self x u fo best.
  apply (track_best_per_element self 2 x u fo best 3); reflexivity.
Defined.

(** C2 as stated fails on two counts.  In a batch of two whose second
    element does not improve (its cost stays at 5), the counter is not
    incremented from 3 to 4 but reset, because the first element
    improves; and an element whose cost is lower by the margin exactly,
    not by more, is adopted and resets the counter. *)
Lemma per_element_counter_fails :
  let collab := table_collaborators [] in
  let self := small_MPC 2 None 10 ANALYTIC 0 (1 # 10) None true true 5 (1 # 10) in
  let x := [[[1]; [2]]; [[3]; [4]]] in
  let u := [[[5]; [6]]; [[7]; [8]]] in
  let fo := mkForOut [1; 5] [0; 1] 1 in
  let best := mkBest (split_batch zero_u) (split_batch zero_u) [5; 5] [1; 1] in
  let x1 := [[[1]]; [[3]]] in
  let u1 := [[[5]]; [[7]]] in
  let fo1 := mkForOut [49 # 10] [1] 1 in
  let best1 := mkBest (split_batch [[[0]]; [[0]]]) (split_batch [[[0]]; [[0]]])
                      [5] [1] in
  ~ (forall j cj bj,
       costs fo !! j = Some cj -> best_costs best !! j = Some bj ->
       ~ cj < bj - best_cost_eps self ->
       exists best' n',
         track_best self 2 x u fo (Some best) (3 + 1) = ([], Ok (best', n')) /\
         n' = (3 + 1)%Z) /\
  ~ (forall j cj bj,
       costs fo1 !! j = Some cj -> best_costs best1 !! j = Some bj ->
       ~ cj < bj - best_cost_eps self ->
       exists best' n',
         track_best self 1 x1 u1 fo1 (Some best1) (3 + 1) = ([], Ok (best', n')) /\
         n' = (3 + 1)%Z /\ best_at best' j = best_at best1 j).
Proof.
  intros collab self x u fo best x1 u1 fo1 best1. split; intros Hclaim.
  - destruct (Hclaim 1%nat 5 5 eq_refl eq_refl) as (best' & n' & Hrun & Hn').
    + vm_compute. intros Hlt. discriminate.
    + vm_compute in Hrun. subst n'. discriminate.
  - destruct (Hclaim 0%nat (49 # 10) 5 eq_refl eq_refl)
      as (best' & n' & Hrun & Hn' & _).
    + vm_compute. intros Hlt. discriminate.
    + vm_compute in Hrun. subst n'. discriminate.
Qed.


Lemma best_cost_non_increasing_witness :
  let collab := table_collaborators four_passes in
  let self := small_MPC 2 None 10 ANALYTIC 0 (1 # 10) None true true 5 (1 # 10) in
  exists w st',
    outer_loop self (C_4d unit_C) (c_2d zero_c) None 2 10
               (initial_state self zero_u) = (w, Ok st') /\
    forall k k' i i' j cj, (k <= k')%nat ->
      ls_history st' !! k = Some i -> ls_history st' !! k' = Some i' ->
      best_costs (it_best i) !! j = Some cj ->
      exists cj',
        best_costs (it_best i') !! j = Some cj' /\ cj' <= cj /\
        (k' = S k ->
         cj' = cj \/
         (cj' < cj /\ cj' <= cj - best_cost_eps self /\
          costs (it_for_out i') !! j = Some cj')).
Proof.
  intros collab self. eexists _, _. split; [vm_compute; reflexivity |].
  eapply (best_cost_non_increasing self (C_4d unit_C) (c_2d zero_c) None 2
            (initial_state self zero_u)); [reflexivity | reflexivity | reflexivity |].
  vm_compute. reflexivity.
Defined.

Lemma detach_stage_behaviour_witness :
  let collab := table_collaborators [] in
  let tolerant := small_MPC 2 None 10 ANALYTIC 0 (1 # 10) None false true 5 (1 # 10) in
  let best := mkBest (split_batch zero_u) (split_batch zero_u) [5; 5] [1; 0] in
  let fo := mkForOut [5; 5] [1; 0] 1 in
  let x := attach zero_u in
  exists x' u',
    detach_stage tolerant best (Some fo) x x
    = (unconverged_warning, Ok (x', u')) /\
    masked_by (1 # 10) [1; 0] x x' /\ masked_by (1 # 10) [1; 0] x u'.
Proof.
  intros collab tolerant best fo x.
  destruct (detach_stage_behaviour tolerant best fo x x) as [Hdet _];
    [discriminate | discriminate | discriminate
    | repeat constructor | repeat constructor |].
  destruct Hdet as [_ Htol]; [reflexivity | |].
  - apply Exists_cons_hd. reflexivity.
  - exact (Htol eq_refl).
Defined.

(** * Further properties of the solver *)

(** ** The constructor *)

(** X1: the constructor succeeds exactly when the bounds come in a pair,
    [max_linesearch_iter] is positive, there is no residual [f], and [F]
    is not combined with a slew-rate penalty; it then returns its
    arguments unchanged.  [F] with a slew-rate penalty fails with
    "unimplemented", a non-positive [max_linesearch_iter] with an
    assertion. *)
Theorem init_succeeds_iff (a : MPC) :
  ((exists w a', __init__ a = (w, Ok a')) <->
   is_None (u_lower a) = is_None (u_upper a) /\
   (0 < max_linesearch_iter a)%Z /\ f a = None /\
   (slew_rate_penalty a = None \/ F a = None)) /\
  (forall w a', __init__ a = (w, Ok a') -> w = [] /\ a' = a) /\
  (is_None (u_lower a) = is_None (u_upper a) ->
   (0 < max_linesearch_iter a)%Z -> f a = None ->
   slew_rate_penalty a <> None -> F a <> None ->
   __init__ a = ([], Raise (AssertionError "unimplemented"))) /\
  (is_None (u_lower a) = is_None (u_upper a) ->
   (max_linesearch_iter a <= 0)%Z ->
   __init__ a = ([], Raise (AssertionError ""))).
Proof.
  assert (Hinv : forall w a', __init__ a = (w, Ok a') ->
            w = [] /\ a' = a /\
            is_None (u_lower a) = is_None (u_upper a) /\
            (0 < max_linesearch_iter a)%Z /\ f a = None /\
            (slew_rate_penalty a = None \/ F a = None)).
  { intros w a'. unfold __init__.
    destruct (u_lower a), (u_upper a), (0 <? max_linesearch_iter a)%Z eqn:Hls,
      (f a), (slew_rate_penalty a), (F a); cbn; intros [= <- <-];
      apply Z.ltb_lt in Hls; auto 10. }
  split; [split |].
  - intros (w & a' & Hok). by apply Hinv in Hok as (_ & _ & ?).
  - intros (Hb & Hls & Hf & Hs). exists [], a. by apply init_accepts.
  - split; [intros w a' Hok; by apply Hinv in Hok as (? & ? & _) |].
    unfold __init__. split.
    + intros -> Hls -> Hs HF. apply Z.ltb_lt in Hls.
      rewrite eqb_reflx, Hls.
      by destruct (slew_rate_penalty a), (F a).
    + intros -> Hls. apply Z.ltb_ge in Hls. by rewrite eqb_reflx, Hls.
Qed.

Lemma init_succeeds_iff_witness :
  __init__ (mkMPC 1 1 2 [[0]] None None None None 10 ANALYTIC None 0
              (1 # 10) (1 # 10) None (1 # 5) 10 true true true
              (Some [[[[1; 1]]]]) None (Some (1 # 2)) None 5 (1 # 10000))
  = ([], Raise (AssertionError "unimplemented")) /\
  __init__ (mkMPC 1 1 2 [[0]] None None None None 10 ANALYTIC None 0
              (1 # 10) (1 # 10) None (1 # 5) 0 true true true
              None None None None 5 (1 # 10000))
  = ([], Raise (AssertionError "")).
Proof.
  split.
  - apply (proj1 (proj2 (proj2 (init_succeeds_iff _)))); simpl; try done; lia.
  - apply (proj2 (proj2 (proj2 (init_succeeds_iff _)))); simpl; try done; lia.
Defined.

(** ** Entry and edge behaviour of [forward] *)

Section ForwardEdges.
Context `{Collaborators}.

Lemma outer_loop_zero (self : MPC) (C : quad_arg) (c : lin_arg)
    (dynamics : option dynamics) (n_batch : nat) (st : loop_state) :
  outer_loop self C c dynamics n_batch 0 st = mret st.
Proof. reflexivity. Qed.

Lemma finish_needs_best (self : MPC) (C : quad_arg) (c : lin_arg)
    (dynamics : option dynamics) (st : loop_state) :
  ls_best st = None -> finish self C c dynamics st = ([], Raise TypeError).
Proof. intros Hb. unfold finish. by rewrite Hb. Qed.

Lemma solve_with_batch_ok_inv (self : MPC) (C : quad_arg) (c : lin_arg)
    (dynamics : option dynamics) (n_batch : nat) w out :
  solve_with_batch self C c dynamics n_batch = (w, Ok out) ->
  length (x_init self) = n_batch /\
  exists C' c' u w1 st w2,
    outer_loop self C' c' dynamics n_batch (lqr_iter self)
               (initial_state self u) = (w1, Ok st) /\
    finish self C' c' dynamics st = (w2, Ok out).
Proof.
  unfold solve_with_batch. intros Hrun.
  apply bind_ok_inv in Hrun as (? & C' & ? & _ & Hrun & _).
  apply bind_ok_inv in Hrun as (? & c' & ? & _ & Hrun & _).
  apply bind_ok_inv in Hrun as (? & [] & ? & Hx & Hrun & _).
  apply bind_ok_inv in Hrun as (? & u & ? & _ & Hrun & _).
  apply bind_ok_inv in Hrun as (? & [] & ? & _ & Hrun & _).
  apply bind_ok_inv in Hrun as (w1 & st & w2 & Hloop & Hfin & _).
  split.
  - unfold assert_ in Hx.
    destruct (length (x_init self) =? n_batch)%nat eqn:E; [| discriminate].
    by apply Nat.eqb_eq.
  - by exists C', c', u, w1, st, w2.
Qed.

(** X2: with [lqr_iter = 0] the loop body never runs, [best] stays
    [None], and [forward] never returns: once the entry checks pass it
    ends in the [TypeError] of [best['x']]. *)
Theorem forward_without_iterations (self : MPC) (C : quad_arg) (c : lin_arg)
    (dynamics : option dynamics) :
  lqr_iter self = 0%nat ->
  (forall w out, forward self C c dynamics <> (w, Ok out)) /\
  (forall Cm cm, C = C_4d Cm -> c = c_3d cm ->
     length (x_init self) = size1 Cm -> u_init self = None ->
     (verbose self <= 0)%Z ->
     forward self C c dynamics = ([], Raise TypeError)).
Proof.
  intros H0. split.
  - intros w out Hrun. unfold forward in Hrun.
    apply bind_ok_inv in Hrun as (? & nb & ? & _ & Hrun & _).
    apply solve_with_batch_ok_inv in Hrun
      as (_ & C' & c' & u & w1 & st & w2 & Hloop & Hfin).
    rewrite H0, outer_loop_zero in Hloop. injection Hloop as _ <-.
    rewrite finish_needs_best in Hfin by done. discriminate.
  - intros Cm cm -> -> Hx Hu Hv. unfold forward, infer_n_batch.
    cbn [C_ndimension C_size1 Nat.eqb]. rewrite bind_pure.
    unfold solve_with_batch. rewrite !bind_pure, Hx, Nat.eqb_refl.
    cbn [assert_]. rewrite bind_pure, Hu, bind_pure.
    replace (0 <? verbose self)%Z with false by (symmetry; apply Z.ltb_ge; lia).
    rewrite bind_pure, H0, outer_loop_zero, bind_pure.
    by apply finish_needs_best.
Qed.

(** X3: [forward] returns only if [x_init] has one row per batch element;
    for a rank-4 [C] whose batch dimension differs from the number of
    rows of [x_init], the assertion of line 172 fails before any solve. *)
Theorem forward_checks_x_init (self : MPC) (C : quad_arg) (c : lin_arg)
    (dynamics : option dynamics) :
  (forall w out, forward self C c dynamics = (w, Ok out) ->
     exists n, infer_n_batch self C = mret n /\ length (x_init self) = n) /\
  (forall Cm cm, C = C_4d Cm -> c = c_3d cm ->
     length (x_init self) <> size1 Cm ->
     forward self C c dynamics = ([], Raise (AssertionError ""))).
Proof.
  split.
  - intros w out Hrun. unfold forward in Hrun.
    apply bind_ok_inv in Hrun as (w1 & nb & ? & Hnb & Hrun & _).
    apply solve_with_batch_ok_inv in Hrun as (Hx & _).
    exists nb. split; [| done].
    unfold infer_n_batch in *. destruct (C_ndimension C =? 4)%nat.
    + by injection Hnb as <- <-.
    + destruct (n_batch self); [by injection Hnb as <- <- | discriminate].
  - intros Cm cm -> -> Hx. unfold forward, infer_n_batch.
    cbn [C_ndimension C_size1 Nat.eqb]. rewrite bind_pure.
    unfold solve_with_batch. rewrite !bind_pure.
    apply Nat.eqb_neq in Hx. by rewrite Hx.
Qed.

Lemma expand_dim_id {A} (n : nat) (m : list A) :
  length m = n -> expand_dim n m = mret m.
Proof. intros <-. unfold expand_dim. by rewrite Nat.eqb_refl. Qed.

Lemma mapM_expand_dim_id {A} (n : nat) (l : list (list A)) :
  Forall (fun m => length m = n) l -> mapM (expand_dim n) l = mret l.
Proof.
  induction 1 as [| m l Hm _ IH]; cbn [mapM]; [done |].
  by rewrite (expand_dim_id _ _ Hm), bind_pure, IH, !bind_pure.
Qed.

Lemma expand_batch_full {A} (T n_batch : nat) (rows : list A) :
  length rows = T ->
  expand_batch T n_batch rows = mret (map (fun r => repeat r n_batch) rows).
Proof. intros <-. unfold expand_batch. by rewrite Nat.eqb_refl. Qed.

(** X4: a cost given without a batch dimension ([C] of rank 3, [c] of
    rank 2, shaped for the horizon and [n_state + n_ctrl]) is solved
    exactly like the same cost repeated for each of the [n_batch]
    configured batch elements. *)
Theorem forward_unbatched_cost (self : MPC) (Cm : list mat) (cm : list vec)
    (dynamics : option dynamics) (nb : nat) :
  n_batch self = Some nb -> (1 <= T self)%nat ->
  length Cm = T self -> length cm = T self ->
  Forall (fun m => length m = (n_state self + n_ctrl self)%nat) Cm ->
  forward self (C_3d Cm) (c_2d cm) dynamics
  = forward self (C_4d (map (fun m => repeat m nb) Cm))
                 (c_3d (map (fun v => repeat v nb) cm)) dynamics.
Proof.
  intros Hnb HT HC Hc Hrows. unfold forward, infer_n_batch.
  cbn [C_ndimension C_size1 Nat.eqb]. rewrite Hnb, !bind_pure.
  assert (size1 (map (fun m : mat => repeat m nb) Cm) = nb) as ->.
  { destruct Cm; [simpl in HC; lia |]. cbn. apply repeat_length. }
  unfold solve_with_batch.
  rewrite (mapM_expand_dim_id _ _ Hrows), bind_pure.
  rewrite (expand_batch_full _ _ _ HC), !bind_pure.
  by rewrite (expand_batch_full _ _ _ Hc), !bind_pure.
Qed.

Lemma solve_lqr_subproblem_slew_needs_dynamics (self : MPC)
    (x_init : list vec) (C : quad_arg) (c : lin_arg) (F : option jacs)
    (f : option traj) (x u : traj) (no_op : bool) w r :
  slew_rate_penalty self <> None ->
  solve_lqr_subproblem self x_init C c F f None x u no_op <> (w, Ok r).
Proof.
  intros Hs Hrun. unfold solve_lqr_subproblem in Hrun.
  destruct (slew_rate_penalty self) as [gam |]; [| done].
  apply bind_ok_inv in Hrun as (? & Cm & ? & _ & Hrun & _).
  apply bind_ok_inv in Hrun as (? & cm & ? & _ & Hrun & _).
  apply bind_ok_inv in Hrun as (? & Fm & ? & _ & Hrun & _).
  apply bind_ok_inv in Hrun as (? & p0 & ? & _ & Hrun & _).
  apply bind_ok_inv in Hrun as (? & d' & ? & Hd & _). discriminate.
Qed.

Lemma finish_ok_inv (self : MPC) (C : quad_arg) (c : lin_arg)
    (dynamics : option dynamics) (st : loop_state) w x u costs :
  finish self C c dynamics st = (w, Ok (x, u, costs)) ->
  exists best xb ub F f w1 r w2,
    ls_best st = Some best /\
    cat_dim1 (best_x best) = mret xb /\ cat_dim1 (best_u best) = mret ub /\
    solve_lqr_subproblem self (x_init self) C c F f dynamics xb ub true
    = (w1, Ok r) /\
    detach_stage self best (ls_for_out st) (attach (lqr_x r))
                 (attach (lqr_u r)) = (w2, Ok (x, u)) /\
    costs = best_costs best.
Proof.
  unfold finish. intros Hrun.
  apply bind_ok_inv in Hrun as (? & best & ? & Hb & Hrun & _).
  apply bind_ok_inv in Hrun as (? & xb & ? & Hxb & Hrun & _).
  apply bind_ok_inv in Hrun as (? & ub & ? & Hub & Hrun & _).
  apply bind_ok_inv in Hrun as (? & [F' f'] & ? & _ & Hrun & _).
  apply bind_ok_inv in Hrun as (w1 & r & ? & Hsolve & Hrun & _).
  apply bind_ok_inv in Hrun as (w2 & [x' u'] & ? & Hdet & Hrun & _).
  injection Hrun as _ <- <- <-.
  exists best, xb, ub, F', f', w1, r, w2.
  destruct (ls_best st); [injection Hb as _ -> | discriminate].
  destruct (best_x best); [discriminate | injection Hxb as _ <-].
  destruct (best_u best); [discriminate | injection Hub as _ <-].
  done.
Qed.

(** X5: the slew-rate penalty needs the dynamics callback.  With a
    penalty configured and [dynamics = None], [solve_lqr_subproblem]
    never returns, whatever its other arguments (it stops at the missing
    [F] or, at the latest, at the unbound [_dynamics] of line 368), and
    neither does [forward]. *)
Theorem slew_rate_needs_dynamics (self : MPC) :
  slew_rate_penalty self <> None ->
  (forall C c w out, forward self C c None <> (w, Ok out)) /\
  (forall x_init C c F f x u no_op w r,
     solve_lqr_subproblem self x_init C c F f None x u no_op <> (w, Ok r)).
Proof.
  intros Hs. split.
  - intros C c w out Hrun. unfold forward in Hrun.
    apply bind_ok_inv in Hrun as (? & nb & ? & _ & Hrun & _).
    apply solve_with_batch_ok_inv in Hrun
      as (_ & C' & c' & u & w1 & st & w2 & _ & Hfin).
    destruct out as [[xo uo] co].
    apply finish_ok_inv in Hfin
      as (best & xb & ub & F & f & w3 & r & w4 & _ & _ & _ & Hsolve & _).
    by eapply solve_lqr_subproblem_slew_needs_dynamics.
  - intros x_init C c F f x u no_op w r.
    by apply solve_lqr_subproblem_slew_needs_dynamics.
Qed.

End ForwardEdges.

(** ** The best record over the passes of the loop *)

Section BestRecord.
Context `{Collaborators}.

Lemma track_best_element_ok_inv (self : MPC) (x u : traj) (fo : for_out_t)
    (b b' : best_t) (n n' : Z) (j : nat) w :
  track_best_element self x u fo (b, n) j = (w, Ok (b', n')) ->
  exists cj bj,
    costs fo !! j = Some cj /\ best_costs b !! j = Some bj /\
    ((Qle_bool cj (bj - best_cost_eps self) = false /\ b' = b /\ n' = n) \/
     (Qle_bool cj (bj - best_cost_eps self) = true /\ n' = 0%Z /\
      exists nj,
        full_du_norm fo !! j = Some nj /\
        (j < length (best_costs b))%nat /\
        (j < length (best_full_du_norm b))%nat /\
        best_costs b' = <[j:=cj]> (best_costs b) /\
        best_full_du_norm b' = <[j:=nj]> (best_full_du_norm b))).
Proof.
  rewrite track_best_element_eq. intros Hstep.
  apply bind_ok_inv in Hstep as (? & c0 & ? & Hc0 & Hstep & _).
  apply getitem_ok_inv in Hc0 as [Hc0 _].
  apply bind_ok_inv in Hstep as (? & b0 & ? & Hb0 & Hstep & _).
  apply getitem_ok_inv in Hb0 as [Hb0 _].
  exists c0, b0. split; [done |]. split; [done |].
  destruct (Qle_bool c0 (b0 - best_cost_eps self)) eqn:Hle.
  2: { injection Hstep as _ <- <-. by left. }
  right. split; [done |].
  apply bind_ok_inv in Hstep as (? & xj & ? & _ & Hstep & _).
  apply bind_ok_inv in Hstep as (? & bx & ? & _ & Hstep & _).
  apply bind_ok_inv in Hstep as (? & uj & ? & _ & Hstep & _).
  apply bind_ok_inv in Hstep as (? & bu & ? & _ & Hstep & _).
  apply bind_ok_inv in Hstep as (? & c1 & ? & Hc1 & Hstep & _).
  apply getitem_ok_inv in Hc1 as [Hc1 _].
  apply bind_ok_inv in Hstep as (? & bc & ? & Hbc & Hstep & _).
  apply setitem_ok_inv in Hbc as [Hj ->].
  apply bind_ok_inv in Hstep as (? & nj & ? & Hnj & Hstep & _).
  apply getitem_ok_inv in Hnj as [Hnj _].
  apply bind_ok_inv in Hstep as (? & bn & ? & Hbn & Hstep & _).
  apply setitem_ok_inv in Hbn as [Hjn ->].
  injection Hstep as _ <- <-. split; [done |]. exists nj.
  assert (c1 = c0) as -> by congruence. by cbn.
Qed.

Lemma foldM_range_ok_inv {A} (step : A -> nat -> M A)
    (P : nat -> A -> Prop) (n : nat) (a0 : A) w a' :
  P 0%nat a0 ->
  (forall i a w a', (i < n)%nat -> P i a -> step a i = (w, Ok a') ->
                    P (S i) a') ->
  foldM step (seq 0 n) a0 = (w, Ok a') -> P n a'.
Proof.
  revert w a'. induction n as [| n IH]; intros w a' H0 Hstep Hrun.
  - by injection Hrun as _ <-.
  - rewrite seq_S, foldM_app in Hrun.
    apply bind_ok_inv in Hrun as (w1 & a1 & w2 & H1 & Hrun & _).
    cbn [foldM plus] in Hrun.
    apply bind_ok_inv in Hrun as (w3 & a2 & w4 & H2 & Hret & _).
    injection Hret as _ <-.
    eapply (Hstep n); [lia | | done].
    eapply IH; [done | | done]. intros; eapply Hstep; [lia | done | done].
Qed.

(** What every completed run of the loop from its initial state
    satisfies, given what one call of [track_best] guarantees in the
    first pass ([R0]) and in a later pass ([R]). *)
Lemma outer_loop_passes (self : MPC) (C : quad_arg) (c : lin_arg)
    (dynamics : option dynamics) (n_batch : nat)
    (R0 : iter_info -> Prop) (R : iter_info -> iter_info -> Prop) :
  (forall x u fo w b' n',
     track_best self n_batch x u fo None 1 = (w, Ok (b', n')) ->
     R0 {| it_for_out := fo; it_n_not_improved := n'; it_best := b' |}) ->
  (forall x u fo i w b' n',
     track_best self n_batch x u fo (Some (it_best i))
                (it_n_not_improved i + 1) = (w, Ok (b', n')) ->
     R i {| it_for_out := fo; it_n_not_improved := n'; it_best := b' |}) ->
  forall n u0 w st',
    outer_loop self C c dynamics n_batch n (initial_state self u0)
    = (w, Ok st') ->
    (forall i0, ls_history st' !! 0%nat = Some i0 -> R0 i0) /\
    (forall k i i', ls_history st' !! k = Some i ->
       ls_history st' !! S k = Some i' -> R i i').
Proof.
  intros Hfirst Hnext n u0 w st' Hrun.
  set (Inv := fun st : loop_state =>
    match last (ls_history st) with
    | None => ls_best st = None /\ ls_n_not_improved st = 0%Z
    | Some i => ls_best st = Some (it_best i) /\
                ls_n_not_improved st = it_n_not_improved i
    end /\
    (forall i0, ls_history st !! 0%nat = Some i0 -> R0 i0) /\
    (forall k i i', ls_history st !! k = Some i ->
       ls_history st !! S k = Some i' -> R i i')).
  assert (Hgen : forall n st w st',
            outer_loop self C c dynamics n_batch n st = (w, Ok st') ->
            Inv st -> Inv st').
  { clear n u0 w st' Hrun.
    induction n as [| n IH]; intros st w st' Hrun Hinv; cbn [outer_loop] in Hrun.
    - by injection Hrun as _ <-.
    - apply bind_ok_inv in Hrun as (w1 & [st1 brk] & w2 & Hbody & Hrun & _).
      apply loop_body_ok_inv in Hbody
        as (r & best' & n' & w3 & w4 & Htrack & _ & Hh & Hb & Hn & _).
      set (info := {| it_for_out := for_out r; it_n_not_improved := n';
                      it_best := best' |}) in *.
      assert (Hinv1 : Inv st1).
      { destruct Hinv as (Hlast & H0 & Hsteps). unfold Inv.
        rewrite Hh, last_snoc. split; [by rewrite Hb, Hn |].
        destruct (ls_history st) as [| i0 h] eqn:Hhist.
        - cbn in Hlast. destruct Hlast as [Hbest Hcnt].
          rewrite Hbest, Hcnt in Htrack. split.
          + cbn. intros ? [= <-]. by eapply Hfirst.
          + intros k i i' _ Hi'. destruct k; cbn in Hi'; discriminate.
        - split; [cbn; intros ? [= <-]; by apply H0 |].
          intros k i i' Hi Hi'.
          apply lookup_lt_Some in Hi' as Hlt. rewrite length_app in Hlt.
          cbn [length] in Hlt.
          destruct (decide (S k < length (i0 :: h))%nat) as [Hin | Hout].
          + rewrite lookup_app_l in Hi, Hi' by lia. by eapply Hsteps.
          + assert (S k = length (i0 :: h)) as Hk by (cbn [length] in *; lia).
            rewrite lookup_app_l in Hi by lia.
            rewrite lookup_app_r in Hi' by lia.
            rewrite Hk, Nat.sub_diag in Hi'. injection Hi' as <-.
            rewrite last_lookup, <- Hk in Hlast. cbn [pred] in Hlast.
            rewrite Hi in Hlast. destruct Hlast as [Hbest Hcnt].
            rewrite Hbest, Hcnt in Htrack. by eapply Hnext. }
      destruct brk; [by injection Hrun as _ <- | by eapply IH]. }
  apply Hgen in Hrun as (_ & H0 & Hsteps); [by split |].
  unfold Inv. cbn. repeat split; intros; discriminate.
Qed.

Lemma track_best_counter (self : MPC) (n_batch : nat) (x u : traj)
    (fo : for_out_t) (b b' : best_t) (n n' : Z) w :
  track_best self n_batch x u fo (Some b) n = (w, Ok (b', n')) ->
  (n' = n /\ b' = b) \/ n' = 0%Z.
Proof.
  unfold track_best. intros Hrun.
  apply (foldM_ok_inv _ (fun acc => acc = (b, n) \/ acc.2 = 0%Z)) in Hrun.
  - destruct Hrun as [[= -> ->] | Hz]; [by left | by right].
  - by left.
  - intros [b1 k1] j w' [b2 k2] Hacc Hstep.
    apply track_best_element_ok_inv in Hstep
      as (cj & bj & _ & _ & [(_ & -> & ->) | (_ & -> & _)]); [done | by right].
Qed.

(** X6: the non-improvement counter over a run.  The first pass records
    its iterate whatever the cost and leaves the counter at 1; every
    later pass either leaves the whole best record untouched and adds one
    to the counter, or resets the counter to zero. *)
Theorem counter_over_passes (self : MPC) (C : quad_arg) (c : lin_arg)
    (dynamics : option dynamics) (n_batch : nat) (u0 : traj)
    (st' : loop_state) w :
  outer_loop self C c dynamics n_batch (lqr_iter self)
             (initial_state self u0) = (w, Ok st') ->
  (forall i0, ls_history st' !! 0%nat = Some i0 ->
     it_n_not_improved i0 = 1%Z /\
     best_costs (it_best i0) = costs (it_for_out i0) /\
     best_full_du_norm (it_best i0) = full_du_norm (it_for_out i0)) /\
  (forall k i i', ls_history st' !! k = Some i ->
     ls_history st' !! S k = Some i' ->
     (it_n_not_improved i' = (it_n_not_improved i + 1)%Z /\
      it_best i' = it_best i) \/
     it_n_not_improved i' = 0%Z).
Proof.
  apply (outer_loop_passes self C c dynamics n_batch
           (fun i0 => it_n_not_improved i0 = 1%Z /\
                      best_costs (it_best i0) = costs (it_for_out i0) /\
                      best_full_du_norm (it_best i0)
                      = full_du_norm (it_for_out i0))
           (fun i i' =>
              (it_n_not_improved i' = (it_n_not_improved i + 1)%Z /\
               it_best i' = it_best i) \/ it_n_not_improved i' = 0%Z)).
  - intros x u fo w' b' n' [= _ <- <-]. by cbn.
  - intros x u fo i w' b' n' Htrack. cbn.
    by apply track_best_counter in Htrack.
Qed.

(** X7: with a limit [not_improved_lim <= 0] the loop stops after its
    first pass, because that pass already leaves the counter at 1. *)
Theorem single_pass_without_patience (self : MPC) (C : quad_arg)
    (c : lin_arg) (dynamics : option dynamics) (n_batch : nat) (u0 : traj)
    (st' : loop_state) w :
  (not_improved_lim self <= 0)%Z -> (1 <= lqr_iter self)%nat ->
  outer_loop self C c dynamics n_batch (lqr_iter self)
             (initial_state self u0) = (w, Ok st') ->
  length (ls_history st') = 1%nat.
Proof.
  intros Hlim Hit Hrun.
  destruct (lqr_iter self) as [| n]; [lia |]. cbn [outer_loop] in Hrun.
  apply bind_ok_inv in Hrun as (w1 & [st1 brk] & w2 & Hbody & Hrun & _).
  apply loop_body_ok_inv in Hbody
    as (r & best' & n' & w3 & w4 & Htrack & Hstop & Hh & _).
  cbn in Htrack. injection Htrack as _ _ <-.
  unfold stop_test in Hstop.
  apply bind_ok_inv in Hstop as (? & m & ? & _ & Hret & _).
  injection Hret as _ Hbrk.
  assert (brk = true) as ->.
  { rewrite <- Hbrk. apply orb_true_iff. right. apply Z.ltb_lt. lia. }
  injection Hrun as _ <-. by rewrite Hh.
Qed.

Lemma track_best_provenance (self : MPC) (n_batch : nat) (x u : traj)
    (fo : for_out_t) (b b' : best_t) (n n' : Z) w :
  track_best self n_batch x u fo (Some b) n = (w, Ok (b', n')) ->
  forall j c m,
    best_costs b' !! j = Some c -> best_full_du_norm b' !! j = Some m ->
    (best_costs b !! j = Some c /\ best_full_du_norm b !! j = Some m) \/
    (costs fo !! j = Some c /\ full_du_norm fo !! j = Some m).
Proof.
  unfold track_best. intros Hrun.
  refine (foldM_ok_inv _ (fun acc => forall j c m,
    best_costs acc.1 !! j = Some c -> best_full_du_norm acc.1 !! j = Some m ->
    (best_costs b !! j = Some c /\ best_full_du_norm b !! j = Some m) \/
    (costs fo !! j = Some c /\ full_du_norm fo !! j = Some m))
    _ _ _ _ _ _ Hrun).
  - intros j c m Hc Hm. by left.
  - intros [b1 k1] j0 w' [b2 k2] Hacc Hstep. cbn [fst] in *.
    apply track_best_element_ok_inv in Hstep
      as (cj & bj & Hcj & _ & [(_ & -> & _) | (_ & _ & Hset)]); [done |].
    destruct Hset as (nj & Hnj & Hlc & Hln & -> & ->).
    intros j c m Hc Hm. destruct (decide (j = j0)) as [-> | Hne].
    + rewrite list_lookup_insert_eq in Hc, Hm by done.
      right. split; congruence.
    + rewrite list_lookup_insert_ne in Hc, Hm by done. by apply Hacc.
Qed.

(** X8: every entry of the best record comes from one pass: after any
    pass, the cost and the step norm recorded for a batch element are the
    cost and the step norm that one and the same pass, this one or an
    earlier one, reported for that element. *)
Theorem best_record_provenance (self : MPC) (C : quad_arg) (c : lin_arg)
    (dynamics : option dynamics) (n_batch : nat) (u0 : traj)
    (st' : loop_state) w :
  outer_loop self C c dynamics n_batch (lqr_iter self)
             (initial_state self u0) = (w, Ok st') ->
  forall k i j cj nj,
    ls_history st' !! k = Some i ->
    best_costs (it_best i) !! j = Some cj ->
    best_full_du_norm (it_best i) !! j = Some nj ->
    exists k' i', (k' <= k)%nat /\ ls_history st' !! k' = Some i' /\
      costs (it_for_out i') !! j = Some cj /\
      full_du_norm (it_for_out i') !! j = Some nj.
Proof.
  intros Hrun.
  apply (outer_loop_passes self C c dynamics n_batch
           (fun i0 => best_costs (it_best i0) = costs (it_for_out i0) /\
                      best_full_du_norm (it_best i0)
                      = full_du_norm (it_for_out i0))
           (fun i i' => forall j cj nj,
              best_costs (it_best i') !! j = Some cj ->
              best_full_du_norm (it_best i') !! j = Some nj ->
              (best_costs (it_best i) !! j = Some cj /\
               best_full_du_norm (it_best i) !! j = Some nj) \/
              (costs (it_for_out i') !! j = Some cj /\
               full_du_norm (it_for_out i') !! j = Some nj)))
    in Hrun as [H0 Hsteps].
  - induction k as [| k IH]; intros i j cj nj Hi Hc Hn.
    + destruct (H0 i Hi) as [Hcs Hns]. exists 0%nat, i.
      rewrite Hcs in Hc. rewrite Hns in Hn. by repeat split.
    + destruct (lookup_lt_is_Some_2 (ls_history st') k) as [i1 Hi1].
      { apply lookup_lt_Some in Hi. lia. }
      destruct (Hsteps k i1 i Hi1 Hi j cj nj Hc Hn) as [[Hc1 Hn1] | [Hc1 Hn1]].
      * destruct (IH i1 j cj nj Hi1 Hc1 Hn1) as (k' & i' & Hk' & Hrest).
        exists k', i'. split; [lia | done].
      * exists (S k), i. by repeat split.
  - intros x u fo w' b' n' [= _ <- <-]. by cbn.
  - intros x u fo i w' b' n' Htrack. cbn.
    by eapply track_best_provenance.
Qed.

Lemma Qle_bool_false_lt (a b : Q) : Qle_bool a b = false -> b < a.
Proof.
  intros E. apply Qnot_le_lt. intros Hle. apply Qle_bool_iff in Hle. congruence.
Qed.

Lemma track_best_near_minimum (self : MPC) (n_batch : nat) (x u : traj)
    (fo : for_out_t) (b b' : best_t) (n n' : Z) w :
  0 < best_cost_eps self ->
  track_best self n_batch x u fo (Some b) n = (w, Ok (b', n')) ->
  forall j cj vj, (j < n_batch)%nat ->
    costs fo !! j = Some cj -> best_costs b' !! j = Some vj ->
    vj < cj + best_cost_eps self.
Proof.
  intros Heps Hrun. unfold track_best in Hrun.
  refine (foldM_range_ok_inv _ (fun i acc => forall j cj vj, (j < i)%nat ->
    costs fo !! j = Some cj -> best_costs acc.1 !! j = Some vj ->
    vj < cj + best_cost_eps self) _ _ _ _ _ _ Hrun).
  - intros j cj vj Hj. lia.
  - intros i [b1 k1] w' [b2 k2] Hi Hacc Hstep. cbn [fst] in *.
    apply track_best_element_ok_inv in Hstep
      as (ci & bi & Hci & Hbi & [(Hle & -> & _) | (_ & _ & Hset)]).
    + intros j cj vj Hj Hc Hv. destruct (decide (j = i)) as [-> | Hne].
      * apply Qle_bool_false_lt in Hle.
        assert (cj = ci) as -> by congruence.
        assert (vj = bi) as -> by congruence. lra.
      * apply (Hacc j); [lia | done | done].
    + destruct Hset as (ni & _ & Hlc & _ & -> & _).
      intros j cj vj Hj Hc Hv. destruct (decide (j = i)) as [-> | Hne].
      * rewrite list_lookup_insert_eq in Hv by done.
        assert (cj = ci) as -> by congruence.
        assert (vj = ci) as -> by congruence. lra.
      * rewrite list_lookup_insert_ne in Hv by done.
        apply (Hacc j); [lia | done | done].
Qed.

Lemma cost_steps_length (self : MPC) (h : list iter_info) :
  (forall k i i', h !! k = Some i -> h !! S k = Some i' ->
     cost_step self (it_best i) i') ->
  forall d k i i',
    h !! k = Some i -> h !! (k + d)%nat = Some i' ->
    length (best_costs (it_best i')) = length (best_costs (it_best i)).
Proof.
  intros Hsteps. induction d as [| d IH]; intros k i i' Hi Hi'.
  - rewrite Nat.add_0_r in Hi'. congruence.
  - destruct (lookup_lt_is_Some_2 h (k + d)) as [i1 Hi1].
    { apply lookup_lt_Some in Hi'. lia. }
    replace (k + S d)%nat with (S (k + d)) in Hi' by lia.
    destruct (Hsteps _ _ _ Hi1 Hi') as [Hlen _].
    rewrite Hlen. by eapply IH.
Qed.

(** X9: the best record is within the margin of the lowest cost seen.
    With a positive [best_cost_eps], the cost recorded for a batch element
    after a pass is below the cost that this pass or any earlier pass
    reported for that element plus [best_cost_eps]. *)
Theorem best_cost_near_minimum (self : MPC) (C : quad_arg) (c : lin_arg)
    (dynamics : option dynamics) (n_batch : nat) (u0 : traj)
    (st' : loop_state) w :
  0 < best_cost_eps self ->
  outer_loop self C c dynamics n_batch (lqr_iter self)
             (initial_state self u0) = (w, Ok st') ->
  forall k' k i' i j cj vj, (k' <= k)%nat -> (j < n_batch)%nat ->
    ls_history st' !! k' = Some i' -> ls_history st' !! k = Some i ->
    costs (it_for_out i') !! j = Some cj ->
    best_costs (it_best i) !! j = Some vj ->
    vj < cj + best_cost_eps self.
Proof.
  intros Heps Hrun.
  apply (outer_loop_passes self C c dynamics n_batch
           (fun i0 => best_costs (it_best i0) = costs (it_for_out i0))
           (fun i i' =>
              cost_step self (it_best i) i' /\
              forall j cj vj, (j < n_batch)%nat ->
                costs (it_for_out i') !! j = Some cj ->
                best_costs (it_best i') !! j = Some vj ->
                vj < cj + best_cost_eps self))
    in Hrun as [H0 Hsteps].
  - assert (Hcost : forall k i i', ls_history st' !! k = Some i ->
              ls_history st' !! S k = Some i' -> cost_step self (it_best i) i')
      by (intros k i i' Hi Hi'; by destruct (Hsteps k i i' Hi Hi')).
    intros k' k i' i j cj vj Hk Hj Hi' Hi Hc Hv.
    replace k with (k' + (k - k'))%nat in Hi by lia.
    pose proof (cost_steps_length self _ Hcost _ _ _ _ Hi' Hi) as Hlen.
    destruct (lookup_lt_is_Some_2 (best_costs (it_best i')) j) as [v' Hv'].
    { rewrite <- Hlen. by eapply lookup_lt_Some. }
    destruct (cost_steps_chain self _ ltac:(lra) Hcost _ _ _ _ _ _ Hi' Hi Hv')
      as (v2 & Hv2 & Hle).
    assert (v2 = vj) as -> by congruence.
    assert (v' < cj + best_cost_eps self); [| lra].
    destruct k' as [| k'].
    + rewrite (H0 i' Hi') in Hv'. assert (v' = cj) as -> by congruence. lra.
    + destruct (lookup_lt_is_Some_2 (ls_history st') k') as [ip Hip].
      { apply lookup_lt_Some in Hi'. lia. }
      destruct (Hsteps k' ip i' Hip Hi') as [_ Hnear]. by eapply Hnear.
  - intros x u fo w' b' n' [= _ <- <-]. by cbn.
  - intros x u fo i w' b' n' Htrack. cbn [it_best it_for_out]. split.
    + eapply track_best_cost_step; [lra | done].
    + by eapply track_best_near_minimum.
Qed.

End BestRecord.

(** ** Linearization at the re-derived trajectory *)

Section Relinearize.
Context `{Collaborators}.

Lemma dynamics_trajectory_length (d : dynamics) (us : traj) (x0 : list vec) :
  length (dynamics_trajectory d x0 us) = S (length us).
Proof. revert x0. induction us as [| ut us IH]; intros x0; cbn; [done |]. by rewrite IH. Qed.

Lemma dynamics_trajectory_step (d : dynamics) (us : traj) (x0 : list vec)
    t xt ut :
  dynamics_trajectory d x0 us !! t = Some xt -> us !! t = Some ut ->
  dynamics_trajectory d x0 us !! S t = Some (call_dynamics d xt ut).
Proof.
  revert x0 t. induction us as [| u0 us IH]; intros x0 t Hx Hu; [done |].
  destruct t as [| t]; cbn in *.
  - injection Hx as <-. injection Hu as <-. by destruct us.
  - by apply IH.
Qed.

Lemma dynamics_trajectory_shape (d : dynamics) (B : nat) (us : traj)
    (x0 : list vec) :
  length x0 = B -> Forall (fun row => length row = B) us ->
  Forall (fun row => length row = B) (dynamics_trajectory d x0 us).
Proof.
  intros Hx Hus. revert x0 Hx.
  induction Hus as [| ut us Hut _ IH]; intros x0 Hx; cbn.
  - by repeat constructor.
  - constructor; [done |]. apply IH. unfold call_dynamics.
    rewrite length_zip_with. lia.
Qed.

(** X10: in the automatic-differentiation and finite-difference modes
    [linearize_dynamics] reads only the first row of [x]: it rolls the
    dynamics out again from [x[0]] under [u], and [F] and [f] are the
    Jacobians and residuals along that trajectory, whatever the other
    rows of [x] hold. *)
Theorem linearize_rederives_states (self : MPC) (x u : traj) (d : dynamics)
    (diff : bool) (B : nat) (x0 : list vec) :
  grad_method self = AUTO_DIFF \/ grad_method self = FINITE_DIFF ->
  (2 <= T self)%nat -> (1 <= B)%nat -> (1 <= n_state self)%nat ->
  x !! 0%nat = Some x0 -> length x0 = B -> well_shaped (T self) B u ->
  linearize_dynamics self x u d diff
  = mret (linearized self d
            (take (T self - 1) (dynamics_trajectory d x0 u))
            (take (T self - 1) u)).
Proof.
  intros Hgm HT HB Hn Hx0 Hlen [Hlu Hu]. unfold linearize_dynamics.
  rewrite (getitem_ok _ _ _ Hx0), bind_pure, Hlen.
  set (xs := take (T self) (dynamics_trajectory d x0 u)).
  assert (Hloop : foldM (linearize_timestep self u d B) (seq 0 (T self))
                        ([x0], [], [])
                  = mret (take (T self) xs,
                          fst (linearized self d (take (T self - 1) xs)
                                          (take (T self - 1) u)),
                          snd (linearized self d (take (T self - 1) xs)
                                          (take (T self - 1) u)))).
  { apply linearize_loop_eq; try done; try lia.
    - split.
      + unfold xs. rewrite length_take, dynamics_trajectory_length. lia.
      + apply Forall_take. by apply dynamics_trajectory_shape.
    - intros t xt ut Hxt Hut Hlt. unfold xs in *.
      rewrite length_take, dynamics_trajectory_length in Hlt.
      rewrite lookup_take_lt in Hxt by lia. rewrite lookup_take_lt by lia.
      by apply dynamics_trajectory_step.
    - unfold xs. rewrite lookup_take_lt by lia. by destruct u. }
  assert (Htake : take (T self - 1) xs
                  = take (T self - 1) (dynamics_trajectory d x0 u)).
  { unfold xs. rewrite take_take. f_equal. lia. }
  rewrite Htake in Hloop.
  destruct (linearized self d (take (T self - 1) (dynamics_trajectory d x0 u))
                       (take (T self - 1) u)) as [Fs fs] eqn:Hlin.
  assert (HlF : length Fs = (T self - 1)%nat).
  { apply (f_equal fst) in Hlin. cbn in Hlin. subst Fs.
    rewrite length_zip_with, !length_take, dynamics_trajectory_length. lia. }
  assert (Hlf : length fs = (T self - 1)%nat).
  { apply (f_equal snd) in Hlin. cbn in Hlin. subst fs.
    rewrite length_zip_with, !length_take, dynamics_trajectory_length. lia. }
  cbn [fst snd] in Hloop.
  destruct Hgm as [-> | ->]; rewrite Hloop, bind_pure;
    (destruct Fs; [simpl in HlF; lia |]);
    (destruct fs; [simpl in Hlf; lia |]);
    cbn [stack]; by rewrite !bind_pure.
Qed.

(** X11: edge cases of [linearize_dynamics].  An empty [x] fails at
    [x[0]]; over a horizon of at most one step the modes other than the
    analytic one collect nothing and fail when stacking the empty list. *)
Theorem linearize_dynamics_edges (self : MPC) (x u : traj) (d : dynamics)
    (diff : bool) :
  linearize_dynamics self [] u d diff = ([], Raise IndexError) /\
  (grad_method self <> ANALYTIC -> (T self <= 1)%nat -> x <> [] ->
   linearize_dynamics self x u d diff = ([], Raise ValueError)).
Proof.
  split; [reflexivity |]. intros Hgm HT Hx. unfold linearize_dynamics.
  destruct x as [| x0 x]; [done |].
  rewrite (getitem_ok (x0 :: x) 0 x0 eq_refl), bind_pure.
  assert (Hloop : foldM (linearize_timestep self u d (length x0))
                        (seq 0 (T self)) ([x0], [], [])
                  = mret ([x0], [], [])).
  { destruct (T self) as [| [| n]] eqn:E; [done | | lia].
    cbn [seq foldM]. rewrite linearize_timestep_eq, E. cbn [Nat.sub Nat.ltb Nat.leb].
    by rewrite bind_pure. }
  destruct (grad_method self); try done; by rewrite Hloop.
Qed.

End Relinearize.

(** ** Splitting a trajectory per batch element and joining it again *)

Lemma zip_with_fmap_same {A B C D} (h : B -> C -> D) (g1 : A -> B)
    (g2 : A -> C) (l : list A) :
  zip_with h (map g1 l) (map g2 l) = map (fun a => h (g1 a) (g2 a)) l.
Proof. induction l; cbn; f_equal; auto. Qed.

Lemma take_snoc_nth {A} (d : A) (k : nat) (row : list A) :
  (k < length row)%nat -> take (S k) row = take k row ++ [nth k row d].
Proof.
  intros Hk. destruct (lookup_lt_is_Some_2 row k Hk) as [a Ha].
  by rewrite (nth_lookup_Some _ _ _ _ Ha), (take_S_r _ _ _ Ha).
Qed.

Lemma join_slices {A} (d : A) (B : nat) (x : list (list A)) :
  Forall (fun row => length row = B) x ->
  forall n k, (k + n <= B)%nat ->
    fold_left (zip_with app)
              (map (fun j => map (fun row => [nth j row d]) x) (seq k n))
              (map (take k) x)
    = map (take (k + n)) x.
Proof.
  intros Hx. induction n as [| n IH]; intros k Hk; cbn [seq map fold_left].
  - by rewrite Nat.add_0_r.
  - rewrite zip_with_fmap_same.
    replace (map (fun a => take k a ++ [nth k a d]) x) with (map (take (S k)) x).
    + rewrite IH by lia. do 2 f_equal. lia.
    + clear IH. induction Hx as [| row x Hrow _ IHx]; cbn [map]; [done |].
      rewrite IHx. f_equal. apply take_snoc_nth. lia.
Qed.

Lemma join_split_batch (x : traj) (B : nat) :
  x <> [] -> (1 <= B)%nat -> Forall (fun row => length row = B) x ->
  cat_dim1 (split_batch x) = mret x.
Proof.
  intros Hne HB Hx. unfold split_batch.
  assert (size1 x = B) as ->.
  { destruct x; [done |]. by inversion Hx. }
  destruct B as [| B]; [lia |]. cbn [seq map cat_dim1]. f_equal. f_equal.
  replace (map (fun row : list vec => [nth 0 row []]) x) with (map (take 1) x).
  - rewrite (join_slices [] (S B) x Hx B 1) by lia.
    rewrite <- (map_id x) at 2. apply map_ext_Forall.
    eapply Forall_impl; [exact Hx |]. intros row Hrow. unfold id.
    cbn beta in Hrow. apply take_ge. lia.
  - clear Hne. induction Hx as [| row x Hrow _ IHx]; cbn [map]; [done |].
    rewrite IHx. f_equal. rewrite (take_snoc_nth [] 0 row) by lia. done.
Qed.

(** ** The augmented problem of the slew-rate penalty *)

Lemma nth_map_seq {A} (g : nat -> A) (n i : nat) (d : A) :
  (i < n)%nat -> nth i (map g (seq 0 n)) d = g i.
Proof.
  intros Hi. rewrite nth_lookup, list_lookup_fmap, lookup_seq_lt by done.
  done.
Qed.

Lemma slew_C_entry (gam : Q) (n_ctrl _nsc T B : nat) (C : jacs) t b i j :
  (t < T)%nat -> (b < B)%nat -> (i < _nsc)%nat -> (j < _nsc)%nat ->
  nth j (nth i (nth b (nth t (slew_C gam n_ctrl _nsc T B C) []) []) []) 0
  = slew_block gam n_ctrl (_nsc - n_ctrl) i j + padded_C n_ctrl C t b i j.
Proof.
  intros Ht Hb Hi Hj. unfold slew_C.
  rewrite (nth_map_seq _ T t) by done. rewrite (nth_map_seq _ B b) by done.
  rewrite (nth_map_seq _ _nsc i) by done. by rewrite (nth_map_seq _ _nsc j).
Qed.

Lemma slew_block_sym (gam : Q) (n_ctrl hi i j : nat) :
  (n_ctrl <= hi)%nat ->
  slew_block gam n_ctrl hi i j = slew_block gam n_ctrl hi j i.
Proof.
  intros Hhi. unfold slew_block.
  repeat match goal with
         | |- context [(?a <? ?b)%nat] => destruct (Nat.ltb_spec a b)
         | |- context [(?a <=? ?b)%nat] => destruct (Nat.leb_spec a b)
         | |- context [(?a =? ?b)%nat] => destruct (Nat.eqb_spec a b)
         end; try reflexivity; lia.
Qed.

(** X13: the augmented cost of the slew-rate branch, for at least one
    control.  Every [_C[t, b]] is a square matrix of size
    [n_state + 2 n_ctrl], and it is symmetric whenever [C[t, b]] is. *)
Theorem slew_cost_symmetric (gam : Q) (n_state n_ctrl T B : nat) (C : jacs)
    (t b : nat) :
  (1 <= n_ctrl)%nat -> (t < T)%nat -> (b < B)%nat ->
  symmetric (n_state + n_ctrl) (nth b (nth t C []) []) ->
  let _nsc := (n_state + n_ctrl + n_ctrl)%nat in
  let M := nth b (nth t (slew_C gam n_ctrl _nsc T B C) []) [] in
  length M = _nsc /\ Forall (fun row => length row = _nsc) M /\
  symmetric _nsc M.
Proof.
  intros _ Ht Hb Hsym _nsc M. subst M. split; [| split].
  - unfold slew_C. rewrite (nth_map_seq _ T t), (nth_map_seq _ B b) by done.
    by rewrite length_map, length_seq.
  - unfold slew_C. rewrite (nth_map_seq _ T t), (nth_map_seq _ B b) by done.
    apply Forall_fmap, Forall_forall. intros i _. cbn.
    by rewrite length_map, length_seq.
  - intros i j Hi Hj. rewrite !slew_C_entry by done.
    rewrite (slew_block_sym gam n_ctrl _ i j) by (unfold _nsc; lia).
    apply Qplus_comp; [reflexivity |]. unfold padded_C.
    rewrite (orb_comm (j <? n_ctrl)%nat).
    destruct (Nat.ltb_spec i n_ctrl), (Nat.ltb_spec j n_ctrl); cbn;
      try reflexivity.
    apply Hsym; unfold _nsc in *; lia.
Qed.

Lemma dot_zeros_app (k : nat) (r a v : vec) :
  length a = k -> dot (zeros k ++ r) (a ++ v) == dot r v.
Proof.
  revert a. induction k as [| k IH]; intros [| a0 a] Hk; try discriminate.
  - reflexivity.
  - cbn in Hk. injection Hk as Hk. unfold dot, zeros in *. cbn.
    rewrite (IH a Hk). ring.
Qed.

Lemma dot_unit (i s : nat) (u : vec) :
  dot (map (fun j => if (i =? j)%nat then 1 else 0) (seq s (length u))) u
  == if (s <=? i)%nat && (i <? s + length u)%nat then nth (i - s) u 0 else 0.
Proof.
  revert s. induction u as [| u0 u IH]; intros s.
  - cbn [length seq map]. rewrite Nat.add_0_r.
    destruct (Nat.leb_spec s i), (Nat.ltb_spec i s); cbn; try reflexivity; lia.
  - cbn [length seq map]. unfold dot in *. cbn [zip_with fold_right].
    rewrite (IH (S s)).
    destruct (Nat.eqb_spec i s) as [-> | Hne].
    + rewrite Nat.sub_diag.
      replace (S s <=? s)%nat with false by (symmetry; apply Nat.leb_gt; lia).
      replace (s <=? s)%nat with true by (symmetry; apply Nat.leb_le; lia).
      replace (s <? s + S (length u))%nat with true
        by (symmetry; apply Nat.ltb_lt; lia).
      cbn. ring.
    + destruct (Nat.leb_spec (S s) i), (Nat.leb_spec s i); try lia;
        cbn [andb].
      * destruct (Nat.ltb_spec i (S s + length u)),
          (Nat.ltb_spec i (s + S (length u))); try lia; [| ring].
        replace (i - s)%nat with (S (i - S s)) by lia. cbn [nth]. ring.
      * ring.
Qed.

(** X14: the augmented dynamics of the slew-rate branch pass the control
    through.  For [F[t, b]] of shape [n_state, n_state + n_ctrl], the
    matrix [_F[t, b]] applied to [[u_prev; x; u]] returns [u] followed by
    [F[t, b]] applied to [[x; u]]: the next augmented state is the control
    just taken and the next state. *)
Theorem slew_dynamics_passthrough (n_state n_ctrl : nat) (Ftb : mat)
    (u_prev x u : vec) :
  length Ftb = n_state ->
  Forall (fun row => length row = (n_state + n_ctrl)%nat) Ftb ->
  length u_prev = n_ctrl -> length x = n_state -> length u = n_ctrl ->
  vec_eq (mv (slew_F n_state n_ctrl Ftb) (u_prev ++ x ++ u))
         (u ++ mv Ftb (x ++ u)).
Proof.
  intros _ _ Hp Hx Hu. unfold vec_eq, slew_F, mv. rewrite map_app.
  apply Forall2_app.
  - apply Forall2_same_length_lookup_2.
    + rewrite !length_map, length_seq. by rewrite Hu.
    + intros i a b Ha Hb. rewrite !list_lookup_fmap in Ha.
      apply fmap_Some in Ha as (row & Hrow & ->).
      apply fmap_Some in Hrow as (i' & Hi' & ->).
      apply lookup_seq in Hi' as [-> Hi]. cbn [plus].
      rewrite (app_assoc u_prev x u).
      rewrite dot_zeros_app by (rewrite length_app; lia).
      unfold eye_row. rewrite <- Hu, (dot_unit i 0 u).
      replace (0 <=? i)%nat with true by (symmetry; apply Nat.leb_le; lia).
      replace (i <? 0 + length u)%nat with true
        by (symmetry; apply Nat.ltb_lt; lia).
      cbn [andb]. rewrite Nat.sub_0_r, (nth_lookup_Some _ _ _ _ Hb).
      reflexivity.
  - rewrite map_map. apply Forall2_fmap, Forall_Forall2_diag, Forall_forall.
    intros row _. by apply dot_zeros_app.
Qed.

Lemma slew_dynamics_passthrough_witness :
  vec_eq (mv (slew_F 1 1 [[2; 3]]) ([7] ++ [5] ++ [1])) ([1] ++ mv [[2; 3]] ([5] ++ [1])).
Proof.
  apply (slew_dynamics_passthrough 1 1);
    [reflexivity | repeat constructor | reflexivity | reflexivity | reflexivity].
Defined.

Lemma slew_cost_symmetric_witness :
  let M := nth 0 (nth 0 (slew_C (1 # 2) 1 3 1 1 [[[[1; 2]; [2; 5]]]]) []) [] in
  length M = 3%nat /\ Forall (fun row => length row = 3%nat) M /\ symmetric 3 M.
Proof.
  apply (slew_cost_symmetric (1 # 2) 1 1 1 1 [[[[1; 2]; [2; 5]]]] 0 0);
    [lia | lia | lia |].
  intros i j Hi Hj. destruct i as [| [| i]], j as [| [| j]]; cbn; try reflexivity; lia.
Defined.

(** ** What the solver prints *)

Lemma silent_bind {A B} (m : M A) (k : A -> M B) :
  silent m -> (forall a, silent (k a)) -> silent (m ≫= k).
Proof.
  unfold silent, printed. destruct m as [w [a | e]]; cbn; intros -> Hk.
  - specialize (Hk a). destruct (k a). exact Hk.
  - reflexivity.
Qed.

Lemma printed_bind_silent {A B} (P : list event -> Prop) (m : M A)
    (k : A -> M B) :
  silent m -> P [] -> (forall a, P (printed (k a))) -> P (printed (m ≫= k)).
Proof.
  unfold silent, printed. destruct m as [w [a | e]]; cbn; intros -> H0 Hk.
  - specialize (Hk a). destruct (k a). exact Hk.
  - exact H0.
Qed.

Lemma silent_foldM {A B} (step : A -> B -> M A) (l : list B) (a : A) :
  (forall a b, silent (step a b)) -> silent (foldM step l a).
Proof.
  intros Hstep. revert a. induction l as [| b l IH]; intros a; cbn [foldM].
  - reflexivity.
  - apply silent_bind; [apply Hstep | apply IH].
Qed.

Lemma silent_mapM {A B} (fn : A -> M B) (l : list A) :
  (forall a, silent (fn a)) -> silent (mapM fn l).
Proof.
  intros Hfn. induction l as [| a l IH]; cbn [mapM].
  - reflexivity.
  - apply silent_bind; [apply Hfn |]. intros b.
    apply silent_bind; [apply IH |]. reflexivity.
Qed.

Ltac silence :=
  repeat first
    [ exact eq_refl
    | apply silent_bind; [| intros]
    | apply silent_foldM; intros
    | apply silent_mapM; intros
    | match goal with
      | |- silent (match ?x with _ => _ end) => destruct x
      end ].

Section Output.
Context `{Collaborators}.

Lemma silent_linearize_dynamics (self : MPC) (x u : traj) (d : dynamics)
    (diff : bool) :
  silent (linearize_dynamics self x u d diff).
Proof.
  unfold linearize_dynamics, linearize_analytic, linearize_timestep,
    timestep_jacobians, getitem, view_2d, view_3d, view_4d, stack, stack_dim1,
    assert_.
  silence.
Qed.

Lemma silent_solve_lqr_subproblem (self : MPC) x_init C c F f dynamics x u
    no_op :
  silent (solve_lqr_subproblem self x_init C c F f dynamics x u no_op).
Proof. unfold solve_lqr_subproblem, getitem. silence. Qed.

Lemma silent_track_best (self : MPC) n_batch x u fo best n :
  silent (track_best self n_batch x u fo best n).
Proof.
  unfold track_best, track_best_element, select_batch, getitem, setitem.
  silence.
Qed.

Lemma silent_pymax (l : list Q) : silent (pymax l).
Proof. unfold pymax. silence. Qed.

Lemma silent_loop_body (self : MPC) C c dynamics n_batch st :
  (verbose self <= 0)%Z -> silent (loop_body self C c dynamics n_batch st).
Proof.
  intros Hv. unfold loop_body, stop_test.
  replace (0 <? verbose self)%Z with false by (symmetry; apply Z.ltb_ge; lia).
  apply silent_bind.
  { destruct dynamics; [| reflexivity].
    apply silent_bind; [apply silent_linearize_dynamics |].
    intros [? ?]. reflexivity. }
  intros [[x F'] f']. apply silent_bind; [apply silent_solve_lqr_subproblem |].
  intros _lqr. apply silent_bind; [apply silent_track_best |].
  intros [best n]. apply silent_bind; [reflexivity |].
  intros _. apply silent_bind; [| reflexivity].
  apply silent_bind; [apply silent_pymax | reflexivity].
Qed.

Lemma silent_outer_loop (self : MPC) C c dynamics n_batch n st :
  (verbose self <= 0)%Z -> silent (outer_loop self C c dynamics n_batch n st).
Proof.
  intros Hv. revert st. induction n as [| n IH]; intros st; cbn [outer_loop].
  - reflexivity.
  - apply silent_bind; [by apply silent_loop_body |].
    intros [st' [|]]; [reflexivity | apply IH].
Qed.

Lemma printed_bind_silent_k {A B} (m : M A) (k : A -> M B) :
  (forall a, silent (k a)) -> printed (m ≫= k) = printed m.
Proof.
  unfold silent, printed. destruct m as [w [a | e]]; cbn; intros Hk.
  - specialize (Hk a). destruct (k a). cbn in *. subst. apply app_nil_r.
  - reflexivity.
Qed.

Lemma printed_detach_stage (self : MPC) best fo x u :
  ((verbose self < 0)%Z -> silent (detach_stage self best fo x u)) /\
  (printed (detach_stage self best fo x u) = [] \/
   printed (detach_stage self best fo x u) = unconverged_warning).
Proof.
  unfold detach_stage, silent.
  destruct (detach_unconverged self); [| by split; [| left]].
  apply (printed_bind_silent
           (fun w => ((verbose self < 0)%Z -> w = []) /\
                     (w = [] \/ w = unconverged_warning)));
    [apply silent_pymax | by split; [| left] |].
  intros m. destruct (Qlt_bool (eps self) m); [| by split; [| left]].
  destruct (exit_unconverged self); [by split; [| left] |].
  rewrite bind_pure.
  assert (Hrest : forall t : unit, silent (
       fo0 ← match fo with Some fo0 => mret fo0 | None => raise UnboundLocalError end;
       Ix ← expand_as (map (fun n => Qlt_bool n (eps self)) (full_du_norm fo0)) x;
       Iu ← expand_as (map (fun n => Qlt_bool n (eps self)) (full_du_norm fo0)) u;
       mret (apply_mask Ix x, apply_mask Iu u))).
  { intros _. unfold expand_as. silence. }
  destruct (0 <=? verbose self)%Z eqn:Ev.
  - split; [intros Hv; apply Z.leb_le in Ev; lia |].
    right. by rewrite (printed_bind_silent_k _ _ Hrest).
  - rewrite bind_pure. split; [intros _ | left]; exact (Hrest tt).
Qed.

Lemma printed_finish (self : MPC) C c dynamics st :
  ((verbose self < 0)%Z -> silent (finish self C c dynamics st)) /\
  (printed (finish self C c dynamics st) = [] \/
   printed (finish self C c dynamics st) = unconverged_warning).
Proof.
  unfold finish, silent.
  set (P := fun w : list event => ((verbose self < 0)%Z -> w = []) /\
                     (w = [] \/ w = unconverged_warning)).
  assert (P0 : P []) by (by split; [| left]).
  apply (printed_bind_silent P); [by destruct (ls_best st) | done |].
  intros best.
  apply (printed_bind_silent P); [unfold cat_dim1; silence | done |].
  intros x.
  apply (printed_bind_silent P); [unfold cat_dim1; silence | done |].
  intros u.
  apply (printed_bind_silent P); [| done |].
  { destruct dynamics; [| reflexivity].
    apply silent_bind; [apply silent_linearize_dynamics |].
    intros [? ?]. reflexivity. }
  intros [F' f'].
  apply (printed_bind_silent P); [apply silent_solve_lqr_subproblem | done |].
  intros _lqr. rewrite printed_bind_silent_k by (intros [? ?]; reflexivity).
  apply printed_detach_stage.
Qed.

(** X15: what [forward] prints follows [verbose].  With [verbose < 0] it
    prints nothing, whether it returns or raises; with [verbose = 0] it
    prints nothing or exactly the two lines of the non-convergence
    warning. *)
Theorem forward_output_by_verbosity (self : MPC) (C : quad_arg) (c : lin_arg)
    (dynamics : option dynamics) :
  ((verbose self < 0)%Z -> printed (forward self C c dynamics) = []) /\
  ((verbose self <= 0)%Z ->
   printed (forward self C c dynamics) = [] \/
   printed (forward self C c dynamics) = unconverged_warning).
Proof.
  set (P := fun w : list event => ((verbose self < 0)%Z -> w = []) /\
                     (w = [] \/ w = unconverged_warning)).
  assert (P0 : P []) by (by split; [| left]).
  assert (HP : (verbose self <= 0)%Z -> P (printed (forward self C c dynamics))).
  { intros Hv. unfold forward, solve_with_batch.
    replace (0 <? verbose self)%Z with false
      by (symmetry; apply Z.ltb_ge; lia).
    apply (printed_bind_silent P);
      [unfold infer_n_batch; silence | done |].
    intros n_batch.
    apply (printed_bind_silent P);
      [unfold expand_batch, expand_dim; silence | done |].
    intros C'.
    apply (printed_bind_silent P); [unfold expand_batch; silence | done |].
    intros c'.
    apply (printed_bind_silent P); [unfold assert_; silence | done |].
    intros _.
    apply (printed_bind_silent P); [unfold expand_batch; silence | done |].
    intros u.
    apply (printed_bind_silent P); [reflexivity | done |].
    intros _.
    apply (printed_bind_silent P); [by apply silent_outer_loop | done |].
    intros st. apply printed_finish. }
  split.
  - intros Hv. apply HP; lia.
  - intros Hv. by apply HP.
Qed.

End Output.

(** ** What [forward] returns *)

Section Returned.
Context `{Collaborators}.

Lemma outer_loop_last (self : MPC) (C : quad_arg) (c : lin_arg)
    (dynamics : option dynamics) (n_batch n : nat) (st st' : loop_state) w :
  outer_loop self C c dynamics n_batch n st = (w, Ok st') ->
  st' = st \/
  exists i, last (ls_history st') = Some i /\
            ls_best st' = Some (it_best i) /\
            ls_for_out st' = Some (it_for_out i).
Proof.
  revert st w. induction n as [| n IH]; intros st w Hrun;
    cbn [outer_loop] in Hrun.
  - injection Hrun as _ <-. by left.
  - apply bind_ok_inv in Hrun as (w1 & [st1 brk] & w2 & Hbody & Hrun & _).
    apply loop_body_ok_inv in Hbody
      as (r & best' & n' & w3 & w4 & _ & _ & Hh & Hb & _ & Hfo & _).
    assert (Hst1 : exists i, last (ls_history st1) = Some i /\
                             ls_best st1 = Some (it_best i) /\
                             ls_for_out st1 = Some (it_for_out i)).
    { eexists. rewrite Hh, last_snoc. by repeat split. }
    destruct brk.
    + injection Hrun as _ <-. by right.
    + apply IH in Hrun as [-> | Hrun]; by right.
Qed.

Lemma detach_stage_ok_inv (self : MPC) (best : best_t)
    (fo : option for_out_t) (x u x' u' : gtraj) w :
  detach_stage self best fo x u = (w, Ok (x', u')) ->
  (x' = x /\ u' = u) \/
  exists Ix Iu, x' = apply_mask Ix x /\ u' = apply_mask Iu u.
Proof.
  unfold detach_stage. destruct (detach_unconverged self).
  2: { intros [= _ <- <-]. by left. }
  intros Hrun. apply bind_ok_inv in Hrun as (? & m & ? & _ & Hrun & _).
  destruct (Qlt_bool (eps self) m).
  2: { injection Hrun as _ <- <-. by left. }
  apply bind_ok_inv in Hrun as (? & [] & ? & _ & Hrun & _).
  apply bind_ok_inv in Hrun as (? & [] & ? & _ & Hrun & _).
  apply bind_ok_inv in Hrun as (? & fo' & ? & _ & Hrun & _).
  apply bind_ok_inv in Hrun as (? & Ix & ? & _ & Hrun & _).
  apply bind_ok_inv in Hrun as (? & Iu & ? & _ & Hrun & _).
  injection Hrun as _ <- <-. right. by exists Ix, Iu.
Qed.

Lemma masked_values (I : list bool) (x : traj) t b d g :
  entry (apply_mask I (attach x)) t b d = Some g ->
  exists e, entry x t b d = Some e /\ val g == e.
Proof.
  rewrite apply_mask_entry. intros Hg.
  apply bind_Some in Hg as (i & _ & Hg).
  apply bind_Some in Hg as (g0 & Hg0 & [= <-]).
  apply attach_entry in Hg0. exists (val g0). split; [done |].
  apply mask_entry_val.
Qed.

(** X16: what [forward] returns after a loop that made at least one
    pass.  The costs are those of the best record after the last pass;
    they are not recomputed.  The trajectories carry the values that one
    more LQR step, started with [no_op_forward = True] from the joined
    best trajectories, returns: detaching changes no value. *)
Theorem finish_returns_best (self : MPC) (C : quad_arg) (c : lin_arg)
    (dynamics : option dynamics) (n_batch : nat) (u0 : traj)
    (st : loop_state) w1 w2 x u costs :
  outer_loop self C c dynamics n_batch (lqr_iter self)
             (initial_state self u0) = (w1, Ok st) ->
  finish self C c dynamics st = (w2, Ok (x, u, costs)) ->
  exists i xb ub F f w3 r,
    last (ls_history st) = Some i /\
    costs = best_costs (it_best i) /\
    cat_dim1 (best_x (it_best i)) = mret xb /\
    cat_dim1 (best_u (it_best i)) = mret ub /\
    solve_lqr_subproblem self (x_init self) C c F f dynamics xb ub true
    = (w3, Ok r) /\
    (forall t b d g, entry x t b d = Some g ->
       exists e, entry (lqr_x r) t b d = Some e /\ val g == e) /\
    (forall t b d g, entry u t b d = Some g ->
       exists e, entry (lqr_u r) t b d = Some e /\ val g == e).
Proof.
  intros Hloop Hfin.
  apply finish_ok_inv in Hfin
    as (best & xb & ub & F' & f' & w3 & r & w4 & Hb & Hxb & Hub & Hsolve &
        Hdet & ->).
  apply outer_loop_last in Hloop as [-> | (i & Hi & Hbi & _)];
    [discriminate |].
  rewrite Hb in Hbi. injection Hbi as ->.
  exists i, xb, ub, F', f', w3, r. repeat (split; [done |]).
  apply detach_stage_ok_inv in Hdet as [[-> ->] | (Ix & Iu & -> & ->)].
  - split; intros t b d g Hg; apply attach_entry in Hg; by exists (val g).
  - split; intros t b d g Hg; by apply masked_values in Hg.
Qed.

End Returned.

(** ** Box bounds on the returned controls *)

Lemma narrowed_clip (delta_u : option Q) (ut lo hi v : Q) :
  lo <= hi ->
  (forall du, delta_u = Some du -> lo - du <= ut) ->
  lo <= clip (fst (narrowed delta_u ut lo hi)) (snd (narrowed delta_u ut lo hi)) v
     <= hi.
Proof.
  intros Hle Hdu. unfold clip, narrowed.
  destruct delta_u as [du |]; cbn [fst snd].
  - specialize (Hdu du eq_refl). split.
    + apply Q.min_glb.
      * apply (Qle_trans _ (Qmax (ut - du) lo)); apply Q.le_max_r.
      * apply Q.min_glb; [lra | done].
    + apply (Qle_trans _ (Qmin (ut + du) hi)); apply Q.le_min_r.
  - split.
    + apply Q.min_glb; [apply Q.le_max_r | done].
    + apply Q.le_min_r.
Qed.

Lemma nth_entry (u : traj) (t b d : nat) (v : Q) :
  entry u t b d = Some v -> nth d (nth b (nth t u []) []) 0 = v.
Proof.
  unfold entry. intros Hv.
  apply bind_Some in Hv as (row & Hrow & Hv).
  apply bind_Some in Hv as (c & Hc & Hv).
  rewrite (nth_lookup_Some _ _ _ _ Hrow), (nth_lookup_Some _ _ _ _ Hc).
  by apply nth_lookup_Some.
Qed.

Lemma control_update_in_box (cfg : LQRStep) (g : gains_t) (alpha : Q)
    (T m n : nat) (lo hi : bound) (t b : nat) (xt : vec) :
  lqr_u_lower cfg = Some lo -> lqr_u_upper cfg = Some hi ->
  lqr_n_ctrl cfg = n ->
  (forall d, (d < n)%nat -> bound_at lo t b d <= bound_at hi t b d) ->
  within_reach (lqr_delta_u cfg) T m n lo hi (current_u cfg) ->
  (t < T)%nat -> (b < m)%nat ->
  control_in_box n lo hi t b (control_update cfg g alpha t b xt).
Proof.
  intros Hlo Hhi Hn Hle Hreach Ht Hb. unfold control_in_box, control_update.
  rewrite Hlo, Hhi, Hn. split; [by rewrite length_map, length_seq |].
  intros d e He. rewrite list_lookup_fmap in He.
  apply fmap_Some in He as (d' & Hd' & ->).
  apply lookup_seq in Hd' as [-> Hd]. cbn [plus].
  apply narrowed_clip; [by apply Hle |].
  intros du Hdu. destruct (Hreach du Hdu) as [_ Hnom].
  destruct (Hnom t b d Ht Hb Hd) as (v & Hv & Hlow & _).
  by rewrite (nth_entry _ _ _ _ _ Hv).
Qed.

Lemma rollout_boxed (cfg : LQRStep) (F : option jacs) (f : option traj)
    (g : gains_t) (alphas : list Q) (T m n : nat) (lo hi : bound) :
  lqr_u_lower cfg = Some lo -> lqr_u_upper cfg = Some hi ->
  lqr_n_ctrl cfg = n ->
  (forall t b d, (t < T)%nat -> (b < m)%nat -> (d < n)%nat ->
     bound_at lo t b d <= bound_at hi t b d) ->
  within_reach (lqr_delta_u cfg) T m n lo hi (current_u cfg) ->
  forall steps t0 xt, (t0 + steps <= T)%nat -> length xt = m ->
    length (snd (rollout cfg F f g alphas steps t0 xt)) = steps /\
    forall i row, snd (rollout cfg F f g alphas steps t0 xt) !! i = Some row ->
      length row = m /\
      forall j v, row !! j = Some v -> control_in_box n lo hi (t0 + i) j v.
Proof.
  intros Hlo Hhi Hn Hle Hreach.
  induction steps as [| steps IH]; intros t0 xt Ht0 Hxt; cbn [rollout].
  - split; [done | intros i row [=]].
  - destruct (rollout cfg F f g alphas steps (S t0) _) as [xs us] eqn:Hr.
    cbn [snd].
    destruct (IH (S t0) (imap (fun b xb => next_state cfg F f t0 b xb
                 (nth b (imap (fun b xb => control_update cfg g (nth b alphas 1)
                                           t0 b xb) xt) [])) xt))
      as [Hlen Hrows]; [lia | by rewrite length_imap |].
    rewrite Hr in Hlen, Hrows. cbn [snd] in Hlen, Hrows.
    split; [cbn [length]; by rewrite Hlen |].
    intros [| i] row Hrow.
    + injection Hrow as <-. split; [by rewrite length_imap |].
      intros j v Hv. apply list_lookup_imap_Some in Hv as (xb & Hxb & ->).
      rewrite Nat.add_0_r.
      apply (control_update_in_box cfg g _ T m n); try done; [| lia |].
      * intros d Hd. apply Hle; [lia | | done].
        apply lookup_lt_Some in Hxb. lia.
      * apply lookup_lt_Some in Hxb. lia.
    + replace (t0 + S i)%nat with (S t0 + i)%nat by lia. by apply Hrows.
Qed.

Lemma lqr_u_spec (ph : lqr_phases) (cfg : LQRStep) (x_init : list vec)
    (C : quad_arg) (c : lin_arg) (F : option jacs) (f : option traj) :
  lqr_u (LQRStep_spec ph cfg x_init C c F f)
  = if no_op_forward cfg then current_u cfg
    else snd (rollout cfg F f (fst (backward_pass ph cfg x_init C c F f))
                (line_search ph cfg x_init C c F f
                   (fst (backward_pass ph cfg x_init C c F f)))
                (lqr_T cfg) 0 x_init).
Proof.
  unfold LQRStep_spec. destruct (backward_pass ph cfg x_init C c F f) as [g bo].
  by destruct (no_op_forward cfg).
Qed.

Lemma join_entries {A} (P : nat -> nat -> A -> Prop) (rest : list (list (list A))) :
  forall k acc,
    (forall t row, acc !! t = Some row ->
       length row = k /\ forall j v, row !! j = Some v -> P t j v) ->
    (forall i s t row, rest !! i = Some s -> s !! t = Some row ->
       exists v, row = [v] /\ P t (k + i)%nat v) ->
    forall t row j v,
      fold_left (zip_with app) rest acc !! t = Some row ->
      row !! j = Some v -> P t j v.
Proof.
  induction rest as [| s rest IH]; intros k acc Hacc Hrest t row j v;
    cbn [fold_left].
  - intros Hrow Hv. by apply (proj2 (Hacc t row Hrow) j v).
  - apply (IH (S k)).
    + intros t' row' Hrow'. rewrite lookup_zip_with in Hrow'.
      apply bind_Some in Hrow' as (r & Hr & Hrow').
      apply bind_Some in Hrow' as (r' & Hr' & [= <-]).
      destruct (Hacc t' r Hr) as [Hlen Hin].
      destruct (Hrest 0%nat s t' r' eq_refl Hr') as (v' & -> & Hv').
      split; [rewrite length_app; simpl; lia |].
      intros j' w Hw. apply lookup_app_Some in Hw as [Hw | [Hge Hw]].
      * by apply Hin.
      * rewrite Hlen in Hw, Hge.
        destruct (j' - k)%nat as [| ?] eqn:Hjk; [| done].
        injection Hw as <-. replace j' with (k + 0)%nat by lia. done.
    + intros i s' t' row' Hs' Hrow'.
      destruct (Hrest (S i) s' t' row' Hs' Hrow') as (v' & -> & Hv').
      exists v'. split; [done |].
      by replace (S k + i)%nat with (k + S i)%nat by lia.
Qed.

Lemma boxed_size1 (P : nat -> nat -> vec -> Prop) (m : nat) (u : traj) j :
  boxed P m u -> (j < size1 u)%nat -> size1 u = m.
Proof.
  intros Hu Hj. destruct u as [| row u]; [simpl in Hj; lia |].
  by destruct (Hu 0%nat row eq_refl).
Qed.

Lemma boxed_slice (P : nat -> nat -> vec -> Prop) (m : nat) (u : traj) j t row :
  boxed P m u -> (j < size1 u)%nat ->
  map (fun r : list vec => [nth j r []]) u !! t = Some row ->
  exists v, row = [v] /\ P t j v.
Proof.
  intros Hu Hj Hrow. rewrite list_lookup_fmap in Hrow.
  apply fmap_Some in Hrow as (r & Hr & ->).
  destruct (Hu t r Hr) as [Hlen Hin].
  rewrite (boxed_size1 P m u j Hu Hj) in Hj.
  destruct (lookup_lt_is_Some_2 r j) as [v Hv]; [lia |].
  exists v. rewrite (nth_lookup_Some _ _ _ _ Hv). split; [done |].
  by apply Hin.
Qed.

Section BoxBounds.
Context `{Collaborators}.

Lemma solve_lqr_subproblem_step (self : MPC) (x_init : list vec)
    (C : quad_arg) (c : lin_arg) (dynamics : option dynamics) :
  exists m, (m <= length x_init)%nat /\
    forall F f x u no_op w r,
      solve_lqr_subproblem self x_init C c F f dynamics x u no_op
      = (w, Ok r) ->
      exists cfg xi C' c' F' f',
        lqr_u r = lqr_u (LQRStep_call cfg xi C' c' F' f') /\
        lqr_u_lower cfg = u_lower self /\ lqr_u_upper cfg = u_upper self /\
        lqr_delta_u cfg = delta_u self /\ lqr_T cfg = T self /\
        lqr_n_ctrl cfg = n_ctrl self /\ current_u cfg = u /\
        no_op_forward cfg = no_op /\ length xi = m.
Proof.
  unfold solve_lqr_subproblem. destruct (slew_rate_penalty self) as [gam |].
  2: { exists (length x_init). split; [done |].
       intros F f x u no_op w r [= _ <-].
       eexists _, _, _, _, _, _. by repeat split. }
  destruct C as [Cm | Cm | k].
  2, 3: exists 0%nat; split; [lia |]; intros F f x u no_op w r Hrun;
        apply bind_ok_inv in Hrun as (? & ? & ? & HC & _); discriminate.
  set (prev_u := match prev_ctrl self with
                 | Some (Prev1 p) => [[p]]
                 | Some (Prev2 p) => [p]
                 | Some (Prev3 p) => p
                 | None => [repeat (zeros (n_ctrl self)) (size1 Cm)]
                 end).
  destruct (prev_u !! 0%nat) as [p0 |] eqn:Hp0.
  - exists (length (zip_with app p0 x_init)).
    split; [rewrite length_zip_with; lia |].
    intros F f x u no_op w r Hrun.
    apply bind_ok_inv in Hrun as (? & Cm' & ? & [= _ <-] & Hrun & _).
    apply bind_ok_inv in Hrun as (? & cm & ? & _ & Hrun & _).
    apply bind_ok_inv in Hrun as (? & Fm & ? & _ & Hrun & _).
    apply bind_ok_inv in Hrun as (? & p0' & ? & Hp0' & Hrun & _).
    apply getitem_ok_inv in Hp0' as [Hp0' _]. fold prev_u in Hp0'.
    assert (p0' = p0) as -> by congruence.
    apply bind_ok_inv in Hrun as (? & d' & ? & _ & Hrun & _).
    injection Hrun as _ <-. cbn [lqr_u].
    eexists _, _, _, _, _, _. by repeat split.
  - exists 0%nat. split; [lia |].
    intros F f x u no_op w r Hrun.
    apply bind_ok_inv in Hrun as (? & Cm' & ? & [= _ <-] & Hrun & _).
    apply bind_ok_inv in Hrun as (? & cm & ? & _ & Hrun & _).
    apply bind_ok_inv in Hrun as (? & Fm & ? & _ & Hrun & _).
    apply bind_ok_inv in Hrun as (? & p0' & ? & Hp0' & Hrun & _).
    apply getitem_ok_inv in Hp0' as [Hp0' _]. fold prev_u in Hp0'.
    congruence.
Qed.

Lemma select_batch_ok_inv (u : traj) (j : nat) w uj :
  select_batch u j = (w, Ok uj) ->
  (j < size1 u)%nat /\ uj = map (fun row => nth j row []) u.
Proof.
  unfold select_batch. case_bool_decide; [| discriminate].
  by intros [= _ <-].
Qed.

Lemma track_best_element_trajectories (self : MPC) (x u : traj)
    (fo : for_out_t) (b b' : best_t) (n n' : Z) (j : nat) w :
  track_best_element self x u fo (b, n) j = (w, Ok (b', n')) ->
  (best_x b' = best_x b /\ best_u b' = best_u b) \/
  ((j < size1 x)%nat /\ (j < size1 u)%nat /\
   best_x b' = <[j := map (fun row : list vec => [nth j row []]) x]> (best_x b) /\
   best_u b' = <[j := map (fun row : list vec => [nth j row []]) u]> (best_u b)).
Proof.
  rewrite track_best_element_eq. intros Hstep.
  apply bind_ok_inv in Hstep as (? & c0 & ? & _ & Hstep & _).
  apply bind_ok_inv in Hstep as (? & b0 & ? & _ & Hstep & _).
  destruct (Qle_bool c0 (b0 - best_cost_eps self)).
  2: { injection Hstep as _ <- _. by left. }
  right.
  apply bind_ok_inv in Hstep as (? & xj & ? & Hxj & Hstep & _).
  apply select_batch_ok_inv in Hxj as [Hjx ->].
  apply bind_ok_inv in Hstep as (? & bx & ? & Hbx & Hstep & _).
  apply setitem_ok_inv in Hbx as [_ ->].
  apply bind_ok_inv in Hstep as (? & uj & ? & Huj & Hstep & _).
  apply select_batch_ok_inv in Huj as [Hju ->].
  apply bind_ok_inv in Hstep as (? & bu & ? & Hbu & Hstep & _).
  apply setitem_ok_inv in Hbu as [_ ->].
  apply bind_ok_inv in Hstep as (? & c1 & ? & _ & Hstep & _).
  apply bind_ok_inv in Hstep as (? & bc & ? & _ & Hstep & _).
  apply bind_ok_inv in Hstep as (? & nj & ? & _ & Hstep & _).
  apply bind_ok_inv in Hstep as (? & bn & ? & _ & Hstep & _).
  injection Hstep as _ <- _. cbn [best_x best_u].
  unfold unsqueeze1. by rewrite !map_map.
Qed.

Lemma track_best_boxed (P : nat -> nat -> vec -> Prop) (m : nat) (self : MPC)
    (n_batch : nat) (x u : traj) (fo : for_out_t) (best : option best_t)
    (n n' : Z) (b' : best_t) w :
  boxed P m u ->
  (forall b, best = Some b -> slices_boxed P (best_u b)) ->
  track_best self n_batch x u fo best n = (w, Ok (b', n')) ->
  slices_boxed P (best_u b').
Proof.
  intros Hu Hbest. unfold track_best. destruct best as [b |].
  - intros Hrun.
    refine (foldM_ok_inv _ (fun a : best_t * Z => slices_boxed P (best_u (fst a)))
              _ _ _ (b', n') _ _ Hrun); [by apply Hbest |].
    intros [b1 n1] j w1 [b2 n2] Hb1 Hstep. cbn [fst] in *.
    apply track_best_element_trajectories in Hstep
      as [[_ ->] | (_ & Hj & _ & ->)]; [done |].
    intros j' s t row Hs Hrow.
    apply list_lookup_insert_Some in Hs as [(<- & <- & _) | [_ Hs]].
    + by apply (boxed_slice P m u j t row).
    + by apply (Hb1 j' s t row).
  - intros [= _ <- _]. cbn [best_u]. unfold split_batch.
    intros j s t row Hs Hrow. rewrite list_lookup_fmap in Hs.
    apply fmap_Some in Hs as (j' & Hj' & ->).
    apply lookup_seq in Hj' as [-> Hj]. cbn [plus] in *.
    by apply (boxed_slice P m u j t row).
Qed.

Lemma loop_body_pass_inv (self : MPC) (C : quad_arg) (c : lin_arg)
    (dynamics : option dynamics) (n_batch : nat) (st st' : loop_state)
    (brk : bool) w :
  loop_body self C c dynamics n_batch st = (w, Ok (st', brk)) ->
  exists x F f w1 r w2 best' n',
    solve_lqr_subproblem self (x_init self) C c F f dynamics x (ls_u st) false
    = (w1, Ok r) /\
    track_best self n_batch (lqr_x r) (lqr_u r) (for_out r) (ls_best st)
               (ls_n_not_improved st + 1) = (w2, Ok (best', n')) /\
    ls_best st' = Some best' /\ ls_u st' = lqr_u r.
Proof.
  unfold loop_body. intros Hrun.
  apply bind_ok_inv in Hrun as (? & [[x F'] f'] & ? & _ & Hrun & _).
  apply bind_ok_inv in Hrun as (w1 & r & ? & Hsolve & Hrun & _).
  apply bind_ok_inv in Hrun as (w2 & [best' n'] & ? & Htrack & Hrun & _).
  apply bind_ok_inv in Hrun as (? & [] & ? & _ & Hrun & _).
  apply bind_ok_inv in Hrun as (? & brk' & ? & _ & Hrun & _).
  injection Hrun as _ <- _. by exists x, F', f', w1, r, w2, best', n'.
Qed.

Lemma boxed_within_reach (delta_u : option Q) (T m n : nat) (lo hi : bound)
    (u0 u : traj) :
  within_reach delta_u T m n lo hi u0 ->
  length u = T -> boxed (control_in_box n lo hi) m u ->
  within_reach delta_u T m n lo hi u.
Proof.
  intros Hreach Hlen Hu du Hdu. destruct (Hreach du Hdu) as [Hdu0 _].
  split; [done |]. intros t b d Ht Hb Hd.
  destruct (lookup_lt_is_Some_2 u t) as [row Hrow]; [lia |].
  destruct (Hu t row Hrow) as [Hlrow Hin].
  destruct (lookup_lt_is_Some_2 row b) as [v Hv]; [lia |].
  destruct (Hin b v Hv) as [Hlv Hbox].
  destruct (lookup_lt_is_Some_2 v d) as [e He]; [lia |].
  exists e. split; [unfold entry; by rewrite Hrow; cbn; rewrite Hv |].
  destruct (Hbox d e He) as [Hlow Hupp]. lra.
Qed.

Section Pass.
Variable ph : lqr_phases.
Variables (self : MPC) (C : quad_arg) (c : lin_arg)
          (dynamics : option dynamics) (n_batch m : nat) (lo hi : bound).
Hypothesis Hspec : LQRStep_call = LQRStep_spec ph.
Hypothesis Hlo : u_lower self = Some lo.
Hypothesis Hhi : u_upper self = Some hi.
Hypothesis Hm : (m <= n_batch)%nat.
Hypothesis Hle : forall t b d,
  (t < T self)%nat -> (b < n_batch)%nat -> (d < n_ctrl self)%nat ->
  bound_at lo t b d <= bound_at hi t b d.
Hypothesis Hstep : forall F f x u no_op w r,
  solve_lqr_subproblem self (x_init self) C c F f dynamics x u no_op
  = (w, Ok r) ->
  exists cfg xi C' c' F' f',
    lqr_u r = lqr_u (LQRStep_call cfg xi C' c' F' f') /\
    lqr_u_lower cfg = u_lower self /\ lqr_u_upper cfg = u_upper self /\
    lqr_delta_u cfg = delta_u self /\ lqr_T cfg = T self /\
    lqr_n_ctrl cfg = n_ctrl self /\ current_u cfg = u /\
    no_op_forward cfg = no_op /\ length xi = m.

Lemma pass_boxed F f x u w r :
  within_reach (delta_u self) (T self) m (n_ctrl self) lo hi u ->
  solve_lqr_subproblem self (x_init self) C c F f dynamics x u false
  = (w, Ok r) ->
  length (lqr_u r) = T self /\
  boxed (control_in_box (n_ctrl self) lo hi) m (lqr_u r).
Proof.
  intros Hreach Hsolve.
  destruct (Hstep _ _ _ _ _ _ _ Hsolve)
    as (cfg & xi & C' & c' & F' & f' & -> & Hclo & Hchi & Hcdu & HcT & Hcn &
        Hcu & Hno & Hxi).
  rewrite Hspec, lqr_u_spec, Hno, HcT.
  rewrite Hlo in Hclo. rewrite Hhi in Hchi.
  destruct (rollout_boxed cfg F' f'
              (fst (backward_pass ph cfg xi C' c' F' f'))
              (line_search ph cfg xi C' c' F' f'
                 (fst (backward_pass ph cfg xi C' c' F' f')))
              (T self) m (n_ctrl self) lo hi Hclo Hchi Hcn) with (T self) 0%nat xi
    as [Hlen Hrows]; try done.
  - intros t b d Ht Hb Hd. apply Hle; [done | lia | done].
  - by rewrite Hcdu, Hcu.
Qed.

Lemma outer_loop_boxed (n : nat) (st st' : loop_state) w :
  outer_loop self C c dynamics n_batch n st = (w, Ok st') ->
  within_reach (delta_u self) (T self) m (n_ctrl self) lo hi (ls_u st) ->
  (forall b, ls_best st = Some b ->
     slices_boxed (control_in_box (n_ctrl self) lo hi) (best_u b)) ->
  forall b, ls_best st' = Some b ->
    slices_boxed (control_in_box (n_ctrl self) lo hi) (best_u b).
Proof.
  revert st w. induction n as [| n IH]; intros st w Hrun Hreach Hbest;
    cbn [outer_loop] in Hrun.
  - by injection Hrun as _ <-.
  - apply bind_ok_inv in Hrun as (w1 & [st1 brk] & w2 & Hbody & Hrun & _).
    apply loop_body_pass_inv in Hbody
      as (x & F' & f' & w3 & r & w4 & best' & n' & Hsolve & Htrack & Hb1 & Hu1).
    destruct (pass_boxed _ _ _ _ _ _ Hreach Hsolve) as [Hlen Hboxed].
    assert (Hbest1 : forall b, ls_best st1 = Some b ->
              slices_boxed (control_in_box (n_ctrl self) lo hi) (best_u b)).
    { intros b Hb. rewrite Hb1 in Hb. injection Hb as <-.
      by eapply track_best_boxed. }
    destruct brk.
    + by injection Hrun as _ <-.
    + eapply IH; [exact Hrun | | exact Hbest1].
      rewrite Hu1. by eapply boxed_within_reach.
Qed.

End Pass.

(** C1 (as the step is modelled): with box bounds supplied, the lower not
    above the upper at any entry, every entry of the control sequence
    that [forward] returns lies within the bounds, exactly, provided no
    limit [delta_u] on the change per iteration is set, or the limit is
    not negative and every initial control is within the limit of the
    box; the LQR step being the modelled one, whatever its backward
    recursion and line search compute. *)
Theorem forward_controls_within_bounds (ph : lqr_phases) (self : MPC)
    (C : quad_arg) (c : lin_arg) (dynamics : option dynamics)
    (lo hi : bound) (nb : nat) w x u costs :
  LQRStep_call = LQRStep_spec ph ->
  u_lower self = Some lo -> u_upper self = Some hi ->
  infer_n_batch self C = mret nb ->
  bound_covers lo (T self) nb (n_ctrl self) ->
  bound_covers hi (T self) nb (n_ctrl self) ->
  (forall t b d, (t < T self)%nat -> (b < nb)%nat -> (d < n_ctrl self)%nat ->
     bound_at lo t b d <= bound_at hi t b d) ->
  (forall w0 u0, initial_controls self nb = (w0, Ok u0) ->
     within_reach (delta_u self) (T self) nb (n_ctrl self) lo hi u0) ->
  forward self C c dynamics = (w, Ok (x, u, costs)) ->
  forall t b d g, entry u t b d = Some g ->
    bound_at lo t b d <= val g <= bound_at hi t b d.
Proof.
  intros Hspec Hlo Hhi Hnb _ _ Hle Hinit Hrun t b d g Hg.
  unfold forward in Hrun. rewrite Hnb, bind_pure in Hrun.
  unfold solve_with_batch in Hrun.
  apply bind_ok_inv in Hrun as (? & C' & ? & _ & Hrun & _).
  apply bind_ok_inv in Hrun as (? & c' & ? & _ & Hrun & _).
  apply bind_ok_inv in Hrun as (? & [] & ? & Hx & Hrun & _).
  apply bind_ok_inv in Hrun as (w0 & u0 & ? & Hu0 & Hrun & _).
  apply bind_ok_inv in Hrun as (? & [] & ? & _ & Hrun & _).
  apply bind_ok_inv in Hrun as (w1 & st & w2 & Hloop & Hfin & _).
  assert (Hxlen : length (x_init self) = nb).
  { unfold assert_ in Hx.
    destruct (length (x_init self) =? nb)%nat eqn:E; [| discriminate].
    by apply Nat.eqb_eq. }
  destruct (solve_lqr_subproblem_step self (x_init self) C' c' dynamics)
    as (m & Hm & Hstep).
  rewrite Hxlen in Hm.
  apply finish_ok_inv in Hfin
    as (best & xb & ub & F' & f' & w3 & r & w4 & Hb & _ & Hub & Hsolve &
        Hdet & _).
  assert (Hslices : slices_boxed (control_in_box (n_ctrl self) lo hi)
                                 (best_u best)).
  { eapply (outer_loop_boxed ph self C' c' dynamics nb m lo hi);
      try done.
    intros du Hdu. destruct (Hinit w0 u0 Hu0 du Hdu) as [Hdu0 Hnom].
    split; [done |]. intros t' b' d' Ht' Hb' Hd'.
    apply Hnom; [done | lia | done]. }
  destruct (Hstep _ _ _ _ _ _ _ Hsolve)
    as (cfg & xi & C'' & c'' & F'' & f'' & Hr & _ & _ & _ & _ & _ & Hcu &
        Hno & _).
  rewrite Hspec, lqr_u_spec, Hno, Hcu in Hr.
  assert (Hjoin : forall t row j v, ub !! t = Some row -> row !! j = Some v ->
                    control_in_box (n_ctrl self) lo hi t j v).
  { destruct (best_u best) as [| s0 rest] eqn:Hbu; [discriminate |].
    injection Hub as <-.
    apply (join_entries (control_in_box (n_ctrl self) lo hi) rest 1 s0).
    - intros t' row Hrow.
      destruct (Hslices 0%nat s0 t' row eq_refl Hrow) as (v & -> & Hv).
      split; [done |]. intros [| j] v' Hv'; [| done]. by injection Hv' as <-.
    - intros i s t' row Hs Hrow.
      apply (Hslices (S i) s t' row); done. }
  assert (Hval : exists e, entry ub t b d = Some e /\ val g == e).
  { rewrite <- Hr.
    apply detach_stage_ok_inv in Hdet as [[_ ->] | (Ix & Iu & _ & ->)].
    - apply attach_entry in Hg. by exists (val g).
    - by apply masked_values in Hg. }
  destruct Hval as (e & He & Hge). rewrite Hge.
  unfold entry in He. apply bind_Some in He as (row & Hrow & He).
  apply bind_Some in He as (v & Hv & He).
  by apply (proj2 (Hjoin t row b v Hrow Hv) d e).
Qed.

End BoxBounds.

(** ** The record of the first pass *)

Section FirstPass.
Context `{Collaborators}.

(** X12: the record of the first pass gives the iterate back.  The first
    pass of the loop stores the trajectory [x], [u] that its LQR step
    returned as per-element slices, and joining the slices along the
    batch dimension, as lines 247-248 do for the final solve, returns
    exactly [x] and [u]:
    [torch.cat(list(torch.split(x, 1, dim=1)), dim=1)] is [x] for a
    [T, B, n] tensor with [T >= 1] and [B >= 1]. *)
Theorem first_pass_round_trip (self : MPC) (C : quad_arg) (c : lin_arg)
    (dynamics : option dynamics) (n_batch : nat) (u0 : traj)
    (st : loop_state) (brk : bool) w :
  loop_body self C c dynamics n_batch (initial_state self u0)
  = (w, Ok (st, brk)) ->
  exists x F f w1 r best,
    solve_lqr_subproblem self (x_init self) C c F f dynamics x u0 false
    = (w1, Ok r) /\
    ls_best st = Some best /\
    (forall B, (1 <= B)%nat -> lqr_x r <> [] ->
       Forall (fun row => length row = B) (lqr_x r) ->
       cat_dim1 (best_x best) = mret (lqr_x r)) /\
    (forall B, (1 <= B)%nat -> lqr_u r <> [] ->
       Forall (fun row => length row = B) (lqr_u r) ->
       cat_dim1 (best_u best) = mret (lqr_u r)).
Proof.
  intros Hbody.
  apply loop_body_pass_inv in Hbody
    as (x & F' & f' & w1 & r & w2 & best & n' & Hsolve & Htrack & Hb & _).
  cbn [initial_state ls_u ls_best] in Hsolve, Htrack.
  injection Htrack as _ <- _. cbn [best_x best_u].
  exists x, F', f', w1, r. eexists. split; [exact Hsolve |].
  split; [exact Hb |]. cbn [best_x best_u].
  split; intros B HB Hne Hrows; by apply (join_split_batch _ B).
Qed.

End FirstPass.

(** ** The properties on the small instances *)

Lemma forward_without_iterations_witness :
  let collab := table_collaborators four_passes in
  let self := small_MPC 2 None 0 ANALYTIC 0 (1 # 10) None true true 5 (1 # 10) in
  (forall w out, forward self (C_4d unit_C) (c_3d zero_c3) None <> (w, Ok out)) /\
  forward self (C_4d unit_C) (c_3d zero_c3) None = ([], Raise TypeError).
Proof.
  intros collab self.
  destruct (forward_without_iterations self (C_4d unit_C) (c_3d zero_c3) None
              eq_refl) as [H1 H2].
  split; [exact H1 |].
  apply (H2 unit_C zero_c3); [reflexivity | reflexivity | reflexivity | reflexivity |].
  cbn. lia.
Defined.

Lemma forward_checks_x_init_witness :
  let collab := table_collaborators four_passes in
  let self := small_MPC 2 None 10 ANALYTIC 0 (1 # 10) None true true 5 (1 # 10) in
  forward self (C_4d unit_C1) (c_3d [[[0; 0]]; [[0; 0]]]) None
  = ([], Raise (AssertionError "")).
Proof.
  intros collab self.
  apply (proj2 (forward_checks_x_init self (C_4d unit_C1)
                  (c_3d [[[0; 0]]; [[0; 0]]]) None)
               unit_C1 [[[0; 0]]; [[0; 0]]] eq_refl eq_refl).
  cbn. lia.
Defined.

Lemma forward_unbatched_cost_witness :
  let collab := table_collaborators four_passes in
  let self := small_MPC 2 None 10 ANALYTIC 0 (1 # 10) (Some 2%nat) true true 5 (1 # 10) in
  forward self (C_3d [[[1; 0]; [0; 1]]; [[1; 0]; [0; 1]]]) (c_2d zero_c)
          (Some integrator)
  = forward self (C_4d unit_C) (c_3d zero_c3) (Some integrator).
Proof.
  intros collab self.
  apply (forward_unbatched_cost self [[[1; 0]; [0; 1]]; [[1; 0]; [0; 1]]]
           zero_c (Some integrator) 2);
    [reflexivity | cbn; lia | reflexivity | reflexivity | repeat constructor].
Defined.

Lemma slew_rate_needs_dynamics_witness :
  let collab := table_collaborators four_passes in
  (forall C c w out, forward slew_MPC C c None <> (w, Ok out)) /\
  (forall x_init C c F f x u no_op w r,
     solve_lqr_subproblem slew_MPC x_init C c F f None x u no_op
     <> (w, Ok r)).
Proof.
  intros collab. apply (slew_rate_needs_dynamics slew_MPC). discriminate.
Defined.

Lemma counter_over_passes_witness :
  let collab := table_collaborators four_passes in
  let self := small_MPC 2 None 10 ANALYTIC 0 (1 # 10) None true true 5 (1 # 10) in
  exists w st',
    outer_loop self (C_4d unit_C) (c_2d zero_c) None 2 10
               (initial_state self zero_u) = (w, Ok st') /\
    (forall i0, ls_history st' !! 0%nat = Some i0 ->
       it_n_not_improved i0 = 1%Z /\
       best_costs (it_best i0) = costs (it_for_out i0) /\
       best_full_du_norm (it_best i0) = full_du_norm (it_for_out i0)) /\
    (forall k i i', ls_history st' !! k = Some i ->
       ls_history st' !! S k = Some i' ->
       (it_n_not_improved i' = (it_n_not_improved i + 1)%Z /\
        it_best i' = it_best i) \/
       it_n_not_improved i' = 0%Z).
Proof.
  intros collab self. eexists _, _. split; [vm_compute; reflexivity |].
  eapply (counter_over_passes self (C_4d unit_C) (c_2d zero_c) None 2 zero_u).
  vm_compute. reflexivity.
Defined.

Lemma single_pass_without_patience_witness :
  let collab := table_collaborators four_passes in
  let self := small_MPC 2 None 10 ANALYTIC 0 (1 # 10) None true true 0 (1 # 10) in
  exists w st',
    outer_loop self (C_4d unit_C) (c_2d zero_c) None 2 10
               (initial_state self zero_u) = (w, Ok st') /\
    length (ls_history st') = 1%nat.
Proof.
  intros collab self. eexists _, _. split; [vm_compute; reflexivity |].
  eapply (single_pass_without_patience self (C_4d unit_C) (c_2d zero_c) None 2
            zero_u); [cbn; lia | cbn; lia |].
  vm_compute. reflexivity.
Defined.

Lemma best_record_provenance_witness :
  let collab := table_collaborators four_passes in
  let self := small_MPC 2 None 10 ANALYTIC 0 (1 # 10) None true true 5 (1 # 10) in
  exists w st',
    outer_loop self (C_4d unit_C) (c_2d zero_c) None 2 10
               (initial_state self zero_u) = (w, Ok st') /\
    forall k i j cj nj,
      ls_history st' !! k = Some i ->
      best_costs (it_best i) !! j = Some cj ->
      best_full_du_norm (it_best i) !! j = Some nj ->
      exists k' i', (k' <= k)%nat /\ ls_history st' !! k' = Some i' /\
        costs (it_for_out i') !! j = Some cj /\
        full_du_norm (it_for_out i') !! j = Some nj.
Proof.
  intros collab self. eexists _, _. split; [vm_compute; reflexivity |].
  eapply (best_record_provenance self (C_4d unit_C) (c_2d zero_c) None 2 zero_u).
  vm_compute. reflexivity.
Defined.

Lemma best_cost_near_minimum_witness :
  let collab := table_collaborators four_passes in
  let self := small_MPC 2 None 10 ANALYTIC 0 (1 # 10) None true true 5 (1 # 10) in
  exists w st',
    outer_loop self (C_4d unit_C) (c_2d zero_c) None 2 10
               (initial_state self zero_u) = (w, Ok st') /\
    forall k' k i' i j cj vj, (k' <= k)%nat -> (j < 2)%nat ->
      ls_history st' !! k' = Some i' -> ls_history st' !! k = Some i ->
      costs (it_for_out i') !! j = Some cj ->
      best_costs (it_best i) !! j = Some vj ->
      vj < cj + best_cost_eps self.
Proof.
  intros collab self. eexists _, _. split; [vm_compute; reflexivity |].
  eapply (best_cost_near_minimum self (C_4d unit_C) (c_2d zero_c) None 2 zero_u);
    [reflexivity |].
  vm_compute. reflexivity.
Defined.

Lemma linearize_rederives_states_witness :
  let collab := table_collaborators [] in
  let self := small_MPC 2 None 10 AUTO_DIFF 0 (1 # 10) None true true 5 (1 # 10) in
  linearize_dynamics self [[[0]; [3]]; [[9]; [9]]] [[[1]; [2]]; [[0]; [0]]]
                     integrator false
  = mret (linearized self integrator
            (take 1 (dynamics_trajectory integrator [[0]; [3]]
                       [[[1]; [2]]; [[0]; [0]]]))
            (take 1 [[[1]; [2]]; [[0]; [0]]])).
Proof.
  intros collab self.
  apply (linearize_rederives_states self [[[0]; [3]]; [[9]; [9]]]
           [[[1]; [2]]; [[0]; [0]]] integrator false 2 [[0]; [3]]);
    [by left | cbn; lia | lia | cbn; lia | reflexivity | reflexivity |].
  split; [reflexivity | repeat constructor].
Defined.

Lemma linearize_dynamics_edges_witness :
  let collab := table_collaborators [] in
  linearize_dynamics single_step_MPC [] zero_u integrator false
  = ([], Raise IndexError) /\
  linearize_dynamics single_step_MPC zero_u zero_u integrator false
  = ([], Raise ValueError).
Proof.
  intros collab.
  destruct (linearize_dynamics_edges single_step_MPC zero_u zero_u integrator
              false) as [H1 H2].
  split; [exact H1 |]. apply H2; [discriminate | cbn; lia | discriminate].
Defined.

Lemma forward_output_by_verbosity_witness :
  let collab := table_collaborators four_passes in
  let self := small_MPC 2 None 10 ANALYTIC (-1) (1 # 10) None true true 5 (1 # 10) in
  printed (forward self (C_4d unit_C) (c_2d zero_c) None) = [].
Proof.
  intros collab self.
  apply (proj1 (forward_output_by_verbosity self (C_4d unit_C) (c_2d zero_c)
                  None)).
  cbn. lia.
Defined.

Lemma finish_returns_best_witness :
  let collab := table_collaborators four_passes in
  let self := small_MPC 2 None 10 ANALYTIC 0 (1 # 10) None true true 5 (1 # 10) in
  exists w1 st w2 x u costs,
    outer_loop self (C_4d unit_C) (c_2d zero_c) None 2 10
               (initial_state self zero_u) = (w1, Ok st) /\
    finish self (C_4d unit_C) (c_2d zero_c) None st = (w2, Ok (x, u, costs)) /\
    exists i xb ub F f w3 r,
      last (ls_history st) = Some i /\
      costs = best_costs (it_best i) /\
      cat_dim1 (best_x (it_best i)) = mret xb /\
      cat_dim1 (best_u (it_best i)) = mret ub /\
      solve_lqr_subproblem self (x_init self) (C_4d unit_C) (c_2d zero_c) F f
        None xb ub true = (w3, Ok r) /\
      (forall t b d g, entry x t b d = Some g ->
         exists e, entry (lqr_x r) t b d = Some e /\ val g == e) /\
      (forall t b d g, entry u t b d = Some g ->
         exists e, entry (lqr_u r) t b d = Some e /\ val g == e).
Proof.
  intros collab self. eexists _, _, _, _, _, _.
  split; [vm_compute; reflexivity |]. split; [vm_compute; reflexivity |].
  eapply (finish_returns_best self (C_4d unit_C) (c_2d zero_c) None 2 zero_u);
    vm_compute; reflexivity.
Defined.

Lemma forward_controls_within_bounds_witness :
  let collab := rollout_collaborators pushing_phases in
  let lo := BFloat (-1) in
  let hi := BTensor [[[1]; [2]]; [[3]; [4]]] in
  let self := boxed_MPC lo hi (Some 2) 10 in
  let u := attach [[[1]; [-1]]; [[2]; [-1]]] in
  forward self (C_4d unit_C) (c_3d zero_c3) None
  = ([], Ok (attach [[[0]; [0]]; [[1]; [-1]]], u, [1; 1])) /\
  forall t b d g, entry u t b d = Some g ->
    bound_at lo t b d <= val g <= bound_at hi t b d.
Proof.
  intros collab lo hi self u. split; [vm_compute; reflexivity |].
  apply (forward_controls_within_bounds pushing_phases self (C_4d unit_C)
           (c_3d zero_c3) None lo hi 2 []
           (attach [[[0]; [0]]; [[1]; [-1]]]) u [1; 1]).
  - reflexivity.
  - reflexivity.
  - reflexivity.
  - reflexivity.
  - exact I.
  - intros t b d Ht Hb Hd.
    destruct t as [| [| t]], b as [| [| b]], d as [| d];
      simpl in Ht, Hb, Hd; try lia; by eexists.
  - intros t b d Ht Hb Hd.
    destruct t as [| [| t]], b as [| [| b]], d as [| d];
      simpl in Ht, Hb, Hd; try lia; cbn; lra.
  - intros w0 u0 [= _ <-] du [= <-]. split; [lra |].
    intros t b d Ht Hb Hd.
    destruct t as [| [| t]], b as [| [| b]], d as [| d];
      simpl in Ht, Hb, Hd; try lia;
      (eexists; split; [reflexivity | cbn; lra]).
  - vm_compute. reflexivity.
Defined.

Lemma change_limit_leaves_box :
  let collab := rollout_collaborators pushing_phases in
  let lo := BFloat 1 in
  let hi := BFloat 2 in
  let self := boxed_MPC lo hi (Some (1 # 10)) 1 in
  let u := attach [[[1 # 10]; [1 # 10]]; [[1 # 10]; [1 # 10]]] in
  forward self (C_4d unit_C) (c_3d zero_c3) None
  = ([], Ok (attach [[[0]; [0]]; [[1 # 10]; [1 # 10]]], u, [1; 1])) /\
  ~ (forall t b d g, entry u t b d = Some g ->
       bound_at lo t b d <= val g <= bound_at hi t b d).
Proof.
  intros collab lo hi self u. split; [vm_compute; reflexivity |].
  intros Hall.
  destruct (Hall 0%nat 0%nat 0%nat _ eq_refl) as [Hlow _].
  cbn in Hlow. lra.
Qed.

(** C3 (where the code departs from it): with [exit_unconverged] on and
    [detach_unconverged] off, a run whose single pass leaves the step
    norms at 1/2, above [eps = 1/10], returns normally instead of failing;
    and with the detaching on, an element whose recorded step norm 1
    exceeds [eps] stays attached, because the mask is computed from the
    step norms of the last pass. *)
Theorem exit_unconverged_not_honoured :
  let strict := linear_MPC 1 true false in
  let tolerant := linear_MPC 10 false true in
  (let collab := rollout_collaborators
                   (reporting_phases [mkForOut [5; 5] [1 # 2; 1 # 2] 1]) in
   recorded_norms (outer_loop strict (C_4d unit_C) (c_3d zero_c3) None 2 1
                              (initial_state strict zero_u))
   = Some [1 # 2; 1 # 2] /\
   eps strict < 1 # 2 /\ exit_unconverged strict = true /\
   forward strict (C_4d unit_C) (c_3d zero_c3) None
   = ([], Ok (attach [[[1]; [1]]; [[2]; [2]]],
              attach [[[1]; [1]]; [[1]; [1]]], [5; 5]))) /\
  (let collab := rollout_collaborators (reporting_phases settling_passes) in
   recorded_norms (outer_loop tolerant (C_4d unit_C) (c_3d zero_c3) None 2 10
                              (initial_state tolerant zero_u))
   = Some [1; 1 # 100] /\
   eps tolerant < 1 /\
   forward tolerant (C_4d unit_C) (c_3d zero_c3) None
   = (unconverged_warning,
      Ok (attach [[[1]; [1]]; [[2]; [3]]],
          attach [[[1]; [2]]; [[1]; [2]]], [5; 2]))).
Proof.
  intros strict tolerant. split; intros collab.
  - split; [vm_compute; reflexivity |]. split; [reflexivity |].
    split; [reflexivity | vm_compute; reflexivity].
  - split; [vm_compute; reflexivity |]. split; [reflexivity |].
    vm_compute. reflexivity.
Qed.

Lemma first_pass_round_trip_witness :
  let collab := rollout_collaborators (reporting_phases settling_passes) in
  let self := linear_MPC 10 false true in
  exists w st brk,
    loop_body self (C_4d unit_C) (c_3d zero_c3) None 2
              (initial_state self zero_u) = (w, Ok (st, brk)) /\
    exists x F f w1 r best,
      solve_lqr_subproblem self (x_init self) (C_4d unit_C) (c_3d zero_c3)
        F f None x zero_u false = (w1, Ok r) /\
      ls_best st = Some best /\
      (forall B, (1 <= B)%nat -> lqr_x r <> [] ->
         Forall (fun row => length row = B) (lqr_x r) ->
         cat_dim1 (best_x best) = mret (lqr_x r)) /\
      (forall B, (1 <= B)%nat -> lqr_u r <> [] ->
         Forall (fun row => length row = B) (lqr_u r) ->
         cat_dim1 (best_u best) = mret (lqr_u r)).
Proof.
  intros collab self.
  destruct (loop_body self (C_4d unit_C) (c_3d zero_c3) None 2
                      (initial_state self zero_u))
    as [w [[st brk] | e]] eqn:Hrun; [| vm_compute in Hrun; discriminate].
  exists w, st, brk. split; [reflexivity |].
  exact (first_pass_round_trip self (C_4d unit_C) (c_3d zero_c3) None 2
           zero_u st brk w Hrun).
Defined.
